(** * Golf city analysis: consolidation and scoring pipeline

    A shallow embedding of [scripts/fetch_teeradar.py],
    [scripts/consolidate_data.py] and [eda/compute_city_metrics.py].

    - A pandas [DataFrame] is a list of column names and a list of rows; a row
      is a finite map from column name to cell.  A missing cell reads as null.
    - Floats are exact rationals ([Q]); [NaN], [None] and [NaT] are the one
      null cell [VNull], which propagates through arithmetic as NaN does.
    - Exceptions are values of [error]; code that may raise returns [res].
    - [sort_values] is pandas' [nargsort] over numpy's [argsort].  The code
      asks for no kind of sort, so it gets numpy's default, whose handling of
      equal keys is not fixed: numpy is an explicit [numpy] argument, and
      what it promises is stated as [sorts] and, for a stable one, [stable].
    - The file system is a finite map from path to file.  What the operating
      system decides (directory enumeration order, temporary names, writes
      that break midway) is an explicit [os] argument. *)

From Stdlib Require Import ZArith QArith Qround Lqa Lia Bool Ascii String List
  Permutation Sorted OrderedTypeEx DecimalString DecimalZ DecimalPos.
From stdpp Require Import base gmap strings list sorting.

Local Open Scope Z_scope.
Local Open Scope stdpp_scope.

(** ** Cells, rows and tables *)

Inductive value :=
  | VNull
  | VNum (q : Q)
  | VStr (s : string)
  | VTime (t : Z).

Abbreviation row := (gmap string value).

Record DataFrame := mkDF { columns : list string; rows : list row }.

Definition cell (r : row) (c : string) : value := default VNull (r !! c).

Definition has_col (c : string) (df : DataFrame) : bool :=
  existsb (String.eqb c) (columns df).

Definition is_null (v : value) : bool :=
  match v with VNull => true | _ => false end.

(** Equality of cells as [drop_duplicates] and [merge] see it: numbers by
    value, nulls equal to each other. *)
Definition value_eqb (a b : value) : bool :=
  match a, b with
  | VNull, VNull => true
  | VNum x, VNum y => Qeq_bool x y
  | VStr x, VStr y => String.eqb x y
  | VTime x, VTime y => Z.eqb x y
  | _, _ => false
  end.

Definition same_kind (a b : value) : bool :=
  match a, b with
  | VNull, VNull | VNum _, VNum _ | VStr _, VStr _ | VTime _, VTime _ => true
  | _, _ => false
  end.

(** [<=] on two cells of the same kind. *)
Definition value_leb (a b : value) : bool :=
  match a, b with
  | VNum x, VNum y => Qle_bool x y
  | VStr x, VStr y => String.leb x y
  | VTime x, VTime y => Z.leb x y
  | _, _ => false
  end.

(** ** Exceptions *)

Inductive error :=
  | KeyError (k : string)
  | ValueError (msg : string)
  | TypeError
  | JSONDecodeError (path : string)
  | FileNotFoundError (path : string)
  | OSError (path : string)
  | DatabaseError (path : string).

Inductive res (A : Type) :=
  | Ok (a : A)
  | Err (e : error).
Arguments Ok {A} a.
Arguments Err {A} e.

#[global] Instance res_bind : MBind res := fun A B k m =>
  match m with Ok a => k a | Err e => Err e end.
#[global] Instance res_ret : MRet res := fun A a => Ok a.

(** ** Sorting

    Python's [sorted] is stable; it is the insertion sort below, which never
    moves an element past an equal one.

    pandas sorts a column through numpy's [argsort], with numpy's default
    kind of sort, "quicksort".  That sort puts the keys in ascending order;
    which of two equal keys comes first it does not say, and numpy picks its
    algorithm by array length, element type and processor.  So numpy is an
    argument of everything that sorts a table: [argsort np keys] lists the
    positions of [keys] in the order numpy [np] visits them. *)

Section Sort.
Context {A : Type} (le : A -> A -> bool).

Fixpoint insert_sorted (x : A) (l : list A) : list A :=
  match l with
  | [] => [x]
  | y :: l' => if le x y then x :: l else y :: insert_sorted x l'
  end.

Fixpoint stable_sort (l : list A) : list A :=
  match l with
  | [] => []
  | x :: l' => insert_sorted x (stable_sort l')
  end.
End Sort.

Record numpy := mkNumpy { argsort : list value -> list nat }.

(** [l[idx]]: the elements of [l] at the positions [idx]. *)
Definition take {A} (l : list A) (idx : list nat) : list A :=
  omap (fun i => l !! i) idx.

(** Comparing a string with a number raises [TypeError]; a sort touches every
    key, so it succeeds exactly when the non-null keys are of one kind. *)
Definition comparable (vs : list value) : bool :=
  match vs with
  | [] => true
  | v :: vs' => forallb (same_kind v) vs'
  end.

(** pandas' [nargsort]: the rows without a key are set aside and appended
    last in their original order; for a descending sort the other rows are
    reversed, sorted ascending and reversed again. *)
Definition nargsort (np : numpy) (c : string) (ascending : bool)
    (l : list row) : list row :=
  let key r := cell r c in
  let non_nans := List.filter (fun r => negb (is_null (key r))) l in
  let nans := List.filter (fun r => is_null (key r)) l in
  (if ascending then take non_nans (argsort np (map key non_nans))
   else rev (take (rev non_nans) (argsort np (map key (rev non_nans)))))
  ++ nans.

Definition sort_values (np : numpy) (c : string) (ascending : bool)
    (df : DataFrame) : res DataFrame :=
  if has_col c df then
    if comparable (List.filter (fun v => negb (is_null v))
                     (map (fun r => cell r c) (rows df)))
    then Ok (mkDF (columns df) (nargsort np c ascending (rows df)))
    else Err TypeError
  else Err (KeyError c).

(** numpy on short arrays: positions and keys are sorted by insertion, as
    numpy's quicksort does on arrays of up to 16 elements, so equal keys keep
    their order. *)
Definition enumerate (ks : list value) : list (nat * value) :=
  zip (seq 0 (length ks)) ks.

Definition short_arrays : numpy :=
  mkNumpy (fun ks =>
    map fst (stable_sort (fun a b => value_leb (snd a) (snd b))
               (enumerate ks))).

(** [drop_duplicates(subset=c, keep="last")]: a row stays when no later row
    has the same key. *)
Fixpoint keep_last (c : string) (l : list row) : list row :=
  match l with
  | [] => []
  | r :: l' =>
      if existsb (fun r' => value_eqb (cell r' c) (cell r c)) l'
      then keep_last c l'
      else r :: keep_last c l'
  end.

Definition drop_duplicates (c : string) (df : DataFrame) : res DataFrame :=
  if has_col c df then Ok (mkDF (columns df) (keep_last c (rows df)))
  else Err (KeyError c).

(** ** Column arithmetic

    A float column is a list of [option Q]; [None] is NaN. *)

Definition of_float (x : option Q) : value :=
  match x with Some q => VNum q | None => VNull end.

(** [astype(float)] on one cell. *)
Definition to_float (v : value) : res (option Q) :=
  match v with
  | VNull => Ok None
  | VNum q => Ok (Some q)
  | VStr _ => Err (ValueError "could not convert string to float")
  | VTime _ => Err TypeError
  end.

Fixpoint mapM {A B} (f : A -> res B) (l : list A) : res (list B) :=
  match l with
  | [] => Ok []
  | x :: l' => y ← f x; ys ← mapM f l'; Ok (y :: ys)
  end.

Definition dropna (xs : list (option Q)) : list Q := omap id xs.

Definition Qsum (qs : list Q) : Q := fold_right Qplus 0%Q qs.

Definition Qmax (a b : Q) : Q := if Qle_bool a b then b else a.
Definition Qmin (a b : Q) : Q := if Qle_bool a b then a else b.

(** [max] and [min] of a column, skipping NaN; NaN when nothing is left. *)
Definition nanmax (xs : list (option Q)) : option Q :=
  match dropna xs with
  | [] => None
  | q :: qs => Some (fold_left Qmax qs q)
  end.

Definition nanmin (xs : list (option Q)) : option Q :=
  match dropna xs with
  | [] => None
  | q :: qs => Some (fold_left Qmin qs q)
  end.

Definition mean (qs : list Q) : option Q :=
  match qs with
  | [] => None
  | _ => Some (Qsum qs / inject_Z (Z.of_nat (length qs)))%Q
  end.

Definition nanmean (xs : list (option Q)) : option Q := mean (dropna xs).

Definition median (qs : list Q) : option Q :=
  let s := stable_sort Qle_bool qs in
  let n := length s in
  match n with
  | O => None
  | _ =>
      if Nat.even n
      then Some ((nth (n / 2 - 1) s 0 + nth (n / 2) s 0) / 2)%Q
      else Some (nth (n / 2) s 0%Q)
  end.

Definition fillna (fill : option Q) (xs : list (option Q)) : list (option Q) :=
  map (fun x => match x with Some q => Some q | None => fill end) xs.

(** NaN-propagating arithmetic on cells. *)
Definition fadd (a b : option Q) : option Q :=
  match a, b with Some x, Some y => Some (x + y)%Q | _, _ => None end.
Definition fsub (a b : option Q) : option Q :=
  match a, b with Some x, Some y => Some (x - y)%Q | _, _ => None end.
Definition fmul (a b : option Q) : option Q :=
  match a, b with Some x, Some y => Some (x * y)%Q | _, _ => None end.
Definition fdiv (a b : option Q) : option Q :=
  match a, b with Some x, Some y => Some (x / y)%Q | _, _ => None end.

(** [int(x)]: truncation towards zero. *)
Definition Qtrunc (q : Q) : Z :=
  if Qle_bool 0 q then Qfloor q else Qceiling q.

(** [round(x)] to the nearest integer, halves to the even neighbour. *)
Definition round_half_even (q : Q) : Z :=
  let f := Qfloor q in
  let d := (q - inject_Z f)%Q in
  match Qcompare d (1 # 2) with
  | Lt => f
  | Gt => f + 1
  | Eq => if Z.even f then f else f + 1
  end.

(** [round(x, k)] with [n = 10^k]. *)
Definition round_to (n : Z) (q : Q) : Q :=
  (inject_Z (round_half_even (q * inject_Z n)) / inject_Z n)%Q.

(** ** Column updates *)

(** [df[c] = vals] *)
Definition set_column (c : string) (vals : list value) (df : DataFrame)
  : DataFrame :=
  mkDF (if has_col c df then columns df else columns df ++ [c])
       (zip_with (fun r v => <[c := v]> r) (rows df) vals).

(** [df[c] = df[c].map(f)] *)
Definition map_column (c : string) (f : value -> value) (df : DataFrame)
  : DataFrame :=
  mkDF (columns df) (map (fun r => <[c := f (cell r c)]> r) (rows df)).

(** [df.drop(columns=cs)] for labels that exist. *)
Definition drop_columns (cs : list string) (df : DataFrame) : DataFrame :=
  mkDF (List.filter (fun c => negb (existsb (String.eqb c) cs)) (columns df))
       (map (fun r => fold_right (fun c acc => delete c acc) r cs) (rows df)).

(** ** Files and the operating system *)

Record payload := mkPayload { courses : option (list row) }.

Record envelope := mkEnvelope {
  fetched_at : option value;
  offset : option value;
  payload_of : option payload }.

Inductive format := Parquet | Csv.

(** A SQLite database is the tables it holds, by name. *)
Inductive file :=
  | FCapture (e : envelope)
  | FTable (fmt : format) (df : DataFrame)
  | FRecords (recs : list row)
  | FDatabase (tables : gmap string DataFrame)
  | FBroken.

Abbreviation filesystem := (gmap string file).

Record os := mkOS {
  scandir : list string;
  tmp_stem : string;
  breaks : string -> bool }.

Inductive message :=
  | NoRawFiles (dir : string)
  | NoData
  | Deduplicated (key : string) (n : nat)
  | WroteParquet (path : string)
  | WroteNdjson (path : string)
  | WroteSqlite (path : string)
  | AllDone (n : nat)
  | SavedMetrics (parquet csv : string).

Record world := mkWorld { fs : filesystem; stdout : list message }.

(** A command runs in a world and leaves a world behind, also when it
    raises. *)
Definition io (A : Type) : Type := world -> world * res A.

#[global] Instance io_bind : MBind io := fun A B k m w =>
  match m w with
  | (w', Ok a) => k a w'
  | (w', Err e) => (w', Err e)
  end.
#[global] Instance io_ret : MRet io := fun A a w => (w, Ok a).

Definition raise {A} (e : error) : io A := fun w => (w, Err e).

Definition lift {A} (m : res A) : io A := fun w => (w, m).

Definition print (m : message) : io unit := fun w =>
  (mkWorld (fs w) (stdout w ++ [m]), Ok tt).

Definition get_fs : io filesystem := fun w => (w, Ok (fs w)).

Definition put_file (p : string) (f : file) : io unit := fun w =>
  (mkWorld (<[p := f]> (fs w)) (stdout w), Ok tt).

(** Writing [f] to [p] opens [p] for writing, which truncates it; when the
    write breaks midway the truncated file stays behind. *)
Definition write_file (o : os) (p : string) (f : file) : io unit := fun w =>
  if breaks o p
  then (mkWorld (<[p := FBroken]> (fs w)) (stdout w), Err (OSError p))
  else (mkWorld (<[p := f]> (fs w)) (stdout w), Ok tt).

(** [os.replace(src, dst)] *)
Definition replace (src dst : string) : io unit := fun w =>
  match fs w !! src with
  | Some f => (mkWorld (<[dst := f]> (delete src (fs w))) (stdout w), Ok tt)
  | None => (w, Err (FileNotFoundError src))
  end.

(** ** Paths *)

Fixpoint has_slash (s : string) : bool :=
  match s with
  | EmptyString => false
  | String c s' => Ascii.eqb c "/" || has_slash s'
  end.

(** [os.path.basename]: what follows the last slash. *)
Fixpoint basename (s : string) : string :=
  match s with
  | EmptyString => EmptyString
  | String c s' =>
      if has_slash s' then basename s'
      else if Ascii.eqb c "/" then s' else s
  end.

(** What precedes the last slash, that slash included. *)
Fixpoint dir_prefix (s : string) : string :=
  match s with
  | EmptyString => EmptyString
  | String c s' =>
      if has_slash s' then String c (dir_prefix s')
      else if Ascii.eqb c "/" then String c EmptyString else EmptyString
  end.

Fixpoint ends_with_slash (s : string) : bool :=
  match s with
  | EmptyString => false
  | String c EmptyString => Ascii.eqb c "/"
  | String _ s' => ends_with_slash s'
  end.

(** [os.path.join(a, b)] *)
Definition path_join (a b : string) : string :=
  if String.prefix "/" b then b
  else if String.eqb a "" || ends_with_slash a then a +:+ b
  else a +:+ "/" +:+ b.

(** [glob.has_magic]: the path holds a wildcard character. *)
Fixpoint has_magic (s : string) : bool :=
  match s with
  | EmptyString => false
  | String c s' =>
      Ascii.eqb c "*" || Ascii.eqb c "?" || Ascii.eqb c "[" || has_magic s'
  end.

(** [os.makedirs(os.path.dirname(p), exist_ok=True)]: directories are not
    tracked, except that the empty name cannot be created. *)
Definition makedirs_parent (p : string) : io unit :=
  if has_slash p then mret tt else raise (FileNotFoundError "").

(** * eda/compute_city_metrics.py *)

Module Metrics.

Section WithNumpy.
Variable np : numpy.

(** ** Dropping duplicate courses (lines 33-34) *)

Definition dedup_courses (df : DataFrame) : res DataFrame :=
  if has_col "course_id" df then
    sorted ← sort_values np "_fetched_at" true df;
    drop_duplicates "course_id" sorted
  else Ok df.

(** ** Grouping by region (lines 37-54) *)

Definition group_cols (df : DataFrame) : list string :=
  List.filter (fun c => has_col c df) ["city"; "state"].

Inductive reducer := Nunique | Mean | Sum | Median.

Definition agg_dict (df : DataFrame) : list (string * (string * reducer)) :=
  [("num_golf_courses",
    (if has_col "course_id" df then "course_id" else "name", Nunique))]
  ++ (if has_col "rating" df then [("avg_rating", ("rating", Mean))] else [])
  ++ (if has_col "ratings_count" df
      then [("sum_ratings_count", ("ratings_count", Sum))] else [])
  ++ (if has_col "tee_fee" df
      then [("median_tee_fee", ("tee_fee", Median))] else [])
  ++ (if has_col "length_yards" df
      then [("avg_length_yards", ("length_yards", Mean))] else []).

(** The non-null cells of a numeric column. *)
Fixpoint numbers (vs : list value) : res (list Q) :=
  match vs with
  | [] => Ok []
  | VNull :: vs' => numbers vs'
  | VNum q :: vs' => qs ← numbers vs'; Ok (q :: qs)
  | _ :: _ => Err TypeError
  end.

Fixpoint distinct {A} (eqb : A -> A -> bool) (l : list A) : list A :=
  match l with
  | [] => []
  | x :: l' => x :: List.filter (fun y => negb (eqb y x)) (distinct eqb l')
  end.

Definition reduce (f : reducer) (vs : list value) : res value :=
  match f with
  | Nunique =>
      let seen := distinct value_eqb
                    (List.filter (fun v => negb (is_null v)) vs) in
      Ok (VNum (inject_Z (Z.of_nat (length seen))))
  | Mean => qs ← numbers vs; Ok (of_float (mean qs))
  | Sum => qs ← numbers vs; Ok (VNum (Qsum qs))
  | Median => qs ← numbers vs; Ok (of_float (median qs))
  end.

Definition key_eqb (k1 k2 : list value) : bool :=
  forallb (fun p => value_eqb (fst p) (snd p)) (combine k1 k2).

Definition kind_rank (v : value) : nat :=
  match v with VNum _ => 0 | VStr _ => 1 | VTime _ => 2 | VNull => 3 end.

(** Group labels are ordered numbers first, then strings. *)
Definition label_leb (a b : value) : bool :=
  if same_kind a b then is_null a || value_leb a b
  else Nat.ltb (kind_rank a) (kind_rank b).

Fixpoint key_leb (k1 k2 : list value) : bool :=
  match k1, k2 with
  | a :: k1', b :: k2' =>
      if value_eqb a b then key_leb k1' k2' else label_leb a b
  | _, _ => true
  end.

(** [df.groupby(cols).agg(aggs).reset_index()]: rows with a null label
    belong to no group; groups come out in label order. *)
Definition groupby_agg (cols : list string)
    (aggs : list (string * (string * reducer))) (df : DataFrame)
  : res DataFrame :=
  _ ← mapM (fun a => if has_col (fst (snd a)) df then Ok tt
                     else Err (KeyError (fst (snd a)))) aggs;
  let live := List.filter
                (fun r => forallb (fun c => negb (is_null (cell r c))) cols)
                (rows df) in
  let key r := map (cell r) cols in
  let keys := stable_sort key_leb (distinct key_eqb (map key live)) in
  rs ← mapM (fun k =>
         let members := List.filter (fun r => key_eqb (key r) k) live in
         cells ← mapM (fun a =>
                    v ← reduce (snd (snd a))
                          (map (fun r => cell r (fst (snd a))) members);
                    Ok (fst a, v)) aggs;
         Ok (list_to_map (combine cols k ++ cells) : row)) keys;
  Ok (mkDF (cols ++ map fst aggs) rs).

(** ** Golfability enrichment (lines 56-79) *)

Definition lower_ascii (c : ascii) : ascii :=
  let n := nat_of_ascii c in
  if (Nat.leb 65 n && Nat.leb n 90)%bool then ascii_of_nat (n + 32) else c.

Fixpoint lower (s : string) : string :=
  match s with
  | EmptyString => EmptyString
  | String c s' => String (lower_ascii c) (lower s')
  end.

(** [cols_lower = {c.lower(): c for c in states.columns}]: a later column
    replaces an earlier one with the same lower-case name. *)
Definition cols_lower (cols : list string) : gmap string string :=
  fold_left (fun m c => <[lower c := c]> m) cols ∅.

Definition rename_map (cols : list string) : gmap string string :=
  let cl := cols_lower cols in
  let m1 := match cl !! "state" with
            | Some c => <[c := "state"]> ∅ | None => ∅ end in
  let m2 := match cl !! "state_name" with
            | Some c => <[c := "state_name"]> m1 | None => m1 end in
  match cl !! "golfable_year_round" with
  | Some c => <[c := "golfable_year_round"]> m2
  | None =>
      match cl !! "golfable" with
      | Some c => <[c := "golfable_year_round"]> m2
      | None => m2
      end
  end.

Fixpoint has_dups (l : list string) : bool :=
  match l with
  | [] => false
  | c :: l' => existsb (String.eqb c) l' || has_dups l'
  end.

(** [df.rename(columns=m)].  A row holds one cell per label, so a renaming
    that puts two columns under one label is refused here. *)
Definition rename_columns (m : gmap string string) (df : DataFrame)
  : res DataFrame :=
  let ren c := default c (m !! c) in
  let cols := map ren (columns df) in
  if has_dups cols then Err (ValueError "duplicate column labels")
  else Ok (mkDF cols
             (map (fun r : row =>
                     list_to_map (map (fun kv => (ren (fst kv), snd kv))
                                    (map_to_list r)) : row)
                (rows df))).

(** [astype(int)] on one cell. *)
Definition to_int (v : value) : res value :=
  match v with
  | VNum q => Ok (VNum (inject_Z (Qtrunc q)))
  | VNull => Err (ValueError "cannot convert NaN to integer")
  | VStr _ => Err (ValueError "invalid literal for int")
  | VTime _ => Err TypeError
  end.

Definition astype_int (c : string) (df : DataFrame) : res DataFrame :=
  rs ← mapM (fun r : row => v ← to_int (cell r c); Ok (<[c := v]> r))
         (rows df);
  Ok (mkDF (columns df) rs).

(** [left.merge(right[[rk] + extra], left_on=lk, right_on=rk, how="left")]:
    every left row is paired with each right row whose key equals its own,
    in the order of the right table; a left row without a partner is kept
    once, its new cells null. *)
Definition merge_left (left right : DataFrame) (lk rk : string)
    (extra : list string) : DataFrame :=
  let added := (if String.eqb lk rk then [] else [rk]) ++ extra in
  mkDF (columns left ++ added)
       (flat_map (fun l : row =>
          match List.filter (fun r => value_eqb (cell l lk) (cell r rk))
                  (rows right) with
          | [] => [l]
          | partners =>
              map (fun r : row =>
                     fold_right (fun c acc => <[c := cell r c]> acc) l added)
                partners
          end) (rows left)).

Definition read_csv (files : filesystem) (path : string) : res DataFrame :=
  match files !! path with
  | Some (FTable Csv df) => Ok df
  | Some _ => Err (ValueError "cannot parse file")
  | None => Err (FileNotFoundError path)
  end.

Definition fill0_int (v : value) : value :=
  match v with
  | VNum q => VNum (inject_Z (Qtrunc q))
  | _ => VNum 0
  end.

(** Lines 58-73: the reference table under its canonical labels, the flag
    as an integer. *)
Definition read_states (files : filesystem) (path : string) : res DataFrame :=
  states ← read_csv files path;
  let m := rename_map (columns states) in
  states ← (if bool_decide (m = ∅) then Ok states
            else rename_columns m states);
  if has_col "golfable_year_round" states
  then astype_int "golfable_year_round" states
  else Ok states.

(** Lines 72 and 74-79. *)
Definition join_states (agg states : DataFrame) : res DataFrame :=
  if has_col "golfable_year_round" states then
    let agg :=
      if has_col "state" agg && has_col "state" states
      then merge_left agg states "state" "state" ["golfable_year_round"]
      else if has_col "state" agg && has_col "state_name" states
      then merge_left agg states "state" "state_name" ["golfable_year_round"]
      else agg in
    if has_col "golfable_year_round" agg then
      let agg := set_column "state_golfable"
                   (map (fun r => fill0_int (cell r "golfable_year_round"))
                      (rows agg)) agg in
      Ok (drop_columns
            (List.filter (fun c => has_col c agg)
               ["golfable_year_round"; "state_name"]) agg)
    else Err (KeyError "golfable_year_round")
  else Ok agg.

Definition enrich (files : filesystem) (state_golfable_csv : option string)
    (agg : DataFrame) : res DataFrame :=
  match state_golfable_csv with
  | None => Ok agg
  | Some path =>
      if negb (String.eqb path "") && bool_decide (is_Some (files !! path))
      then states ← read_states files path; join_states agg states
      else Ok agg
  end.

(** ** Composite score (lines 81-126) *)

Definition metric_names : list string :=
  ["avg_rating"; "median_tee_fee"; "num_golf_courses"; "sum_ratings_count";
   "avg_length_yards"; "state_golfable"].

Definition score_cols (agg : DataFrame) : list string :=
  List.filter (fun c => has_col c agg) metric_names.

Definition invert_cols (agg : DataFrame) : list string :=
  List.filter (fun c => has_col c agg) ["median_tee_fee"].

Definition default_weights : gmap string Q :=
  list_to_map
    [("avg_rating", 35 # 100); ("num_golf_courses", 25 # 100);
     ("median_tee_fee", 2 # 10); ("sum_ratings_count", 1 # 10);
     ("avg_length_yards", 0); ("state_golfable", 1 # 10)]%Q.

(** [{k: v for k, v in weights.items() if k in score_cols}] *)
Definition keep_available (cols : list string) (w : gmap string Q)
  : gmap string Q :=
  filter (fun kv => kv.1 ∈ cols) w.

Definition weight_sum (w : gmap string Q) : Q :=
  map_fold (fun _ v acc => (acc + v)%Q) 0%Q w.

(** [sum(weights.values()) or 1.0] *)
Definition total_weight (w : gmap string Q) : Q :=
  let s := weight_sum w in
  if Qeq_bool s 0 then 1%Q else s.

(** [MinMaxScaler] on one column: the range of a constant column is replaced
    by 1 before dividing; a range that is NaN stays NaN.  (On floats sklearn
    takes a range below ten machine epsilons for constant as well.) *)
Definition handle_zeros (r : option Q) : option Q :=
  match r with
  | Some q => if Qeq_bool q 0 then Some 1%Q else Some q
  | None => None
  end.

Definition min_max_column (xs : list (option Q)) : list (option Q) :=
  let data_min := nanmin xs in
  let data_range := fsub (nanmax xs) data_min in
  let scale_ := fdiv (Some 1%Q) (handle_zeros data_range) in
  let min_ := fsub (Some 0%Q) (fmul data_min scale_) in
  map (fun x => fadd (fmul x scale_) min_) xs.

Abbreviation matrix := (list (string * list (option Q))).

(** [scaler.fit_transform(matrix)]: refuses a matrix without rows. *)
Definition fit_transform (n_samples : nat) (m : matrix) : res matrix :=
  match n_samples with
  | O => Err (ValueError "Found array with 0 sample(s)")
  | _ => Ok (map (fun cx => (fst cx, min_max_column (snd cx))) m)
  end.

(** The weight the loop gives to column [c]. *)
Definition applied_weight (w : gmap string Q) (total : Q) (c : string) : Q :=
  (default 0 (w !! c) / total)%Q.

Definition weighted_sum (w : gmap string Q) (total : Q) (n : nat)
    (scaled : matrix) : list (option Q) :=
  fold_left
    (fun score cx =>
       zip_with fadd score
         (map (fun x => fmul x (Some (applied_weight w total (fst cx))))
            (snd cx)))
    scaled (repeat (Some 0%Q) n).

Definition to_matrix (cols : list string) (agg : DataFrame) : res matrix :=
  mapM (fun c => xs ← mapM (fun r => to_float (cell r c)) (rows agg);
                 Ok (c, xs)) cols.

Definition invert (inv : list string) (m : matrix) : matrix :=
  map (fun cx => if existsb (String.eqb (fst cx)) inv
                 then (fst cx, map (fsub (nanmax (snd cx))) (snd cx))
                 else cx) m.

Definition fill_mean (m : matrix) : matrix :=
  map (fun cx => (fst cx, fillna (nanmean (snd cx)) (snd cx))) m.

Definition scaled_matrix (agg : DataFrame) : res matrix :=
  m ← to_matrix (score_cols agg) agg;
  fit_transform (length (rows agg)) (fill_mean (invert (invert_cols agg) m)).

Definition add_score (weights : option (gmap string Q)) (agg : DataFrame)
  : res DataFrame :=
  let w := keep_available (score_cols agg) (default default_weights weights) in
  let total := total_weight w in
  match score_cols agg with
  | [] => Ok (set_column "score" (map (fun _ => VNum 0) (rows agg)) agg)
  | _ =>
      scaled ← scaled_matrix agg;
      Ok (set_column "score"
            (map of_float (weighted_sum w total (length (rows agg)) scaled))
            agg)
  end.

(** ** Ranking (lines 128-129) *)

Definition rank_regions (agg : DataFrame) : res DataFrame :=
  sorted ← sort_values np "score" false agg;
  Ok (set_column "rank"
        (map (fun i => VNum (inject_Z (Z.of_nat i + 1)))
           (seq 0 (length (rows sorted))))
        sorted).

(** ** Rounding for display (lines 132-137) *)

Definition round_cell (n : Z) (v : value) : value :=
  match v with VNum q => VNum (round_to n q) | _ => v end.

Definition round_if_present (c : string) (n : Z) (agg : DataFrame)
  : DataFrame :=
  if has_col c agg then map_column c (round_cell n) agg else agg.

Definition round_metrics (agg : DataFrame) : DataFrame :=
  round_if_present "avg_length_yards" 10
    (round_if_present "median_tee_fee" 100
       (round_if_present "avg_rating" 100 agg)).

(** ** compute_metrics *)

Definition no_region_columns : error :=
  ValueError
    "No city/state columns found to group by; ensure courses include 'city' or 'state'".

Definition aggregate (df : DataFrame) : res DataFrame :=
  match group_cols df with
  | [] => Err no_region_columns
  | cols => groupby_agg cols (agg_dict df) df
  end.

(** Lines 33-79: the aggregate, enriched, before any scoring. *)
Definition region_table (files : filesystem) (courses_df : DataFrame)
    (state_golfable_csv : option string) : res DataFrame :=
  courses_df ← dedup_courses courses_df;
  agg ← aggregate courses_df;
  enrich files state_golfable_csv agg.

Definition compute_metrics (files : filesystem) (courses_df : DataFrame)
    (weights : option (gmap string Q)) (state_golfable_csv : option string)
  : res DataFrame :=
  agg ← region_table files courses_df state_golfable_csv;
  agg ← add_score weights agg;
  agg ← rank_regions agg;
  Ok (round_metrics agg).

(** ** main *)

Record args := mkArgs {
  arg_courses : string;
  arg_output : string;
  arg_csv_out : string;
  arg_state_golfable_csv : option string }.

Definition read_parquet (files : filesystem) (path : string)
  : res DataFrame :=
  match files !! path with
  | Some (FTable Parquet df) => Ok df
  | Some _ => Err (ValueError "cannot parse file")
  | None => Err (FileNotFoundError path)
  end.

Definition main (o : os) (a : args) : io unit :=
  files ← get_fs;
  df ← lift (read_parquet files (arg_courses a));
  metrics ← lift (compute_metrics files df None (arg_state_golfable_csv a));
  write_file o (arg_output a) (FTable Parquet metrics);;
  write_file o (arg_csv_out a) (FTable Csv metrics);;
  print (SavedMetrics (arg_output a) (arg_csv_out a)).

End WithNumpy.

End Metrics.

(** * scripts/consolidate_data.py *)

Module Consolidate.

Section WithParsers.
(** How pandas reads a number and a timestamp out of a string. *)
Variable parse_number : string -> option Q.
Variable parse_datetime : string -> option Z.
Variable np : numpy.

(** ** read_raw_courses (lines 20-39) *)

Definition ends_with (suffix s : string) : bool :=
  let n := String.length s in
  let m := String.length suffix in
  Nat.leb m n && String.eqb (String.substring (n - m) m s) suffix.

(** [fnmatch(name, "teeradar_page_*.json")] *)
Definition fnmatch_capture (name : string) : bool :=
  String.prefix "teeradar_page_" name && ends_with ".json" name
  && Nat.leb 19 (String.length name).

(** [glob.glob(os.path.join(raw_dir, "teeradar_page_*.json"))], in the
    order the directory is enumerated.  The name of the directory is taken
    as it is written, which is what [glob] does with a name that holds no
    wildcard ([has_magic]). *)
Definition glob (o : os) (raw_dir : string) : list string :=
  map (path_join raw_dir) (List.filter fnmatch_capture (scandir o)).

Definition json_load (files : filesystem) (fname : string) : res envelope :=
  match files !! fname with
  | Some (FCapture e) => Ok e
  | Some _ => Err (JSONDecodeError fname)
  | None => Err (FileNotFoundError fname)
  end.

(** [payload.get("courses", [])] with [payload = wrapped.get("payload", {}) or {}] *)
Definition courses_of (e : envelope) : list row :=
  match payload_of e with
  | Some p => default [] (courses p)
  | None => []
  end.

Definition stamp (e : envelope) (fname : string) (c : row) : row :=
  <["_raw_file" := VStr (basename fname)]>
    (<["_offset" := default VNull (offset e)]>
       (<["_fetched_at" := default VNull (fetched_at e)]> c)).

Fixpoint read_files (files : filesystem) (fnames : list string)
    (acc : list row) : res (list row) :=
  match fnames with
  | [] => Ok acc
  | fname :: rest =>
      wrapped ← json_load files fname;
      read_files files rest (acc ++ map (stamp wrapped fname) (courses_of wrapped))
  end.

Definition read_raw_courses (o : os) (raw_dir : string) : io (list row) :=
  match stable_sort String.leb (glob o raw_dir) with
  | [] => print (NoRawFiles raw_dir);; mret []
  | files => disk ← get_fs; lift (read_files disk files [])
  end.

(** ** Atomic writers (lines 42-58) *)

Definition to_parquet_atomic (o : os) (df : DataFrame) (out_path : string)
  : io unit :=
  makedirs_parent out_path;;
  let tmp_name := dir_prefix out_path +:+ tmp_stem o +:+ ".parquet" in
  put_file tmp_name FBroken;;
  write_file o tmp_name (FTable Parquet df);;
  replace tmp_name out_path;;
  print (WroteParquet out_path).

Definition to_ndjson_atomic (o : os) (records : list row) (out_path : string)
  : io unit :=
  makedirs_parent out_path;;
  let tmp := out_path +:+ ".tmp" in
  write_file o tmp (FRecords records);;
  replace tmp out_path;;
  print (WroteNdjson out_path).

(** ** to_sqlite_replace (lines 61-72) *)

(** [sqlite3.connect(db_path)]: the tables of the database at the path, none
    when there is no file yet; what is there and is no database cannot be
    used. *)
Definition connect (db_path : string) : io (gmap string DataFrame) :=
  disk ← get_fs;
  match disk !! db_path with
  | None => mret ∅
  | Some (FDatabase tables) => mret tables
  | Some _ => raise (DatabaseError db_path)
  end.

(** Lines 61-72.  [to_sql(..., if_exists="replace")] drops the table of that
    name and creates it from [df]; the other tables of the database stay.
    The index on [course_id] does not change what a table holds and is not
    tracked; writes to an open database are taken to succeed. *)
Definition to_sqlite_replace (df : DataFrame) (db_path : string)
    (table_name : string) : io unit :=
  makedirs_parent db_path;;
  tables ← connect db_path;
  put_file db_path (FDatabase (<[table_name := df]> tables));;
  print (WroteSqlite db_path).

(** ** main (lines 75-116) *)

Record args := mkArgs {
  raw_dir : string;
  out_parquet : option string;
  out_ndjson : option string;
  sqlite_db : option string;
  dedupe_key : string }.

(** [pd.DataFrame(rows)]: one column per key that occurs in some record. *)
Definition from_records (rs : list row) : DataFrame :=
  mkDF (remove_dups (concat (map (fun r : row => map fst (map_to_list r)) rs)))
       rs.

(** [pd.to_numeric(x, errors="coerce")] *)
Definition to_numeric (v : value) : value :=
  match v with
  | VNum q => VNum q
  | VStr s => of_float (parse_number s)
  | VTime t => VNum (inject_Z t)
  | VNull => VNull
  end.

(** [pd.to_datetime(x, errors="coerce")] *)
Definition to_datetime (v : value) : value :=
  match v with
  | VTime t => VTime t
  | VStr s => match parse_datetime s with Some t => VTime t | None => VNull end
  | VNum q => VTime (Qtrunc q)
  | VNull => VNull
  end.

Definition normalize (df : DataFrame) : DataFrame :=
  let df := if has_col "rating" df
            then map_column "rating" to_numeric df else df in
  if has_col "ratings_count" df
  then map_column "ratings_count"
         (fun v => Metrics.fill0_int (to_numeric v)) df
  else df.

(** Lines 97-104. *)
Definition dedup (key : string) (df : DataFrame) : io DataFrame :=
  if has_col key df then
    df ← lift
           (if has_col "_fetched_at" df then
              sorted ← sort_values np key true
                         (map_column "_fetched_at" to_datetime df);
              drop_duplicates key sorted
            else drop_duplicates key df);
    print (Deduplicated key (length (rows df)));;
    mret df
  else mret df.

(** [json.loads(df.to_json(orient="records"))]: every column in every
    record, timestamps as epoch milliseconds. *)
Definition to_json_cell (v : value) : value :=
  match v with VTime t => VNum (inject_Z (t / 1000000)) | _ => v end.

Definition to_records (df : DataFrame) : list row :=
  map (fun r : row =>
         list_to_map (map (fun c => (c, to_json_cell (cell r c)))
                        (columns df)) : row)
      (rows df).

Definition when_set (p : option string) (k : string -> io unit) : io unit :=
  match p with
  | Some path => if String.eqb path "" then mret tt else k path
  | None => mret tt
  end.

(** Lines 106-116. *)
Definition write_outputs (o : os) (a : args) (df : DataFrame) : io unit :=
  when_set (out_parquet a) (to_parquet_atomic o df);;
  when_set (out_ndjson a) (to_ndjson_atomic o (to_records df));;
  when_set (sqlite_db a)
    (fun db_path => to_sqlite_replace df db_path "teeradar_courses");;
  print (AllDone (length (rows df))).

Definition main (o : os) (a : args) : io unit :=
  raw ← read_raw_courses o (raw_dir a);
  match raw with
  | [] => print NoData
  | _ =>
      df ← dedup (dedupe_key a) (normalize (from_records raw));
      write_outputs o a df
  end.

End WithParsers.

End Consolidate.

(** * scripts/fetch_teeradar.py *)

Module Fetch.

(** ** load_api_key (lines 15-23)

    [environ] is the value of [TEERADAR_API_KEY], [key_file] the text of
    the key file when it exists; [strip] is [str.strip]. *)

Section WithStrip.
Variable strip : string -> string.

Definition load_api_key (environ key_file : option string) : option string :=
  match environ with
  | Some (String c key) => Some (strip (String c key))
  | _ =>
      match key_file with
      | Some text =>
          match strip text with
          | EmptyString => None
          | k => Some k
          end
      | None => None
      end
  end.

End WithStrip.

(** ** What the server sends and what the run leaves behind *)

(** The fields of a response body that the script looks at. *)
Record body := mkBody {
  body_courses : option (list row);
  body_count : option value }.

Inductive response :=
  | NoResponse
  | Status (code : Z) (json : option body).

Inductive event :=
  | Fetching (offset page : Z)
  | Get (api_key : string) (min_rating : option Q) (limit offset : Z)
  | RequestFailed
  | RateLimited
  | ServerError (code : Z)
  | Saved (filename : string)
  | LastPage
  | MaxPages
  | NoApiKey
  | Sleep (seconds : Q).

Inductive failure :=
  | HTTPError (code : Z)
  | BadBody
  | BadCount
  | Io (e : error).

(** How a run ends; [Waiting] when it has used up the responses it was given
    and is about to send the next request. *)
Inductive outcome :=
  | Stopped
  | Raised (f : failure)
  | Waiting.

Record state := mkState { files : filesystem; log : list event }.

Definition say (e : event) (st : state) : state :=
  mkState (files st) (log st ++ [e]).

(** ** save_raw_response (lines 26-36) *)

Definition page_name (offset : Z) : string :=
  "teeradar_page_" +:+ NilZero.string_of_int (Z.to_int offset) +:+ ".json".

Definition wrap (now : string) (offset : Z) (courses : list row) : envelope :=
  mkEnvelope (Some (VStr (now +:+ "Z"))) (Some (VNum (inject_Z offset)))
    (Some (mkPayload (Some courses))).

Definition save_raw_response (o : os) (now : string) (courses : list row)
    (out_dir : string) (offset : Z) (st : state) : state * res unit :=
  if String.eqb out_dir "" then (st, Err (FileNotFoundError ""))
  else
    let filename := path_join out_dir (page_name offset) in
    if breaks o filename
    then (mkState (<[filename := FBroken]> (files st)) (log st),
          Err (OSError filename))
    else (say (Saved filename)
            (mkState (<[filename := FCapture (wrap now offset courses)]>
                        (files st)) (log st)),
          Ok tt).

(** ** fetch_pages (lines 39-78) *)

(** The client-side country filter (line 65). *)
Definition is_us (c : row) : bool :=
  match c !! "country" with
  | Some (VStr s) =>
      existsb (String.eqb (Metrics.lower s)) ["united states"; "us"; "usa"]
  | _ => false
  end.

(** [payload.get("count", len(courses))], when it can be compared with
    [limit]. *)
Definition count_of (b : body) (courses : list row) : option Q :=
  match body_count b with
  | None => Some (inject_Z (Z.of_nat (length courses)))
  | Some (VNum q) => Some q
  | Some _ => None
  end.

(** [max_pages and page >= max_pages] *)
Definition reached (max_pages : option Z) (page : Z) : bool :=
  match max_pages with
  | Some m => negb (m =? 0) && (m <=? page)
  | None => false
  end.

Section Run.
Variable o : os.
(** [clock n] is what [datetime.now().isoformat()] gives after [n] requests. *)
Variable clock : nat -> string.
Variable api_key : string.
Variable min_rating : option Q.
Variable limit : Z.
Variable max_pages : option Z.
Variable out_dir : string.

(** One pass of the loop for each response of the server, [n] requests
    having been made before. *)
Fixpoint fetch_pages (replies : list response) (n : nat) (offset page : Z)
    (st : state) : state * outcome :=
  match replies with
  | [] => (st, Waiting)
  | resp :: replies' =>
      let st := say (Get api_key min_rating limit offset)
                  (say (Fetching offset (page + 1)) st) in
      match resp with
      | NoResponse =>
          fetch_pages replies' (S n) offset page
            (say (Sleep 5) (say RequestFailed st))
      | Status code json =>
          if code =? 429 then
            fetch_pages replies' (S n) offset page
              (say (Sleep 60) (say RateLimited st))
          else if 500 <=? code then
            fetch_pages replies' (S n) offset page
              (say (Sleep 10) (say (ServerError code) st))
          else if 400 <=? code then (st, Raised (HTTPError code))
          else
            match json with
            | None => (st, Raised BadBody)
            | Some b =>
                let courses :=
                  List.filter is_us (default [] (body_courses b)) in
                match save_raw_response o (clock n) courses out_dir offset st
                with
                | (st, Err e) => (st, Raised (Io e))
                | (st, Ok _) =>
                    match count_of b courses with
                    | None => (st, Raised BadCount)
                    | Some count =>
                        if Qle_bool (inject_Z limit) count then
                          if reached max_pages (page + 1)
                          then (say MaxPages st, Stopped)
                          else fetch_pages replies' (S n) (offset + limit)
                                 (page + 1) (say (Sleep (2 # 10)) st)
                        else (say LastPage st, Stopped)
                    end
                end
            end
      end
  end.

End Run.

(** ** main (lines 81-95) *)

Record args := mkArgs {
  arg_min_rating : option Q;
  arg_limit : Z;
  arg_offset : Z;
  arg_max_pages : option Z;
  arg_out_dir : string }.

Definition main (strip : string -> string) (o : os) (clock : nat -> string)
    (environ key_file : option string) (a : args) (replies : list response)
    (st : state) : state * outcome :=
  match load_api_key strip environ key_file with
  | Some (String c k) =>
      fetch_pages o clock (String c k) (arg_min_rating a) (arg_limit a)
        (arg_max_pages a) (arg_out_dir a) replies 0 (arg_offset a) 0 st
  | _ => (say NoApiKey st, Stopped)
  end.

End Fetch.

(** * Vocabulary of the properties *)

(** The cell of [r] in column [c] is a number or null. *)
Definition numeric_or_null (c : string) (r : row) : Prop :=
  cell r c = VNull \/ exists q, cell r c = VNum q.

(** The metrics that take part in the score: a column of the aggregate whose
    weight is there and is not zero. *)
Definition active_metrics (weights : option (gmap string Q)) (agg : DataFrame)
  : list string :=
  List.filter
    (fun c => negb (Qeq_bool (default 0%Q (default Metrics.default_weights weights !! c)) 0))
    (Metrics.score_cols agg).

(** The weight of metric [c] that counts: the one given, when [c] is a
    column of the aggregate. *)
Definition present_weight (w0 : gmap string Q) (agg : DataFrame) (c : string)
  : Q :=
  if has_col c agg then default 0%Q (w0 !! c) else 0%Q.

(** The share of metric [c] in a score: its weight over the sum of the
    weights of the metrics that are columns of the aggregate. *)
Definition share (w0 : gmap string Q) (agg : DataFrame) (c : string) : Q :=
  if existsb (String.eqb c) Metrics.metric_names
  then (present_weight w0 agg c
        / Qsum (map (present_weight w0 agg) Metrics.metric_names))%Q
  else 0%Q.

(** The numbers of a row of floats, when none of them is NaN. *)
Fixpoint all_numbers (xs : list (option Q)) : option (list Q) :=
  match xs with
  | [] => Some []
  | Some q :: xs' =>
      match all_numbers xs' with
      | Some qs => Some (q :: qs)
      | None => None
      end
  | None :: _ => None
  end.

(** The sum of the values [xs] weighted by [ws]; NaN when a value is NaN. *)
Definition weighted (xs : list (option Q)) (ws : list Q) : option Q :=
  match all_numbers xs with
  | Some qs => Some (Qsum (zip_with Qmult qs ws))
  | None => None
  end.

(** Cell [v] holds the float [y]. *)
Definition is_float (v : value) (y : option Q) : Prop :=
  match y with
  | Some q => exists s, v = VNum s /\ (s == q)%Q
  | None => v = VNull
  end.

(** What [MinMaxScaler] returns for one value [x] of a column with minimum
    [lo] and maximum [hi]. *)
Definition min_max_value (lo hi x : Q) : Q :=
  let scale_ := (1 / (if Qeq_bool (hi - lo) 0 then 1 else hi - lo))%Q in
  (x * scale_ + (0 - lo * scale_))%Q.

(** The reference rows whose state is that of the aggregate row [a]. *)
Definition partners (states : DataFrame) (key : string) (a : row)
  : list row :=
  List.filter (fun r => value_eqb (cell a "state") (cell r key)) (rows states).

(** No two rows of the reference carry the same state. *)
Definition unique_keys (key : string) (states : DataFrame) : Prop :=
  forall i j ri rj,
    rows states !! i = Some ri -> rows states !! j = Some rj ->
    value_eqb (cell ri key) (cell rj key) = true -> i = j.

(** What the join makes of one aggregate row [a]: the row [o] has the cells
    of [a] and a [state_golfable] cell, 0 when no reference row matches. *)
Definition enriched (key : string) (states : DataFrame) (a o : row) : Prop :=
  (forall c, c <> "state_golfable" -> o !! c = a !! c) /\
  (partners states key a = [] -> cell o "state_golfable" = VNum 0) /\
  (forall s, In s (partners states key a) ->
             cell o "state_golfable"
             = Metrics.fill0_int (cell s "golfable_year_round")).

(** What the join makes of one aggregate row [a] under any reference: the
    rows [os], each with the cells of [a] plus a [state_golfable] cell.  When
    no reference row matches there is one row, with 0; otherwise there is one
    row for each matching reference row, in their order, with that row's
    flag. *)
Definition joined (key : string) (states : DataFrame) (a : row)
    (os : list row) : Prop :=
  (forall o, In o os ->
     forall c, c <> "state_golfable" -> o !! c = a !! c) /\
  match partners states key a with
  | [] => exists o, os = [o] /\ cell o "state_golfable" = VNum 0
  | ps => map (fun o => cell o "state_golfable") os
          = map (fun s => Metrics.fill0_int (cell s "golfable_year_round")) ps
  end.

(** [p] holds of the element of [l] at position [i]. *)
Definition holds_at {A} (p : A -> bool) (l : list A) (i : nat) : bool :=
  match l !! i with Some x => p x | None => false end.

(** What numpy promises of a sort: [argsort ks] names every position of
    [ks] once, and the keys read at these positions ascend.  The keys must
    be comparable: none is null and all are of one kind. *)
Definition sorts (np : numpy) : Prop :=
  forall ks,
    Permutation (argsort np ks) (seq 0 (length ks)) /\
    (forallb (fun k => negb (is_null k)) ks = true -> comparable ks = true ->
     StronglySorted (fun a b => value_leb a b = true)
       (take ks (argsort np ks))).

(** A stable sort, which numpy's default is not said to be, also leaves the
    positions of equal keys in ascending order. *)
Definition stable (np : numpy) : Prop :=
  forall ks v,
    forallb (fun k => negb (is_null k)) ks = true ->
    List.filter (holds_at (fun k => value_eqb k v) ks) (argsort np ks)
    = List.filter (holds_at (fun k => value_eqb k v) ks) (seq 0 (length ks)).






(** ** Regions *)

(** Row [r] carries a label in each of the columns [cols]. *)
Definition located (cols : list string) (r : row) : Prop :=
  forall c, In c cols -> is_null (cell r c) = false.

(** Rows [r] and [a] carry equal labels in the columns [cols]. *)
Definition same_region (cols : list string) (r a : row) : Prop :=
  forall c, In c cols -> value_eqb (cell r c) (cell a c) = true.

(** ** What a fetch run did *)

(** The files a run reported as saved, in order. *)
Definition saved (l : list Fetch.event) : list string :=
  omap (fun e => match e with Fetch.Saved f => Some f | _ => None end) l.

(** A response after which the script waits and asks again. *)
Definition transient (r : Fetch.response) : bool :=
  match r with
  | Fetch.NoResponse => true
  | Fetch.Status code _ => (code =? 429) || (500 <=? code)
  end.

(** * Sample data *)

Module Sample.

Definition record (cells : list (string * value)) : row := list_to_map cells.

(** Five observations of four courses in two cities; course [a] was
    captured twice. *)
Definition courses : DataFrame :=
  mkDF ["course_id"; "name"; "city"; "state"; "rating"; "tee_fee";
        "_fetched_at"]
    [record [("course_id", VStr "a"); ("name", VStr "Lions"); ("city", VStr "Austin");
             ("state", VStr "TX"); ("rating", VNum 4); ("tee_fee", VNum 40);
             ("_fetched_at", VTime 1)];
     record [("course_id", VStr "b"); ("name", VStr "Jimmy Clay"); ("city", VStr "Austin");
             ("state", VStr "TX"); ("rating", VNum (45 # 10));
             ("_fetched_at", VTime 1)];
     record [("course_id", VStr "c"); ("name", VStr "Morris Williams"); ("city", VStr "Austin");
             ("state", VStr "TX"); ("rating", VNum 5);
             ("_fetched_at", VTime 1)];
     record [("course_id", VStr "d"); ("name", VStr "Warm Springs"); ("city", VStr "Boise");
             ("state", VStr "ID"); ("rating", VNum 3); ("tee_fee", VNum 20);
             ("_fetched_at", VTime 1)];
     record [("course_id", VStr "a"); ("name", VStr "Lions"); ("city", VStr "Austin");
             ("state", VStr "TX"); ("rating", VNum 4); ("tee_fee", VNum 35);
             ("_fetched_at", VTime 2)]].

(** Three cities with one course each; the courses of Austin and Boise
    are rated alike. *)
Definition courses_tied : DataFrame :=
  mkDF ["course_id"; "city"; "state"; "rating"; "_fetched_at"]
    [record [("course_id", VStr "a"); ("city", VStr "Austin");
             ("state", VStr "TX"); ("rating", VNum 4);
             ("_fetched_at", VTime 1)];
     record [("course_id", VStr "d"); ("city", VStr "Boise");
             ("state", VStr "ID"); ("rating", VNum 4);
             ("_fetched_at", VTime 2)];
     record [("course_id", VStr "r"); ("city", VStr "Reno");
             ("state", VStr "NV"); ("rating", VNum 3);
             ("_fetched_at", VTime 3)]].

(** A reference file that lists Texas twice. *)
Definition states_twice : DataFrame :=
  mkDF ["State"; "Golfable"]
    [record [("State", VStr "TX"); ("Golfable", VNum 1)];
     record [("State", VStr "TX"); ("Golfable", VNum 0)]].

Definition disk_states_twice : filesystem :=
  {["data/states.csv" := FTable Csv states_twice]}.

(** Two captures that hold course [C1]: page 0 was fetched again in June,
    page 100 dates from January.  The directory lists them in no
    particular order. *)
Definition capture_june : envelope :=
  mkEnvelope (Some (VStr "2024-06-01T08:00:00Z")) (Some (VNum 0))
    (Some (mkPayload
       (Some [record [("course_id", VStr "C1"); ("city", VStr "Austin");
                      ("state", VStr "TX"); ("tee_fee", VNum 35)]]))).

Definition capture_january : envelope :=
  mkEnvelope (Some (VStr "2024-01-01T08:00:00Z")) (Some (VNum 100))
    (Some (mkPayload
       (Some [record [("course_id", VStr "C1"); ("city", VStr "Austin");
                      ("state", VStr "TX"); ("tee_fee", VNum 40)]]))).

Definition raw_disk : filesystem :=
  {["data/raw/teeradar_page_0.json" := FCapture capture_june;
    "data/raw/teeradar_page_100.json" := FCapture capture_january]}.

Definition quiet_os : os :=
  mkOS ["teeradar_page_100.json"; "notes.txt"; "teeradar_page_0.json"]
    "tmpk3v9" (fun _ => false).

Definition consolidate_args : Consolidate.args :=
  Consolidate.mkArgs "data/raw"
    (Some "data/processed/teeradar_courses.parquet") None None "course_id".

(** The same course seen twice, once with a timestamp that did not parse. *)
Definition courses_null_stamp : DataFrame :=
  mkDF ["course_id"; "city"; "state"; "tee_fee"; "_fetched_at"]
    [record [("course_id", VStr "C1"); ("city", VStr "Austin");
             ("state", VStr "TX"); ("tee_fee", VNum 40);
             ("_fetched_at", VNull)];
     record [("course_id", VStr "C1"); ("city", VStr "Austin");
             ("state", VStr "TX"); ("tee_fee", VNum 35);
             ("_fetched_at", VTime 1717228800)]].

(** Courses in two cities, none of them rated yet. *)
Definition courses_unrated : DataFrame :=
  mkDF ["course_id"; "city"; "state"; "rating"; "_fetched_at"]
    [record [("course_id", VStr "a"); ("city", VStr "Austin");
             ("state", VStr "TX"); ("rating", VNull);
             ("_fetched_at", VTime 1)];
     record [("course_id", VStr "b"); ("city", VStr "Austin");
             ("state", VStr "TX"); ("rating", VNull);
             ("_fetched_at", VTime 1)];
     record [("course_id", VStr "d"); ("city", VStr "Boise");
             ("state", VStr "ID"); ("rating", VNull);
             ("_fetched_at", VTime 1)]].

(** A disk that still holds last week's metrics, and a run during which the
    write of the CSV export breaks. *)
Definition last_week : DataFrame :=
  mkDF ["city"; "state"; "num_golf_courses"; "score"; "rank"]
    [record [("city", VStr "Austin"); ("state", VStr "TX");
             ("num_golf_courses", VNum 2); ("score", VNum 1);
             ("rank", VNum 1)]].

Definition metrics_args : Metrics.args :=
  Metrics.mkArgs "data/processed/teeradar_courses.parquet"
    "data/processed/city_golf_metrics.parquet"
    "outputs/city_golf_metrics.csv" None.

Definition disk_with_outputs : filesystem :=
  {["data/processed/teeradar_courses.parquet" := FTable Parquet courses;
    "data/processed/city_golf_metrics.parquet" := FTable Parquet last_week;
    "outputs/city_golf_metrics.csv" := FTable Csv last_week]}.

Definition csv_write_breaks : os :=
  mkOS [] "tmpk3v9" (String.eqb "outputs/city_golf_metrics.csv").

(** The aggregate of [courses] and the table [compute_metrics] returns
    for it. *)
Definition regions : DataFrame :=
  Eval vm_compute in
    match Metrics.region_table short_arrays ∅ courses None with
    | Ok agg => agg
    | Err _ => mkDF [] []
    end.

Definition ranking : DataFrame :=
  Eval vm_compute in
    match Metrics.compute_metrics short_arrays ∅ courses None None with
    | Ok out => out
    | Err _ => mkDF [] []
    end.

(** A reference file with one row per state, under the column names it is
    usually shipped with. *)
Definition states_once : DataFrame :=
  mkDF ["State"; "Golfable"]
    [record [("State", VStr "TX"); ("Golfable", VNum 1)];
     record [("State", VStr "AZ"); ("Golfable", VNum 1)]].

Definition disk_states_once : filesystem :=
  {["data/states.csv" := FTable Csv states_once]}.

Definition enriched_regions : DataFrame :=
  Eval vm_compute in
    match Metrics.region_table short_arrays disk_states_once courses
            (Some "data/states.csv") with
    | Ok agg => agg
    | Err _ => mkDF [] []
    end.

(** A courses table without region columns. *)
Definition courses_nowhere : DataFrame :=
  mkDF ["course_id"; "name"; "rating"; "_fetched_at"]
    [record [("course_id", VStr "a"); ("name", VStr "Lions");
             ("rating", VNum 4); ("_fetched_at", VTime 1)]].

Definition disk_nowhere : filesystem :=
  {["data/processed/teeradar_courses.parquet" := FTable Parquet courses_nowhere]}.

(** A capture directory whose only page lists no course. *)
Definition capture_empty : envelope :=
  mkEnvelope (Some (VStr "2024-06-01T08:00:00Z")) (Some (VNum 0))
    (Some (mkPayload (Some []))).

Definition disk_empty_page : filesystem :=
  {["data/raw/teeradar_page_0.json" := FCapture capture_empty]}.

Definition os_one_page : os :=
  mkOS ["teeradar_page_0.json"] "tmpk3v9" (fun _ => false).



(** Stand-ins for the parsers of pandas: nothing parses. *)
Definition no_number (s : string) : option Q := None.
Definition no_datetime (s : string) : option Z := None.

End Sample.

(** * More sample data *)

Module Cases.

(** The value of a computation that succeeds. *)
Definition or_else {A} (d : A) (r : res A) : A :=
  match r with Ok a => a | Err _ => d end.

(** [str.strip] on ASCII text. *)
Definition blank (c : ascii) : bool :=
  let n := nat_of_ascii c in
  (Nat.leb 9 n && Nat.leb n 13) || (Nat.leb 28 n && Nat.leb n 32).

Fixpoint lstrip (l : list ascii) : list ascii :=
  match l with
  | c :: l' => if blank c then lstrip l' else l
  | [] => []
  end.

Definition strip (s : string) : string :=
  string_of_list_ascii
    (rev (lstrip (rev (lstrip (list_ascii_of_string s))))).

(** Courses that were not consolidated: no fetch time. *)
Definition courses_unstamped : DataFrame :=
  mkDF ["course_id"; "city"; "state"; "rating"]
    [Sample.record [("course_id", VStr "a"); ("city", VStr "Austin");
                    ("state", VStr "TX"); ("rating", VNum 4)]].

Definition disk_unstamped : filesystem :=
  {["data/processed/teeradar_courses.parquet"
    := FTable Parquet courses_unstamped]}.

(** Courses without identity or name. *)
Definition courses_anonymous : DataFrame :=
  mkDF ["city"; "rating"]
    [Sample.record [("city", VStr "Austin"); ("rating", VNum 4)]].

(** Courses that carry a city and no state. *)
Definition courses_city_only : DataFrame :=
  mkDF ["course_id"; "city"; "rating"; "_fetched_at"]
    [Sample.record [("course_id", VStr "a"); ("city", VStr "Austin");
                    ("rating", VNum 4); ("_fetched_at", VTime 1)];
     Sample.record [("course_id", VStr "d"); ("city", VStr "Boise");
                    ("rating", VNum 3); ("_fetched_at", VTime 1)]].

(** A reference file in which Arizona has no flag. *)
Definition states_blank : DataFrame :=
  mkDF ["state"; "golfable_year_round"]
    [Sample.record [("state", VStr "TX"); ("golfable_year_round", VNum 1)];
     Sample.record [("state", VStr "AZ")]].

Definition disk_states_blank : filesystem :=
  {["data/states.csv" := FTable Csv states_blank]}.

(** The reference that lists Texas twice, as [read_states] returns it. *)
Definition reference_twice : DataFrame :=
  or_else (mkDF [] [])
    (Metrics.read_states Sample.disk_states_twice "data/states.csv").

Definition reference_once : DataFrame :=
  or_else (mkDF [] [])
    (Metrics.read_states Sample.disk_states_once "data/states.csv").


(** The regions of the sample courses before and after the join with the
    reference that lists Texas twice. *)
Definition course_regions : DataFrame :=
  or_else (mkDF [] []) (Metrics.aggregate Sample.courses).

Definition first_region : row := default ∅ (head (rows Sample.regions)).

Definition joined_twice : DataFrame :=
  or_else (mkDF [] []) (Metrics.join_states Sample.regions reference_twice).

Definition scored_regions : DataFrame :=
  or_else (mkDF [] []) (Metrics.add_score None Sample.regions).

(** The sample courses without duplicates, and the two observations of
    course [a]. *)
Definition courses_once : DataFrame :=
  or_else (mkDF [] []) (Metrics.dedup_courses short_arrays Sample.courses).

Definition lions_then : row := nth 0 (rows Sample.courses) ∅.
Definition lions_now : row := nth 4 (rows Sample.courses) ∅.

Definition city_regions : DataFrame :=
  or_else (mkDF [] [])
    (Metrics.dedup_courses short_arrays courses_city_only
       ≫= Metrics.aggregate).

(** Records of which two have no [course_id]. *)
Definition courses_keyless : DataFrame :=
  mkDF ["course_id"; "name"; "_fetched_at"]
    [Sample.record [("name", VStr "Lions");
                    ("_fetched_at", VStr "2024-06-01T08:00:00Z")];
     Sample.record [("course_id", VStr "C1"); ("name", VStr "Jimmy Clay");
                    ("_fetched_at", VStr "2024-06-01T08:00:00Z")];
     Sample.record [("name", VStr "Morris Williams");
                    ("_fetched_at", VStr "2024-06-01T08:00:00Z")]].

(** A consolidation that is asked for a Parquet file by a bare name, and
    one that is asked for all three outputs. *)
Definition bare_args : Consolidate.args :=
  Consolidate.mkArgs "data/raw" (Some "courses.parquet")
    (Some "data/processed/teeradar_courses.ndjson") None "course_id".

Definition all_outputs : Consolidate.args :=
  Consolidate.mkArgs "data/raw"
    (Some "data/processed/teeradar_courses.parquet")
    (Some "data/processed/teeradar_courses.ndjson")
    (Some "data/db/golf.db") "course_id".


(** What reading the sample captures gives, and what deduplicating the
    keyless records gives. *)
Definition raw_courses : list row :=
  or_else []
    (snd (Consolidate.read_raw_courses Sample.quiet_os "data/raw"
            (mkWorld Sample.raw_disk []))).

Definition keyless_once : DataFrame :=
  or_else (mkDF [] [])
    (snd (Consolidate.dedup Sample.no_datetime short_arrays "course_id"
            courses_keyless (mkWorld ∅ []))).

(** A page of three courses, one of them Canadian, short of the limit. *)
Definition page_body : Fetch.body :=
  Fetch.mkBody
    (Some [Sample.record [("course_id", VStr "C1");
                          ("country", VStr "United States")];
           Sample.record [("course_id", VStr "C7");
                          ("country", VStr "Canada")];
           Sample.record [("course_id", VStr "C9"); ("country", VStr "USA")]])
    (Some (VNum 3)).

Definition noon (n : nat) : string := "2024-06-01T12:00:00".

(** What a run saves of that page. *)
Definition page_capture : envelope :=
  Fetch.wrap (noon 0) 0
    (List.filter Fetch.is_us (default [] (Fetch.body_courses page_body))).

Definition nothing_yet : Fetch.state := Fetch.mkState ∅ [].

Definition fetch_args : Fetch.args :=
  Fetch.mkArgs None 100 0 None "data/raw".

End Cases.


(** * Properties *)

(** ** The stable sort *)

Section SortFacts.
Context {A : Type} (le : A -> A -> bool).

Lemma insert_sorted_perm x l : Permutation (x :: l) (insert_sorted le x l).
Proof.
  induction l as [|y l IH]; simpl; [reflexivity|].
  destruct (le x y); [reflexivity|].
  rewrite perm_swap. now apply perm_skip.
Qed.

Lemma stable_sort_perm l : Permutation l (stable_sort le l).
Proof.
  induction l as [|x l IH]; simpl; [constructor|].
  rewrite <- insert_sorted_perm. now apply perm_skip.
Qed.

Lemma stable_sort_length l : length (stable_sort le l) = length l.
Proof. symmetry. apply Permutation_length, stable_sort_perm. Qed.

(** A class of elements that are pairwise [le] keeps its order. *)
Lemma insert_sorted_filter (f : A -> bool) x l :
  (forall y, In y l -> f x = true -> f y = true -> le x y = true) ->
  List.filter f (insert_sorted le x l) = List.filter f (x :: l).
Proof.
  induction l as [|y l IH]; intros Hle; simpl; [reflexivity|].
  destruct (le x y) eqn:Hxy; simpl; [reflexivity|].
  rewrite IH by (intros z Hz; apply Hle; now right).
  simpl. destruct (f x) eqn:Hfx, (f y) eqn:Hfy; try reflexivity.
  rewrite (Hle y) in Hxy by (simpl; auto). discriminate.
Qed.

Lemma stable_sort_filter (f : A -> bool) l :
  (forall x y, In x l -> In y l -> f x = true -> f y = true ->
               le x y = true) ->
  List.filter f (stable_sort le l) = List.filter f l.
Proof.
  induction l as [|x l IH]; intros Hle; simpl; [reflexivity|].
  rewrite insert_sorted_filter.
  - simpl. rewrite IH; [reflexivity|].
    intros a b Ha Hb. apply Hle; now right.
  - intros y Hy. apply Hle; [now left|right].
    eapply Permutation_in; [symmetry; apply stable_sort_perm|exact Hy].
Qed.

(** On a set [P] where [le] is total and transitive the result is sorted. *)
Section Ordered.
Variable P : A -> Prop.
Hypothesis le_total : forall x y, P x -> P y -> le x y = true \/ le y x = true.
Hypothesis le_trans :
  forall x y z, P x -> P y -> P z ->
                le x y = true -> le y z = true -> le x z = true.

Lemma insert_sorted_sorted x l :
  P x -> Forall P l ->
  StronglySorted (fun a b => le a b = true) l ->
  StronglySorted (fun a b => le a b = true) (insert_sorted le x l).
Proof.
  intros Px HP Hs. induction Hs as [|y l Hs IH Hy]; simpl.
  - repeat constructor.
  - inversion HP as [|? ? Py HPl]; subst.
    destruct (le x y) eqn:Hxy.
    + constructor; [now constructor|].
      constructor; [exact Hxy|].
      rewrite List.Forall_forall in Hy, HPl. apply List.Forall_forall. intros z Hz.
      apply (le_trans x y z); auto.
    + constructor; [now apply IH|].
      apply List.Forall_forall. intros z Hz.
      apply (Permutation_in _ (Permutation_sym (insert_sorted_perm x l)))
        in Hz.
      destruct Hz as [<-|Hz].
      * destruct (le_total x y Px Py) as [H|H]; congruence.
      * rewrite List.Forall_forall in Hy. now apply Hy.
Qed.

Lemma stable_sort_sorted l :
  Forall P l -> StronglySorted (fun a b => le a b = true) (stable_sort le l).
Proof.
  induction l as [|x l IH]; intros HP; simpl; [constructor|].
  inversion HP; subst.
  apply insert_sorted_sorted; auto.
  apply List.Forall_forall. intros y Hy.
  apply (Permutation_in _ (Permutation_sym (stable_sort_perm l))) in Hy.
  rewrite List.Forall_forall in H2. now apply H2.
Qed.
End Ordered.
End SortFacts.

(** ** Cell equality and order *)

Lemma value_eqb_refl a : value_eqb a a = true.
Proof.
  destruct a; simpl; auto using Qeq_bool_refl, String.eqb_refl, Z.eqb_refl.
Qed.

Lemma value_eqb_sym a b : value_eqb a b = value_eqb b a.
Proof.
  destruct a, b; simpl; auto using Qeq_bool_comm, String.eqb_sym, Z.eqb_sym.
Qed.

Lemma value_eqb_trans a b c :
  value_eqb a b = true -> value_eqb b c = true -> value_eqb a c = true.
Proof.
  destruct a, b, c; simpl; try congruence.
  - apply Qeq_bool_trans.
  - rewrite !String.eqb_eq. congruence.
  - rewrite !Z.eqb_eq. congruence.
Qed.

Lemma value_eqb_null a b :
  value_eqb a b = true -> is_null a = is_null b.
Proof. destruct a, b; simpl; congruence. Qed.

Lemma string_leb_refl s : String.leb s s = true.
Proof.
  unfold String.leb.
  pose proof (proj2 (String_as_OT.cmp_eq s s) eq_refl) as H.
  unfold String_as_OT.cmp in H. now rewrite H.
Qed.

Lemma value_eqb_leb a b :
  value_eqb a b = true -> is_null a = false -> value_leb a b = true.
Proof.
  destruct a, b; simpl; try congruence; intros H _.
  - apply Qle_bool_iff. apply Qeq_bool_iff in H. rewrite H. apply Qle_refl.
  - apply String.eqb_eq in H. subst. apply string_leb_refl.
  - apply Z.eqb_eq in H. subst. apply Z.leb_refl.
Qed.

(** ** Sorting a table by a column *)

Lemma filter_split_class {A} (f p : A -> bool) (l : list A) :
  (forall x y, In x l -> In y l -> f x = true -> f y = true -> p x = p y) ->
  List.filter f (List.filter (fun x => negb (p x)) l)
    ++ List.filter f (List.filter p l)
  = List.filter f l.
Proof.
  induction l as [|x l IH]; intros Hc; simpl; [reflexivity|].
  assert (IH' := IH (fun a b Ha Hb => Hc a b (or_intror Ha) (or_intror Hb))).
  destruct (f x) eqn:Hfx, (p x) eqn:Hpx; simpl; rewrite ?Hfx; simpl;
    try exact IH'.
  - rewrite <- IH'.
    replace (List.filter f (List.filter (fun x0 => negb (p x0)) l)) with (@nil A);
      [reflexivity|].
    symmetry.
    destruct (List.filter f (List.filter (fun x0 => negb (p x0)) l))
      as [|y ?] eqn:E; [reflexivity|exfalso].
    assert (Hy : In y (List.filter f (List.filter (fun x0 => negb (p x0)) l)))
      by (rewrite E; now left).
    apply List.filter_In in Hy as [Hy Hfy]. apply List.filter_In in Hy as [Hy Hpy].
    rewrite (Hc y x) in Hpy; simpl; auto. rewrite Hpx in Hpy. discriminate.
  - rewrite <- IH'. reflexivity.
Qed.

Lemma take_seq_from {A} (pre l : list A) :
  take (pre ++ l) (seq (length pre) (length l)) = l.
Proof.
  revert pre. induction l as [|x l IH]; intros pre; [reflexivity|].
  unfold take in *. simpl.
  rewrite lookup_app_r, Nat.sub_diag by lia. simpl. f_equal.
  specialize (IH (pre ++ [x])).
  rewrite length_app, <- app_assoc, Nat.add_1_r in IH. exact IH.
Qed.

Lemma take_seq {A} (l : list A) : take l (seq 0 (length l)) = l.
Proof. apply (take_seq_from [] l). Qed.

Lemma take_perm {A} (l : list A) idx :
  Permutation idx (seq 0 (length l)) -> Permutation (take l idx) l.
Proof.
  intros H. rewrite <- (take_seq l) at 2. unfold take.
  now apply omap_Permutation.
Qed.

Lemma take_map {A B} (f : A -> B) l idx :
  take (map f l) idx = map f (take l idx).
Proof.
  unfold take. induction idx as [|i idx IH]; [reflexivity|]. simpl.
  change (map f l) with (f <$> l) in *. rewrite list_lookup_fmap.
  destruct (l !! i); simpl; [f_equal|]; exact IH.
Qed.

Lemma take_In {A} (l : list A) idx x : In x (take l idx) -> In x l.
Proof.
  unfold take. induction idx as [|i idx IH]; simpl; [tauto|].
  destruct (l !! i) as [y|] eqn:E; simpl; [|exact IH].
  intros [<-|H]; [|auto].
  apply list_elem_of_In. eapply list_elem_of_lookup_2; eauto.
Qed.

Lemma take_filter {A} (p : A -> bool) l idx :
  List.filter p (take l idx) = take l (List.filter (holds_at p l) idx).
Proof.
  unfold take, holds_at. induction idx as [|i idx IH]; [reflexivity|]. simpl.
  destruct (l !! i) as [x|] eqn:E; simpl; [|exact IH].
  destruct (p x); simpl; rewrite ?E; simpl; [f_equal|]; exact IH.
Qed.

Lemma holds_at_map {A B} (f : A -> B) (p : B -> bool) l i :
  holds_at p (map f l) i = holds_at (fun x => p (f x)) l i.
Proof.
  unfold holds_at. change (map f l) with (f <$> l).
  rewrite list_lookup_fmap. now destruct (l !! i).
Qed.

Lemma filter_class {A} (f g : A -> bool) (l : list A) :
  (forall x, In x l -> f x = true -> g x = true) ->
  List.filter f (List.filter g l) = List.filter f l.
Proof.
  induction l as [|x l IH]; intros H; simpl; [reflexivity|].
  assert (IH' := IH (fun y Hy => H y (or_intror Hy))).
  destruct (g x) eqn:Hg; simpl.
  - now rewrite IH'.
  - destruct (f x) eqn:Hf; [|exact IH'].
    rewrite (H x) in Hg; simpl; auto. discriminate.
Qed.

Lemma StronglySorted_map_inv {A B} (R : B -> B -> Prop) (f : A -> B) l :
  StronglySorted R (map f l) ->
  StronglySorted (fun a b => R (f a) (f b)) l.
Proof.
  induction l as [|x l IH]; simpl; intros H; [constructor|].
  inversion H as [|? ? Hs Hx]; subst. constructor; [auto|].
  apply List.Forall_forall. intros y Hy. rewrite List.Forall_forall in Hx.
  apply Hx. now apply in_map.
Qed.

Section Argsort.
Variable np : numpy.
Variable c : string.

Let key (r : row) : value := cell r c.

(** The rows of [nn] all have a key. *)
Let keyed (nn : list row) : Prop :=
  forall r, In r nn -> is_null (cell r c) = false.

Lemma keyed_keys nn :
  keyed nn -> forallb (fun k => negb (is_null k)) (map key nn) = true.
Proof.
  intros H. apply forallb_forall. intros k Hk.
  apply in_map_iff in Hk as (r & <- & Hr). unfold key. now rewrite (H r Hr).
Qed.

Lemma argsort_rows_perm nn :
  sorts np -> Permutation (take nn (argsort np (map key nn))) nn.
Proof.
  intros Hs. apply take_perm. destruct (Hs (map key nn)) as [Hp _].
  now rewrite length_map in Hp.
Qed.

Lemma argsort_rows_sorted nn :
  sorts np -> keyed nn -> comparable (map key nn) = true ->
  StronglySorted (fun a b => value_leb (cell a c) (cell b c) = true)
    (take nn (argsort np (map key nn))).
Proof.
  intros Hs Hk Hcmp. destruct (Hs (map key nn)) as [_ Hsorted].
  specialize (Hsorted (keyed_keys nn Hk) Hcmp). rewrite take_map in Hsorted.
  now apply StronglySorted_map_inv in Hsorted.
Qed.

(** Under a stable sort, rows that share a key keep their relative order. *)
Lemma argsort_rows_filter (f : row -> bool) nn :
  stable np -> keyed nn ->
  (forall x y, In x nn -> In y nn -> f x = true -> f y = true ->
               value_eqb (cell x c) (cell y c) = true) ->
  List.filter f (take nn (argsort np (map key nn))) = List.filter f nn.
Proof.
  intros Hst Hk Hc.
  destruct (List.filter f nn) as [|x0 k0] eqn:E.
  - destruct (List.filter f (take nn (argsort np (map key nn))))
      as [|y k1] eqn:E1; [reflexivity|exfalso].
    assert (Hy : In y (List.filter f (take nn (argsort np (map key nn)))))
      by (rewrite E1; now left).
    apply List.filter_In in Hy as [Hy Hfy]. apply take_In in Hy.
    assert (Hy' : In y (List.filter f nn)) by (apply List.filter_In; auto).
    rewrite E in Hy'. destruct Hy'.
  - rewrite <- E.
    assert (H0 : In x0 nn /\ f x0 = true).
    { apply List.filter_In. rewrite E. now left. }
    destruct H0 as [H0 Hf0].
    set (g := fun r : row => value_eqb (cell r c) (cell x0 c)).
    rewrite <- (filter_class f g (take nn _)), <- (filter_class f g nn).
    + f_equal. rewrite take_filter.
      rewrite (List.filter_ext _ (holds_at (fun k => value_eqb k (cell x0 c))
                                    (map key nn)))
        by (intros i; symmetry; apply (holds_at_map key)).
      rewrite (Hst (map key nn) (cell x0 c) (keyed_keys nn Hk)).
      rewrite (List.filter_ext _ (holds_at g nn))
        by (intros i; apply (holds_at_map key)).
      rewrite length_map, <- take_filter, take_seq. reflexivity.
    + intros x Hx Hfx. unfold g. auto.
    + intros x Hx Hfx. unfold g. apply take_In in Hx. auto.
Qed.
End Argsort.

Lemma filter_keyed c (l : list row) r :
  In r (List.filter (fun r => negb (is_null (cell r c))) l) ->
  is_null (cell r c) = false.
Proof.
  intros H. apply List.filter_In in H as [_ H]. now apply negb_true_iff.
Qed.

Lemma nargsort_perm (np : numpy) c asc l :
  sorts np -> Permutation l (nargsort np c asc l).
Proof.
  intros Hs. unfold nargsort.
  transitivity (List.filter (fun r => negb (is_null (cell r c))) l
                ++ List.filter (fun r => is_null (cell r c)) l).
  - induction l as [|x l IH]; simpl; [constructor|].
    destruct (is_null (cell x c)); simpl.
    + now apply Permutation_cons_app.
    + now constructor.
  - apply Permutation_app_tail. destruct asc.
    + symmetry. now apply argsort_rows_perm.
    + rewrite <- Permutation_rev, argsort_rows_perm by exact Hs.
      apply Permutation_rev.
Qed.


(** Under a stable sort, rows that share a key keep their relative order. *)
Lemma nargsort_filter (np : numpy) c asc (f : row -> bool) l :
  stable np ->
  (forall x y, In x l -> In y l -> f x = true -> f y = true ->
               value_eqb (cell x c) (cell y c) = true) ->
  List.filter f (nargsort np c asc l) = List.filter f l.
Proof.
  intros Hst Hc. unfold nargsort. rewrite List.filter_app.
  rewrite <- (filter_split_class f (fun r => is_null (cell r c)) l)
    by (intros x y Hx Hy Hfx Hfy; apply value_eqb_null; auto).
  f_equal.
  assert (Hin : forall x,
    In x (List.filter (fun r => negb (is_null (cell r c))) l) -> In x l).
  { intros x Hx. now apply List.filter_In in Hx. }
  destruct asc.
  - apply argsort_rows_filter; [exact Hst|apply filter_keyed|].
    intros x y Hx Hy. auto.
  - rewrite List.filter_rev, argsort_rows_filter, List.filter_rev,
      rev_involutive; [reflexivity|exact Hst| |].
    + intros r Hr. apply in_rev in Hr. now apply filter_keyed in Hr.
    + intros x y Hx Hy. apply in_rev in Hx, Hy. auto.
Qed.

(** ** Dropping duplicates *)

Section KeepLast.
Variable c : string.
Variable v : value.

Let same (r : row) : bool := value_eqb (cell r c) v.

(** Of the rows with key [v], exactly the last one stays. *)
Lemma keep_last_survivor l :
  List.filter same (keep_last c l) = option_list (last (List.filter same l)).
Proof.
  induction l as [|r l IH]; simpl; [reflexivity|].
  destruct (existsb _ l) eqn:Hex.
  - rewrite IH. destruct (same r) eqn:Hr; [|reflexivity].
    apply existsb_exists in Hex as (r' & Hin & Heq).
    assert (Hr' : same r' = true).
    { unfold same in *. eapply value_eqb_trans; eauto. }
    destruct (List.filter same l) as [|y k] eqn:E; [|reflexivity].
    assert (Hf : In r' (List.filter same l)) by (apply List.filter_In; auto).
    rewrite E in Hf. destruct Hf.
  - simpl. rewrite IH. destruct (same r) eqn:Hr; [|reflexivity].
    destruct (List.filter same l) as [|y k] eqn:E; [reflexivity|exfalso].
    assert (Hy : In y (List.filter same l)) by (rewrite E; now left).
    apply List.filter_In in Hy as [Hy Hsy].
    assert (existsb (fun r' => value_eqb (cell r' c) (cell r c)) l = true);
      [|congruence].
    apply existsb_exists. exists y. split; [exact Hy|].
    unfold same in *. eapply value_eqb_trans; [exact Hsy|].
    now rewrite value_eqb_sym.
Qed.

Lemma keep_last_one l :
  existsb same l = true ->
  length (List.filter same (keep_last c l)) = 1%nat.
Proof.
  intros Hex. rewrite keep_last_survivor.
  apply existsb_exists in Hex as (r & Hin & Hr).
  destruct (last (List.filter same l)) eqn:E; [reflexivity|].
  apply last_None in E.
  assert (Hf : In r (List.filter same l)) by (apply List.filter_In; auto).
  rewrite E in Hf. destruct Hf.
Qed.
End KeepLast.

(** ** Column updates *)

Lemma cell_insert (r : row) c c' v :
  cell (<[c := v]> r) c' = if decide (c = c') then v else cell r c'.
Proof. unfold cell. rewrite lookup_insert. now destruct (decide (c = c')). Qed.

Lemma cell_insert_eq (r : row) c v : cell (<[c := v]> r) c = v.
Proof. rewrite cell_insert. now rewrite decide_True. Qed.

Lemma cell_insert_ne (r : row) c c' v :
  c <> c' -> cell (<[c := v]> r) c' = cell r c'.
Proof. intros. rewrite cell_insert. now rewrite decide_False. Qed.

Lemma set_column_rows c vals df :
  length vals = length (rows df) ->
  Forall2 (fun r' rv => r' = <[c := snd rv]> (fst rv))
    (rows (set_column c vals df)) (combine (rows df) vals).
Proof.
  unfold set_column; simpl. generalize (rows df) as l.
  induction vals as [|v vals IH]; intros [|r l] Hlen; simpl in *;
    try discriminate; constructor; auto.
Qed.


Lemma set_column_lookup c vals df i r' :
  rows (set_column c vals df) !! i = Some r' ->
  exists r v, rows df !! i = Some r /\ vals !! i = Some v /\ r' = <[c := v]> r.
Proof.
  unfold set_column; simpl. intros H.
  apply lookup_zip_with_Some in H as (r & v & -> & Hr & Hv). eauto.
Qed.

Lemma has_col_set_column c vals df : has_col c (set_column c vals df) = true.
Proof.
  unfold set_column, has_col at 1; simpl.
  destruct (has_col c df) eqn:E; [exact E|].
  rewrite existsb_app; simpl. now rewrite String.eqb_refl, orb_true_r.
Qed.


(** ** Sorted lists by position *)

Lemma StronglySorted_lookup {A} (R : A -> A -> Prop) (l : list A) i j x y :
  StronglySorted R l -> l !! i = Some x -> l !! j = Some y -> (i < j)%nat ->
  R x y.
Proof.
  intros Hs. revert i j. induction Hs as [|a l Hs IH Ha]; intros i j Hi Hj Hij.
  - discriminate.
  - destruct j as [|j]; [lia|]. simpl in Hj. destruct i as [|i]; simpl in Hi.
    + injection Hi as <-. rewrite List.Forall_forall in Ha. apply Ha.
      apply list_elem_of_In. eapply list_elem_of_lookup_2; eauto.
    + eapply IH; eauto. lia.
Qed.


(** ** Exceptions *)

Lemma bind_Ok {A B} (m : res A) (k : A -> res B) b :
  (m ≫= k) = Ok b <-> exists a, m = Ok a /\ k a = Ok b.
Proof.
  destruct m as [a|e]; simpl; split.
  - eauto.
  - now intros (a' & [= <-] & H).
  - discriminate.
  - now intros (a' & [=] & _).
Qed.

Lemma mapM_length {A B} (f : A -> res B) l k :
  mapM f l = Ok k -> length k = length l.
Proof.
  revert k. induction l as [|x l IH]; simpl; intros k H.
  - now injection H as <-.
  - apply bind_Ok in H as (y & _ & H). apply bind_Ok in H as (ys & Hys & H).
    injection H as <-. simpl. f_equal. now apply IH.
Qed.

Lemma mapM_Forall2 {A B} (f : A -> res B) l k :
  mapM f l = Ok k -> Forall2 (fun x y => f x = Ok y) l k.
Proof.
  revert k. induction l as [|x l IH]; simpl; intros k H.
  - injection H as <-. constructor.
  - apply bind_Ok in H as (y & Hy & H). apply bind_Ok in H as (ys & Hys & H).
    injection H as <-. constructor; auto.
Qed.

Lemma mapM_In {A B} (f : A -> res B) l k y :
  mapM f l = Ok k -> In y k -> exists x, In x l /\ f x = Ok y.
Proof.
  intros H. apply mapM_Forall2 in H.
  induction H as [|x y' l k Hxy _ IH]; simpl; [intros []|].
  intros [<-|Hy]; [eauto|]. destruct (IH Hy) as (x' & ? & ?). eauto.
Qed.

(** ** Ranking *)






Lemma scaled_matrix_lengths agg scaled :
  Metrics.scaled_matrix agg = Ok scaled ->
  List.Forall (fun cx => length (snd cx) = length (rows agg)) scaled.
Proof.
  unfold Metrics.scaled_matrix. intros H.
  apply bind_Ok in H as (m & Hm & H). unfold Metrics.fit_transform in H.
  destruct (length (rows agg)) as [|n'] eqn:Hn; [discriminate|].
  injection H as <-. rewrite <- Hn. clear Hn n'.
  unfold Metrics.to_matrix in Hm.
  apply List.Forall_forall. intros cx Hcx.
  apply in_map_iff in Hcx as (cx1 & <- & Hcx1). simpl.
  unfold Metrics.min_max_column. rewrite length_map.
  unfold Metrics.fill_mean in Hcx1.
  apply in_map_iff in Hcx1 as (cx2 & <- & Hcx2). simpl.
  unfold fillna. rewrite length_map.
  unfold Metrics.invert in Hcx2.
  apply in_map_iff in Hcx2 as (cx3 & <- & Hcx3).
  destruct (mapM_In _ _ _ _ Hm Hcx3) as (c & _ & Hc).
  apply bind_Ok in Hc as (xs & Hxs & Hc). injection Hc as <-.
  apply mapM_length in Hxs.
  destruct (existsb _ _); simpl; [rewrite length_map|]; exact Hxs.
Qed.




(** ** Weights *)

Lemma Qsum_app l k : (Qsum (l ++ k) == Qsum l + Qsum k)%Q.
Proof. induction l as [|x l IH]; simpl; [ring|rewrite IH; ring]. Qed.

Lemma Qsum_nonneg l : List.Forall (fun q => 0 <= q)%Q l -> (0 <= Qsum l)%Q.
Proof.
  induction 1 as [|x l Hx _ IH]; simpl; [apply Qle_refl|].
  apply Qle_trans with (0 + 0)%Q; [apply Qle_refl|now apply Qplus_le_compat].
Qed.

Lemma Qsum_ge_elem l x :
  List.Forall (fun q => 0 <= q)%Q l -> In x l -> (x <= Qsum l)%Q.
Proof.
  induction 1 as [|y l Hy Hl IH]; simpl; [intros []|intros [->|Hin]].
  - pose proof (Qsum_nonneg l Hl). lra.
  - specialize (IH Hin). lra.
Qed.

Lemma weight_sum_insert (m : gmap string Q) k v :
  m !! k = None ->
  (Metrics.weight_sum (<[k := v]> m) == Metrics.weight_sum m + v)%Q.
Proof.
  intros Hk. unfold Metrics.weight_sum.
  apply (map_fold_insert Qeq (fun _ v acc => (acc + v)%Q)).
  - intros j z a b Hab. now rewrite Hab.
  - intros. ring.
  - exact Hk.
Qed.

(** Summing [weights.get(c, 0)] over a duplicate-free list that covers the
    keys is summing the values. *)
Lemma weight_sum_keys (l : list string) (m : gmap string Q) :
  List.NoDup l -> (forall k, is_Some (m !! k) -> In k l) ->
  (Qsum (map (fun c => default 0%Q (m !! c)) l) == Metrics.weight_sum m)%Q.
Proof.
  intros Hnd. revert m. induction Hnd as [|a l Ha Hnd IH]; intros m Hdom.
  - assert (m = ∅) as ->.
    { apply map_empty. intros i. destruct (m !! i) eqn:E; [|reflexivity].
      destruct (Hdom i); eauto. }
    reflexivity.
  - simpl.
    assert (Hrest : map (fun c => default 0%Q (m !! c)) l
                    = map (fun c => default 0%Q (delete a m !! c)) l).
    { apply map_ext_in. intros c Hc. rewrite lookup_delete_ne; [reflexivity|].
      intros ->. contradiction. }
    rewrite Hrest, IH.
    + destruct (m !! a) as [v|] eqn:E; simpl.
      * rewrite <- (insert_delete_id m a v E) at 2.
        rewrite weight_sum_insert by apply lookup_delete_eq. ring.
      * rewrite delete_id by exact E. ring.
    + intros k Hk. apply lookup_delete_is_Some in Hk as [Hne Hk].
      destruct (Hdom k Hk) as [->|H]; [contradiction|exact H].
Qed.

Lemma Qsum_map_scale {A} (f : A -> Q) (t : Q) (l : list A) :
  (Qsum (map (fun x => f x / t) l) == Qsum (map f l) / t)%Q.
Proof.
  induction l as [|x l IH]; simpl; [unfold Qdiv; ring|].
  rewrite IH. unfold Qdiv. ring.
Qed.

Lemma Qsum_filter_nonzero {A} (f : A -> Q) (p : A -> bool) (l : list A) :
  (forall x, p x = false -> f x == 0)%Q ->
  (Qsum (map f (List.filter p l)) == Qsum (map f l))%Q.
Proof.
  intros Hp. induction l as [|x l IH]; simpl; [reflexivity|].
  destruct (p x) eqn:E; simpl; rewrite IH; [reflexivity|].
  rewrite (Hp x E). ring.
Qed.

Lemma NoDup_metric_names : List.NoDup Metrics.metric_names.
Proof.
  unfold Metrics.metric_names.
  repeat (constructor; [simpl; intuition discriminate|]). constructor.
Qed.

Lemma keep_available_lookup cols (w : gmap string Q) c :
  Metrics.keep_available cols w !! c
  = if existsb (String.eqb c) cols then w !! c else None.
Proof.
  unfold Metrics.keep_available.
  destruct (existsb (String.eqb c) cols) eqn:E.
  - apply existsb_exists in E as (c' & Hin & Heq).
    apply String.eqb_eq in Heq as <-.
    destruct (w !! c) as [v|] eqn:Hw.
    + apply map_lookup_filter_Some. split; [exact Hw|].
      simpl. now apply list_elem_of_In.
    + apply map_lookup_filter_None. left. exact Hw.
  - apply map_lookup_filter_None. right. intros v _ Hin. simpl in Hin.
    apply list_elem_of_In in Hin.
    assert (existsb (String.eqb c) cols = true); [|congruence].
    apply existsb_exists. exists c. split; [exact Hin|apply String.eqb_refl].
Qed.

(** ** Running commands *)

Lemma io_bind_Ok {A B} (m : io A) (k : A -> io B) w w1 a :
  m w = (w1, Ok a) -> (m ≫= k) w = k a w1.
Proof. intros H. unfold mbind, io_bind. now rewrite H. Qed.

Lemma io_bind_Err {A B} (m : io A) (k : A -> io B) w w1 e :
  m w = (w1, Err e) -> (m ≫= k) w = (w1, Err e).
Proof. intros H. unfold mbind, io_bind. now rewrite H. Qed.

(** ** compute_metrics: no region columns *)

Lemma dedup_courses_columns (np : numpy) df d c :
  Metrics.dedup_courses np df = Ok d -> has_col c d = has_col c df.
Proof.
  unfold Metrics.dedup_courses.
  destruct (has_col "course_id" df) eqn:Hid; [|now intros [= <-]].
  intros H. apply bind_Ok in H as (s & Hs & H).
  unfold sort_values in Hs.
  destruct (has_col "_fetched_at" df); [|discriminate].
  destruct (comparable _); [|discriminate]. injection Hs as <-.
  unfold drop_duplicates in H.
  change (has_col "course_id" (mkDF (columns df) ?l))
    with (has_col "course_id" df) in H.
  rewrite Hid in H. now injection H as <-.
Qed.

(** Whatever [compute_metrics] raises, [main] stops there: no file has been
    touched. *)
Lemma metrics_main_error_writes_nothing (np : numpy) o a w df e :
  Metrics.read_parquet (fs w) (Metrics.arg_courses a) = Ok df ->
  Metrics.compute_metrics np (fs w) df None (Metrics.arg_state_golfable_csv a)
  = Err e ->
  Metrics.main np o a w = (w, Err e).
Proof.
  intros Hread Hcm. unfold Metrics.main, mbind, io_bind, get_fs, lift.
  now rewrite Hread, Hcm.
Qed.

(** C9.  When the deduplicated table has neither a [city] nor a [state]
    column, [compute_metrics] raises the error that names the missing region
    columns, and [main] stops with that error in the world it started from:
    nothing has been written. *)
Theorem no_region_columns_aborts_before_write (np : numpy) o a w df d :
  Metrics.read_parquet (fs w) (Metrics.arg_courses a) = Ok df ->
  Metrics.dedup_courses np df = Ok d ->
  has_col "city" d = false -> has_col "state" d = false ->
  Metrics.compute_metrics np (fs w) df None (Metrics.arg_state_golfable_csv a)
  = Err Metrics.no_region_columns /\
  Metrics.main np o a w = (w, Err Metrics.no_region_columns).
Proof.
  intros Hread Hd Hcity Hstate.
  assert (Hcm : Metrics.compute_metrics np (fs w) df None
                  (Metrics.arg_state_golfable_csv a)
                = Err Metrics.no_region_columns).
  { unfold Metrics.compute_metrics, Metrics.region_table. rewrite Hd. simpl.
    unfold Metrics.aggregate, Metrics.group_cols. simpl.
    now rewrite Hcity, Hstate. }
  split; [exact Hcm|]. now apply metrics_main_error_writes_nothing with df.
Qed.

(** ** consolidate: nothing to process *)

Lemma read_raw_courses_fs o dir w w' r :
  Consolidate.read_raw_courses o dir w = (w', r) -> fs w' = fs w.
Proof.
  unfold Consolidate.read_raw_courses.
  destruct (stable_sort String.leb (Consolidate.glob o dir)).
  - unfold mbind, io_bind, print, mret, io_ret; simpl. now intros [= <- _].
  - unfold mbind, io_bind, get_fs, lift; simpl. now intros [= <- _].
Qed.

(** The two ways to end up without records: no capture file matches, or
    the files that match list no course. *)
Lemma read_raw_courses_no_files o dir w :
  Consolidate.glob o dir = [] ->
  Consolidate.read_raw_courses o dir w
  = (mkWorld (fs w) (stdout w ++ [NoRawFiles dir]), Ok []).
Proof.
  intros H. unfold Consolidate.read_raw_courses. rewrite H. reflexivity.
Qed.

Lemma read_files_no_courses (files : filesystem) l acc :
  (forall p, In p l ->
             exists e, files !! p = Some (FCapture e) /\
                       Consolidate.courses_of e = []) ->
  Consolidate.read_files files l acc = Ok acc.
Proof.
  revert acc. induction l as [|p l IH]; intros acc H; simpl; [reflexivity|].
  destruct (H p (or_introl eq_refl)) as (e & Hp & He).
  unfold Consolidate.json_load. rewrite Hp. simpl. rewrite He. simpl.
  rewrite app_nil_r. apply IH. intros q Hq. apply H. now right.
Qed.

Lemma read_raw_courses_no_courses o dir w :
  (forall p, In p (Consolidate.glob o dir) ->
             exists e, fs w !! p = Some (FCapture e) /\
                       Consolidate.courses_of e = []) ->
  snd (Consolidate.read_raw_courses o dir w) = Ok [].
Proof.
  intros H. unfold Consolidate.read_raw_courses.
  destruct (stable_sort String.leb (Consolidate.glob o dir)) as [|f l] eqn:E;
    [reflexivity|].
  unfold mbind, io_bind, get_fs, lift. cbv beta iota delta [snd].
  rewrite <- E. apply read_files_no_courses. intros p Hp. apply H.
  eapply Permutation_in; [symmetry; apply stable_sort_perm|exact Hp].
Qed.

(** C10.  Whenever reading the captures yields no course record, [main]
    prints the no-data message and returns at once: the file system is the
    one it started with, and nothing but that message follows what the
    reader printed. *)
Theorem no_records_no_outputs (np : numpy) pn pd o a w w' :
  Consolidate.read_raw_courses o (Consolidate.raw_dir a) w = (w', Ok []) ->
  Consolidate.main pn pd np o a w
  = (mkWorld (fs w) (stdout w' ++ [NoData]), Ok tt).
Proof.
  intros H. unfold Consolidate.main.
  rewrite (io_bind_Ok _ _ _ _ _ H). unfold print.
  now rewrite (read_raw_courses_fs _ _ _ _ _ H).
Qed.

(** ** Writers *)

Lemma string_length_append s t :
  String.length (s +:+ t) = (String.length s + String.length t)%nat.
Proof. induction s as [|c s IH]; simpl; [reflexivity|now rewrite IH]. Qed.

Lemma append_tmp_ne p : p +:+ ".tmp" <> p.
Proof.
  intros H. apply (f_equal String.length) in H.
  rewrite string_length_append in H. simpl in H. lia.
Qed.

(** [to_parquet_atomic] never leaves the destination half-written: when it
    raises, the destination holds what it held before. *)
Lemma to_parquet_atomic_failure_safe o df p w w' e :
  dir_prefix p +:+ tmp_stem o +:+ ".parquet" <> p ->
  Consolidate.to_parquet_atomic o df p w = (w', Err e) ->
  fs w' !! p = fs w !! p.
Proof.
  intros Hne. unfold Consolidate.to_parquet_atomic, makedirs_parent.
  unfold mbind, io_bind, mret, io_ret, raise, put_file, write_file, replace,
    print.
  destruct (has_slash p); simpl; [|now intros [= <- _]].
  destruct (breaks o _); simpl.
  - intros [= <- _]. simpl. now rewrite !lookup_insert_ne.
  - rewrite lookup_insert_eq. discriminate.
Qed.

Lemma to_parquet_atomic_success o df p w w' :
  Consolidate.to_parquet_atomic o df p w = (w', Ok tt) ->
  fs w' !! p = Some (FTable Parquet df).
Proof.
  unfold Consolidate.to_parquet_atomic, makedirs_parent.
  unfold mbind, io_bind, mret, io_ret, raise, put_file, write_file, replace,
    print.
  destruct (has_slash p); simpl; [|discriminate].
  destruct (breaks o _); simpl; [discriminate|].
  rewrite lookup_insert_eq. intros [= <-]. simpl. apply lookup_insert_eq.
Qed.

Lemma to_ndjson_atomic_failure_safe o recs p w w' e :
  Consolidate.to_ndjson_atomic o recs p w = (w', Err e) ->
  fs w' !! p = fs w !! p.
Proof.
  pose proof (append_tmp_ne p) as Hne.
  unfold Consolidate.to_ndjson_atomic, makedirs_parent.
  unfold mbind, io_bind, mret, io_ret, raise, write_file, replace, print.
  destruct (has_slash p); simpl; [|now intros [= <- _]].
  destruct (breaks o _); simpl.
  - intros [= <- _]. simpl. now rewrite lookup_insert_ne.
  - rewrite lookup_insert_eq. discriminate.
Qed.

(** [main] of compute_city_metrics writes both tables straight onto their
    destinations: a write that breaks leaves the broken file there. *)
Lemma metrics_main_writes_in_place (np : numpy) o a w df metrics :
  Metrics.read_parquet (fs w) (Metrics.arg_courses a) = Ok df ->
  Metrics.compute_metrics np (fs w) df None (Metrics.arg_state_golfable_csv a)
  = Ok metrics ->
  breaks o (Metrics.arg_output a) = false ->
  breaks o (Metrics.arg_csv_out a) = true ->
  snd (Metrics.main np o a w) = Err (OSError (Metrics.arg_csv_out a)) /\
  fs (fst (Metrics.main np o a w)) !! Metrics.arg_csv_out a = Some FBroken.
Proof.
  intros Hread Hcm Hout Hcsv.
  unfold Metrics.main, mbind, io_bind, get_fs, lift, write_file.
  rewrite Hread, Hcm, Hout; simpl. rewrite Hcsv; simpl.
  split; [reflexivity|apply lookup_insert_eq].
Qed.

(** ** The aggregate's cells *)

Lemma combine_fst_In {A B} (l : list A) (k : list B) x :
  In x (map fst (combine l k)) -> In x l.
Proof.
  revert k. induction l as [|a l IH]; intros [|b k]; simpl; try tauto.
  intros [->|H]; eauto.
Qed.

Lemma groupby_agg_cells cols aggs df agg (r : row) c :
  Metrics.groupby_agg cols aggs df = Ok agg ->
  In r (rows agg) -> ~ In c cols -> ~ In c (map fst aggs) -> r !! c = None.
Proof.
  unfold Metrics.groupby_agg. intros H Hr Hc1 Hc2.
  apply bind_Ok in H as (_ & _ & H). apply bind_Ok in H as (rs & Hrs & H).
  injection H as <-. simpl in Hr.
  destruct (mapM_In _ _ _ _ Hrs Hr) as (k & _ & Hk).
  apply bind_Ok in Hk as (cells & Hcells & Hk). injection Hk as <-.
  apply not_elem_of_list_to_map_1. rewrite fmap_app, elem_of_app.
  intros [Hin|Hin]; apply list_elem_of_In in Hin.
  - apply Hc1. eapply combine_fst_In. exact Hin.
  - apply Hc2. apply in_map_iff in Hin as ([c' v] & Heq & Hin).
    simpl in Heq. subst c'.
    destruct (mapM_In _ _ _ _ Hcells Hin) as (a & Ha & Hv).
    apply bind_Ok in Hv as (v' & _ & Hv). injection Hv as Hfst _.
    rewrite <- Hfst. now apply in_map.
Qed.

Lemma aggregate_cells d agg (r : row) c :
  Metrics.aggregate d = Ok agg -> In r (rows agg) ->
  In c ["golfable_year_round"; "state_name"; "state_golfable"] ->
  r !! c = None.
Proof.
  unfold Metrics.aggregate. intros H Hr Hc.
  destruct (Metrics.group_cols d) as [|g gs] eqn:Hg; [discriminate|].
  rewrite <- Hg in H. eapply groupby_agg_cells; eauto.
  - unfold Metrics.group_cols. intros Hin.
    apply List.filter_In in Hin as [Hin _].
    simpl in Hin, Hc. intuition (subst; discriminate).
  - unfold Metrics.agg_dict.
    destruct (has_col "course_id" d), (has_col "rating" d),
      (has_col "ratings_count" d), (has_col "tee_fee" d),
      (has_col "length_yards" d); simpl in *;
      intuition (subst; discriminate).
Qed.

Lemma aggregate_columns d agg c :
  Metrics.aggregate d = Ok agg ->
  In c ["golfable_year_round"; "state_name"; "state_golfable"] ->
  has_col c agg = false.
Proof.
  unfold Metrics.aggregate. intros H Hc.
  destruct (Metrics.group_cols d) as [|g gs] eqn:Hg; [discriminate|].
  rewrite <- Hg in H. clear Hg. unfold Metrics.groupby_agg in H.
  apply bind_Ok in H as (_ & _ & H). apply bind_Ok in H as (rs & _ & H).
  injection H as <-.
  unfold Metrics.group_cols, Metrics.agg_dict. cbn [List.filter].
  simpl in Hc. destruct Hc as [<-|[<-|[<-|[]]]];
    destruct (has_col "city" d), (has_col "state" d),
      (has_col "course_id" d), (has_col "rating" d),
      (has_col "ratings_count" d), (has_col "tee_fee" d),
      (has_col "length_yards" d); reflexivity.
Qed.

(** ** The left join *)

Lemma lookup_fold_delete (r : row) cs c :
  fold_right (fun c acc => delete c acc) r cs !! c
  = if existsb (String.eqb c) cs then None else r !! c.
Proof.
  induction cs as [|c' cs IH]; simpl; [reflexivity|].
  rewrite lookup_delete. destruct (decide (c' = c)) as [->|Hne].
  - now rewrite String.eqb_refl.
  - rewrite IH. apply not_eq_sym, String.eqb_neq in Hne. now rewrite Hne.
Qed.

Lemma lookup_fold_insert (l r : row) cs c :
  fold_right (fun c acc => <[c := cell r c]> acc) l cs !! c
  = if existsb (String.eqb c) cs then Some (cell r c) else l !! c.
Proof.
  induction cs as [|c' cs IH]; simpl; [reflexivity|].
  rewrite lookup_insert. destruct (decide (c' = c)) as [->|Hne].
  - now rewrite String.eqb_refl.
  - rewrite IH. apply not_eq_sym, String.eqb_neq in Hne. now rewrite Hne.
Qed.

Lemma unique_keys_partners key states a :
  unique_keys key states -> (length (partners states key a) <= 1)%nat.
Proof.
  unfold unique_keys, partners. generalize (rows states) as l.
  induction l as [|r l IH]; intros Hu; simpl; [lia|].
  assert (IH' : (length (List.filter
             (fun r => value_eqb (cell a "state") (cell r key)) l) <= 1)%nat).
  { apply IH. intros i j ri rj Hi Hj E.
    assert (S i = S j) by (eapply Hu; eauto). lia. }
  destruct (value_eqb (cell a "state") (cell r key)) eqn:Hr; [|exact IH'].
  destruct (List.filter _ l) as [|y k] eqn:E; [simpl; lia|exfalso].
  assert (Hy : In y (List.filter
             (fun r => value_eqb (cell a "state") (cell r key)) l))
    by (rewrite E; now left).
  apply List.filter_In in Hy as [Hy Hmatch].
  apply list_elem_of_In, list_elem_of_lookup in Hy as [j Hj].
  assert (0%nat = S j); [|lia].
  eapply (Hu 0%nat (S j) r y); eauto.
  eapply value_eqb_trans; [|exact Hmatch]. now rewrite value_eqb_sym.
Qed.

Lemma merge_left_rows left states key extra :
  (forall a, In a (rows left) -> (length (partners states key a) <= 1)%nat) ->
  Forall2
    (fun a m : row =>
       match partners states key a with
       | [] => m = a
       | r :: _ =>
           m = fold_right (fun c acc => <[c := cell r c]> acc) a
                 ((if String.eqb "state" key then [] else [key]) ++ extra)
       end)
    (rows left) (rows (Metrics.merge_left left states "state" key extra)).
Proof.
  unfold Metrics.merge_left; simpl. fold (partners states key).
  generalize (rows left) as l. induction l as [|a l IH]; intros Hone; simpl.
  - constructor.
  - specialize (Hone a (or_introl eq_refl)) as Ha.
    assert (IH' := IH (fun b Hb => Hone b (or_intror Hb))).
    unfold partners in *.
    destruct (List.filter _ (rows states)) as [|r [|r' ps]] eqn:E; simpl.
    + constructor; [now rewrite E|exact IH'].
    + constructor; [now rewrite E|exact IH'].
    + simpl in Ha. lia.
Qed.

Lemma has_col_app c l1 l2 rs :
  has_col c (mkDF (l1 ++ l2) rs)
  = existsb (String.eqb c) l1 || existsb (String.eqb c) l2.
Proof. unfold has_col; simpl. apply existsb_app. Qed.

Lemma zip_with_self_map {A B C} (f : A -> B -> C) (g : A -> B) l :
  zip_with f l (map g l) = map (fun x => f x (g x)) l.
Proof. induction l as [|x l IH]; simpl; [reflexivity|now rewrite IH]. Qed.

Lemma enriched_row key states (a m : row) D :
  a !! "golfable_year_round" = None -> a !! "state_name" = None ->
  (length (partners states key a) <= 1)%nat ->
  key = "state" \/ key = "state_name" ->
  existsb (String.eqb "golfable_year_round") D = true ->
  (key = "state_name" -> existsb (String.eqb "state_name") D = true) ->
  (forall c, existsb (String.eqb c) D = true ->
             c = "golfable_year_round" \/ c = "state_name") ->
  match partners states key a with
  | [] => m = a
  | r :: _ =>
      m = fold_right (fun c acc => <[c := cell r c]> acc) a
            ((if String.eqb "state" key then [] else [key])
             ++ ["golfable_year_round"])
  end ->
  enriched key states a
    (fold_right (fun c acc => delete c acc)
       (<["state_golfable" :=
            Metrics.fill0_int (cell m "golfable_year_round")]> m) D).
Proof.
  intros Hg Hs Hone Hkey HD1 HD2 HD3 Hm.
  assert (Hsg : existsb (String.eqb "state_golfable") D = false).
  { destruct (existsb (String.eqb "state_golfable") D) eqn:E; [|reflexivity].
    destruct (HD3 _ E); discriminate. }
  assert (Hlook : forall c, c <> "state_golfable" ->
            existsb (String.eqb c) D = false -> m !! c = a !! c).
  { intros c Hc HcD. destruct (partners states key a) as [|r ps];
      [now subst m|]. subst m. rewrite lookup_fold_insert.
    destruct (existsb (String.eqb c) (_ ++ _)) eqn:E; [exfalso|reflexivity].
    rewrite existsb_app in E. apply orb_true_iff in E as [E|E].
    - destruct Hkey as [->| ->]; simpl in E; [discriminate|].
      rewrite orb_false_r in E. apply String.eqb_eq in E as ->.
      rewrite HD2 in HcD by reflexivity. discriminate.
    - simpl in E. rewrite orb_false_r in E. apply String.eqb_eq in E as ->.
      congruence. }
  split; [|split].
  - intros c Hc. rewrite lookup_fold_delete.
    destruct (existsb (String.eqb c) D) eqn:E.
    + destruct (HD3 c E) as [-> | ->]; congruence.
    + rewrite lookup_insert_ne by congruence. now apply Hlook.
  - intros Hnone. rewrite Hnone in Hm. subst m. unfold cell at 1.
    rewrite lookup_fold_delete, Hsg, lookup_insert_eq. simpl.
    unfold cell. now rewrite Hg.
  - intros s Hin. unfold cell at 1.
    rewrite lookup_fold_delete, Hsg, lookup_insert_eq. simpl.
    destruct (partners states key a) as [|r [|r' ps]];
      [destruct Hin| |simpl in Hone; lia].
    destruct Hin as [<-|[]]. subst m. f_equal. unfold cell at 1.
    rewrite lookup_fold_insert, existsb_app. simpl.
    now rewrite orb_true_r.
Qed.

Lemma has_col_set_column_ne c c' vals df :
  c <> c' -> has_col c' (set_column c vals df) = has_col c' df.
Proof.
  intros Hne. unfold set_column, has_col at 1; simpl.
  destruct (has_col c df); [reflexivity|].
  rewrite existsb_app; simpl. fold (has_col c' df).
  apply not_eq_sym, String.eqb_neq in Hne. rewrite Hne. now rewrite !orb_false_r.
Qed.

Lemma Forall2_map_r_impl {A B C} (P : A -> B -> Prop) (Q : A -> C -> Prop)
    (h : B -> C) l k :
  Forall2 P l k -> (forall x y, In x l -> P x y -> Q x (h y)) ->
  Forall2 Q l (map h k).
Proof.
  induction 1 as [|x y l k Hxy _ IH]; intros Himp; simpl; constructor.
  - apply Himp; [now left|exact Hxy].
  - apply IH. intros x' y' Hin. apply Himp. now right.
Qed.

Lemma join_tail agg states key :
  key = "state" \/ key = "state_name" ->
  (forall a, In a (rows agg) ->
             a !! "golfable_year_round" = None /\ a !! "state_name" = None) ->
  unique_keys key states ->
  let M := Metrics.merge_left agg states "state" key ["golfable_year_round"] in
  let T := set_column "state_golfable"
             (map (fun r => Metrics.fill0_int (cell r "golfable_year_round"))
                (rows M)) M in
  let D := List.filter (fun c => has_col c T)
             ["golfable_year_round"; "state_name"] in
  has_col "golfable_year_round" M = true /\
  Forall2 (enriched key states) (rows agg) (rows (drop_columns D T)).
Proof.
  intros Hkey Hcells Huniq M T D.
  assert (HM1 : has_col "golfable_year_round" M = true).
  { unfold M, Metrics.merge_left. rewrite has_col_app, existsb_app. simpl.
    now rewrite !orb_true_r. }
  assert (HM2 : key = "state_name" -> has_col "state_name" M = true).
  { intros ->. unfold M, Metrics.merge_left. rewrite has_col_app. simpl.
    now rewrite orb_true_r. }
  split; [exact HM1|].
  assert (HD1 : existsb (String.eqb "golfable_year_round") D = true).
  { unfold D. cbn [List.filter]. unfold T.
    rewrite !has_col_set_column_ne by discriminate. rewrite HM1.
    reflexivity. }
  assert (HD2 : key = "state_name" ->
                existsb (String.eqb "state_name") D = true).
  { intros Hk. unfold D. cbn [List.filter]. unfold T.
    rewrite !has_col_set_column_ne by discriminate.
    rewrite HM1, (HM2 Hk). reflexivity. }
  assert (HD3 : forall c, existsb (String.eqb c) D = true ->
                  c = "golfable_year_round" \/ c = "state_name").
  { intros c Hc. apply existsb_exists in Hc as (c' & Hin & Heq).
    apply String.eqb_eq in Heq as <-. unfold D in Hin.
    apply List.filter_In in Hin as [Hin _]. simpl in Hin. intuition. }
  unfold drop_columns; simpl. rewrite zip_with_self_map, map_map.
  eapply Forall2_map_r_impl.
  - apply (merge_left_rows agg states key ["golfable_year_round"]).
    intros a _. now apply unique_keys_partners.
  - intros a m Hin Hm. destruct (Hcells a Hin) as [Hg Hs].
    apply enriched_row; auto. now apply unique_keys_partners.
Qed.

Lemma join_states_rows agg states out :
  Metrics.join_states agg states = Ok out ->
  has_col "golfable_year_round" states = true ->
  has_col "golfable_year_round" agg = false ->
  (forall a, In a (rows agg) ->
             a !! "golfable_year_round" = None /\ a !! "state_name" = None) ->
  let key := if has_col "state" states then "state" else "state_name" in
  unique_keys key states ->
  Forall2 (enriched key states) (rows agg) (rows out).
Proof.
  intros H Hgyr Hagg Hcells key Huniq. unfold Metrics.join_states in H.
  rewrite Hgyr in H. unfold key in *. clear key.
  destruct (has_col "state" agg) eqn:Hsa; simpl in H;
    [|rewrite Hagg in H; discriminate].
  destruct (has_col "state" states) eqn:Hss; simpl in H.
  - destruct (join_tail agg states "state" (or_introl eq_refl) Hcells Huniq)
      as [HM Hall].
    rewrite HM in H. injection H as <-. exact Hall.
  - destruct (has_col "state_name" states);
      [|rewrite Hagg in H; discriminate].
    destruct (join_tail agg states "state_name" (or_intror eq_refl)
                Hcells Huniq) as [HM Hall].
    rewrite HM in H. injection H as <-. exact Hall.
Qed.

Lemma map_flat_map {A B C} (h : B -> C) (f : A -> list B) l :
  map h (flat_map f l) = concat (map (fun a => map h (f a)) l).
Proof.
  induction l as [|a l IH]; simpl; [reflexivity|].
  now rewrite map_app, IH.
Qed.

Lemma joined_rows key states (a : row) D :
  a !! "golfable_year_round" = None -> a !! "state_name" = None ->
  key = "state" \/ key = "state_name" ->
  existsb (String.eqb "golfable_year_round") D = true ->
  (key = "state_name" -> existsb (String.eqb "state_name") D = true) ->
  (forall c, existsb (String.eqb c) D = true ->
             c = "golfable_year_round" \/ c = "state_name") ->
  let added := (if String.eqb "state" key then [] else [key])
               ++ ["golfable_year_round"] in
  let h := fun m : row =>
    fold_right (fun c acc => delete c acc)
      (<["state_golfable" :=
           Metrics.fill0_int (cell m "golfable_year_round")]> m) D in
  joined key states a
    (map h
       match partners states key a with
       | [] => [a]
       | ps => map (fun r : row =>
                      fold_right (fun c acc => <[c := cell r c]> acc) a added)
                 ps
       end).
Proof.
  intros Hg Hs Hkey HD1 HD2 HD3 added h.
  assert (Hsg : existsb (String.eqb "state_golfable") D = false).
  { destruct (existsb (String.eqb "state_golfable") D) eqn:E; [|reflexivity].
    destruct (HD3 _ E); discriminate. }
  assert (Hflag : forall m : row,
    cell (h m) "state_golfable"
    = Metrics.fill0_int (cell m "golfable_year_round")).
  { intros m. unfold h, cell at 1.
    now rewrite lookup_fold_delete, Hsg, lookup_insert_eq. }
  assert (Hcell : forall (m : row) c,
    c <> "state_golfable" ->
    (existsb (String.eqb c) D = false -> m !! c = a !! c) ->
    h m !! c = a !! c).
  { intros m c Hc Hm. unfold h. rewrite lookup_fold_delete.
    destruct (existsb (String.eqb c) D) eqn:E.
    - destruct (HD3 c E) as [-> | ->]; congruence.
    - rewrite lookup_insert_ne by congruence. now apply Hm. }
  assert (Hins : forall (r : row) c,
    existsb (String.eqb c) D = false ->
    fold_right (fun c acc => <[c := cell r c]> acc) a added !! c = a !! c).
  { intros r c HcD. rewrite lookup_fold_insert.
    destruct (existsb (String.eqb c) added) eqn:E; [exfalso|reflexivity].
    unfold added in E. rewrite existsb_app in E.
    apply orb_true_iff in E as [E|E].
    - destruct Hkey as [->| ->]; simpl in E; [discriminate|].
      rewrite orb_false_r in E. apply String.eqb_eq in E as ->.
      rewrite HD2 in HcD by reflexivity. discriminate.
    - simpl in E. rewrite orb_false_r in E. apply String.eqb_eq in E as ->.
      congruence. }
  unfold joined. destruct (partners states key a) as [|r ps] eqn:E.
  - split.
    + intros o [<-|[]] c Hc. now apply Hcell.
    + exists (h a). split; [reflexivity|]. rewrite Hflag. unfold cell.
      now rewrite Hg.
  - split.
    + intros o Ho c Hc. apply in_map_iff in Ho as (m & <- & Hm).
      apply in_map_iff in Hm as (r' & <- & _). apply Hcell; [exact Hc|].
      apply Hins.
    + rewrite !map_map. apply map_ext. intros r'. rewrite Hflag. f_equal.
      unfold cell at 1. rewrite lookup_fold_insert.
      unfold added. rewrite existsb_app. simpl. now rewrite orb_true_r.
Qed.

Lemma join_tail_groups agg states key :
  key = "state" \/ key = "state_name" ->
  (forall a, In a (rows agg) ->
             a !! "golfable_year_round" = None /\ a !! "state_name" = None) ->
  let M := Metrics.merge_left agg states "state" key ["golfable_year_round"] in
  let T := set_column "state_golfable"
             (map (fun r => Metrics.fill0_int (cell r "golfable_year_round"))
                (rows M)) M in
  let D := List.filter (fun c => has_col c T)
             ["golfable_year_round"; "state_name"] in
  has_col "golfable_year_round" M = true /\
  exists groups,
    rows (drop_columns D T) = concat groups /\
    Forall2 (joined key states) (rows agg) groups.
Proof.
  intros Hkey Hcells M T D.
  assert (HM1 : has_col "golfable_year_round" M = true).
  { unfold M, Metrics.merge_left. rewrite has_col_app, existsb_app. simpl.
    now rewrite !orb_true_r. }
  assert (HM2 : key = "state_name" -> has_col "state_name" M = true).
  { intros ->. unfold M, Metrics.merge_left. rewrite has_col_app. simpl.
    now rewrite orb_true_r. }
  assert (HD1 : existsb (String.eqb "golfable_year_round") D = true).
  { unfold D. cbn [List.filter]. unfold T.
    rewrite !has_col_set_column_ne by discriminate. rewrite HM1.
    reflexivity. }
  assert (HD2 : key = "state_name" ->
                existsb (String.eqb "state_name") D = true).
  { intros Hk. unfold D. cbn [List.filter]. unfold T.
    rewrite !has_col_set_column_ne by discriminate.
    rewrite HM1, (HM2 Hk). reflexivity. }
  assert (HD3 : forall c, existsb (String.eqb c) D = true ->
                  c = "golfable_year_round" \/ c = "state_name").
  { intros c Hc. apply existsb_exists in Hc as (c' & Hin & Heq).
    apply String.eqb_eq in Heq as <-. unfold D in Hin.
    apply List.filter_In in Hin as [Hin _]. simpl in Hin. intuition. }
  split; [exact HM1|].
  unfold drop_columns; simpl. rewrite zip_with_self_map, map_map.
  unfold Metrics.merge_left; simpl. fold (partners states key).
  rewrite map_flat_map. eexists. split; [reflexivity|].
  generalize Hcells. generalize (rows agg) as l.
  induction l as [|a l IH]; intros Hl; simpl; constructor.
  - destruct (Hl a (or_introl eq_refl)) as [Hg Hs].
    exact (joined_rows key states a D Hg Hs Hkey HD1 HD2 HD3).
  - apply IH. intros b Hb. apply Hl. now right.
Qed.

Lemma join_states_groups agg states out :
  Metrics.join_states agg states = Ok out ->
  has_col "golfable_year_round" states = true ->
  has_col "golfable_year_round" agg = false ->
  (forall a, In a (rows agg) ->
             a !! "golfable_year_round" = None /\ a !! "state_name" = None) ->
  let key := if has_col "state" states then "state" else "state_name" in
  exists groups,
    rows out = concat groups /\
    Forall2 (joined key states) (rows agg) groups.
Proof.
  intros H Hgyr Hagg Hcells key. unfold Metrics.join_states in H.
  rewrite Hgyr in H. unfold key in *. clear key.
  destruct (has_col "state" agg) eqn:Hsa; simpl in H;
    [|rewrite Hagg in H; discriminate].
  destruct (has_col "state" states) eqn:Hss; simpl in H.
  - destruct (join_tail_groups agg states "state" (or_introl eq_refl) Hcells)
      as [HM Hall].
    rewrite HM in H. injection H as <-. exact Hall.
  - destruct (has_col "state_name" states);
      [|rewrite Hagg in H; discriminate].
    destruct (join_tail_groups agg states "state_name" (or_intror eq_refl)
                Hcells) as [HM Hall].
    rewrite HM in H. injection H as <-. exact Hall.
Qed.

(** ** Enrichment *)

(** C5, as the code has it.  Without a reference (none given, an empty
    path, or a path that does not exist), and also when the reference has no
    flag column, the stage returns the aggregate as it is, and the aggregate
    has no [state_golfable] column.  With a reference, whatever it holds, no
    row of the aggregate is dropped: in the order of the aggregate, every
    row comes out with the cells it had plus a [state_golfable] cell, once
    with 0 when no reference row matches its state, and otherwise once for
    each matching reference row, with that row's flag.  So where no two
    reference rows carry the same state, the output has exactly one row for
    each row of the aggregate. *)
Theorem enrichment_keeps_region_rows (np : numpy) files df csv out :
  Metrics.region_table np files df csv = Ok out ->
  exists agg,
    (Metrics.dedup_courses np df ≫= Metrics.aggregate) = Ok agg /\
    has_col "state_golfable" agg = false /\
    match csv with
    | None => out = agg
    | Some path =>
        (path = "" \/ files !! path = None -> out = agg) /\
        forall states,
          path <> "" -> is_Some (files !! path) ->
          Metrics.read_states files path = Ok states ->
          (has_col "golfable_year_round" states = false -> out = agg) /\
          (has_col "golfable_year_round" states = true ->
           let key := if has_col "state" states then "state"
                      else "state_name" in
           (exists groups,
              rows out = concat groups /\
              Forall2 (joined key states) (rows agg) groups) /\
           (unique_keys key states ->
            Forall2 (enriched key states) (rows agg) (rows out)))
    end.
Proof.
  unfold Metrics.region_table. intros H.
  apply bind_Ok in H as (d & Hd & H). apply bind_Ok in H as (agg & Hagg & H).
  exists agg. split; [apply bind_Ok; eauto|].
  split; [eapply aggregate_columns; [eauto|simpl; auto]|].
  destruct csv as [path|]; [|now injection H as <-].
  unfold Metrics.enrich in H. split.
  - intros [-> | Hnone].
    + simpl in H. now injection H as <-.
    + rewrite Hnone in H. rewrite bool_decide_eq_false_2 in H
        by (intros [? ?]; discriminate).
      rewrite andb_false_r in H. now injection H as <-.
  - intros states Hne Hsome Hread.
    apply String.eqb_neq in Hne. rewrite Hne in H.
    rewrite bool_decide_eq_true_2 in H by exact Hsome. simpl in H.
    rewrite Hread in H. simpl in H. split.
    + intros Hno. unfold Metrics.join_states in H. rewrite Hno in H.
      now injection H as <-.
    + intros Hyes. cbv zeta.
      assert (Hcol : has_col "golfable_year_round" agg = false)
        by (eapply aggregate_columns; [eauto|simpl; auto]).
      assert (Hcells : forall a, In a (rows agg) ->
                a !! "golfable_year_round" = None /\ a !! "state_name" = None).
      { intros a Ha. split; eapply aggregate_cells; eauto; simpl; auto. }
      split.
      * now apply join_states_groups.
      * intros Huniq. now apply join_states_rows.
Qed.

(** C5, as the spec has it, fails: a reference that lists a state twice
    makes the join return that state's region twice. *)
Lemma repeated_state_repeats_region :
  exists agg out,
    (Metrics.dedup_courses short_arrays Sample.courses ≫= Metrics.aggregate)
    = Ok agg /\
    Metrics.region_table short_arrays Sample.disk_states_twice Sample.courses
      (Some "data/states.csv") = Ok out /\
    map (fun r => (cell r "city", cell r "state")) (rows agg)
    = [(VStr "Austin", VStr "TX"); (VStr "Boise", VStr "ID")] /\
    map (fun r => (cell r "city", cell r "state", cell r "state_golfable"))
      (rows out)
    = [(VStr "Austin", VStr "TX", VNum 1); (VStr "Austin", VStr "TX", VNum 0);
       (VStr "Boise", VStr "ID", VNum 0)].
Proof.
  eexists. eexists.
  split; [vm_compute; reflexivity|].
  split; [vm_compute; reflexivity|].
  split; vm_compute; reflexivity.
Qed.

(** ** Deduplication *)

(** Both deduplications keep one record per identity: of the rows with a
    given key, the last one in the order the table is in when
    [drop_duplicates] runs. *)
Lemma drop_duplicates_one_per_identity c df out v :
  drop_duplicates c df = Ok out ->
  existsb (fun r => value_eqb (cell r c) v) (rows df) = true ->
  List.filter (fun r => value_eqb (cell r c) v) (rows out)
  = option_list (last (List.filter (fun r => value_eqb (cell r c) v) (rows df)))
  /\ length (List.filter (fun r => value_eqb (cell r c) v) (rows out)) = 1%nat.
Proof.
  unfold drop_duplicates. destruct (has_col c df); [|discriminate].
  intros [= <-] Hex. simpl. split.
  - apply keep_last_survivor.
  - now apply keep_last_one.
Qed.

(** consolidate_data.py sorts by the key alone, so the timestamps play no
    part: where numpy's sort leaves equal keys in place, the survivor is the
    last record with that key in the order the captures were read. *)
Lemma consolidate_survivor_is_last_read (np : numpy) key (l : list row) v :
  stable np ->
  List.filter (fun r => value_eqb (cell r key) v)
    (keep_last key (nargsort np key true l))
  = option_list (last (List.filter (fun r => value_eqb (cell r key) v) l)).
Proof.
  intros Hst. rewrite keep_last_survivor. do 2 f_equal.
  apply nargsort_filter; [exact Hst|]. intros x y _ _ Hx Hy.
  rewrite value_eqb_sym in Hy. eapply value_eqb_trans; eauto.
Qed.

(** Nor does any numpy look at them: rewrite the other cells of the records
    at will, and the records at the same places survive. *)
Lemma nargsort_map (np : numpy) c asc (g : row -> row) (l : list row) :
  (forall r, cell (g r) c = cell r c) ->
  nargsort np c asc (map g l) = map g (nargsort np c asc l).
Proof.
  intros Hg. unfold nargsort.
  assert (Hf : forall (p : value -> bool) k,
    List.filter (fun r => p (cell r c)) (map g k)
    = map g (List.filter (fun r => p (cell r c)) k)).
  { intros p k. induction k as [|r k IH]; simpl; [reflexivity|].
    rewrite Hg. destruct (p (cell r c)); simpl; now rewrite IH. }
  assert (Hk : forall k : list row,
    map (fun r => cell r c) (map g k) = map (fun r => cell r c) k).
  { intros k. rewrite map_map. apply map_ext. intros r. apply Hg. }
  rewrite (Hf (fun v => negb (is_null v))), (Hf is_null), map_app. f_equal.
  destruct asc.
  - rewrite Hk. apply take_map.
  - rewrite <- List.map_rev, Hk, take_map. symmetry. apply List.map_rev.
Qed.

Lemma keep_last_map c (g : row -> row) (l : list row) :
  (forall r, cell (g r) c = cell r c) ->
  keep_last c (map g l) = map g (keep_last c l).
Proof.
  intros Hg.
  assert (He : forall v k,
    existsb (fun r' => value_eqb (cell r' c) v) (map g k)
    = existsb (fun r' => value_eqb (cell r' c) v) k).
  { intros v k. induction k as [|r k IH]; simpl; [reflexivity|].
    now rewrite Hg, IH. }
  induction l as [|r l IH]; simpl; [reflexivity|].
  rewrite Hg, He.
  destruct (existsb _ l); simpl; now rewrite IH.
Qed.

(** The deduplication of consolidate_data.py reads nothing but the key:
    rewrite the other cells of the records at will, the timestamps among
    them, and the records at the same places survive. *)
Lemma consolidate_dedup_blind (np : numpy) key (g : row -> row) l :
  (forall r, cell (g r) key = cell r key) ->
  keep_last key (nargsort np key true (map g l))
  = map g (keep_last key (nargsort np key true l)).
Proof.
  intros Hg. rewrite nargsort_map by exact Hg. now apply keep_last_map.
Qed.

(** C1 fails on the code, at both places that deduplicate.
    consolidate_data.py: course C1 was captured in June (fee 35, page 0) and
    in January (fee 40, page 100); the January record survives, because it
    was read last.  compute_city_metrics.py: of two records of C1 the one
    whose timestamp is null survives, because nulls sort last. *)
Theorem dedup_keeps_stale_record :
  (forall pn pd,
      exists df,
        fs (fst (Consolidate.main pn pd short_arrays Sample.quiet_os
                   Sample.consolidate_args (mkWorld Sample.raw_disk [])))
          !! "data/processed/teeradar_courses.parquet"
        = Some (FTable Parquet df) /\
        map (fun r => (cell r "course_id", cell r "tee_fee",
                       cell r "_raw_file", cell r "_fetched_at")) (rows df)
        = [(VStr "C1", VNum 40, VStr "teeradar_page_100.json",
            Consolidate.to_datetime pd (VStr "2024-01-01T08:00:00Z"))]) /\
  (exists d,
      Metrics.dedup_courses short_arrays Sample.courses_null_stamp = Ok d /\
      map (fun r => (cell r "course_id", cell r "tee_fee",
                     cell r "_fetched_at")) (rows d)
      = [(VStr "C1", VNum 40, VNull)]).
Proof.
  split.
  - intros pn pd. eexists. split; vm_compute; reflexivity.
  - eexists. split; vm_compute; reflexivity.
Qed.

(** ** Scores without data *)

(** C3 fails on the code when a metric column holds no value at all: no
    course is rated, the [avg_rating] column of the aggregate is all null,
    its mean is null, nothing is filled in, and every score is NaN, although
    two metrics are active. *)
Theorem unrated_courses_leave_no_score :
  exists agg out,
    Metrics.region_table short_arrays ∅ Sample.courses_unrated None
    = Ok agg /\
    active_metrics None agg = ["avg_rating"; "num_golf_courses"] /\
    Metrics.compute_metrics short_arrays ∅ Sample.courses_unrated None None
    = Ok out /\
    map (fun r => (cell r "city", cell r "score")) (rows out)
    = [(VStr "Austin", VNull); (VStr "Boise", VNull)].
Proof.
  eexists. eexists.
  split; [vm_compute; reflexivity|].
  split; [vm_compute; reflexivity|].
  split; vm_compute; reflexivity.
Qed.

(** C6 fails on the code for the same reason: the scaled [avg_rating]
    column of the unrated courses is NaN in every region, not a number in
    [0, 1].  A column that holds a value is scaled as the claim says, see
    [min_max_column_values] and [min_max_value_spec]. *)
Theorem unrated_column_scales_to_nan :
  exists agg m,
    Metrics.region_table short_arrays ∅ Sample.courses_unrated None
    = Ok agg /\
    Metrics.scaled_matrix agg = Ok m /\
    map fst m = ["avg_rating"; "num_golf_courses"] /\
    nth 0 (map snd m) [] = [None; None].
Proof.
  eexists. eexists.
  split; [vm_compute; reflexivity|].
  split; [vm_compute; reflexivity|].
  split; vm_compute; reflexivity.
Qed.

(** ** Writes in place *)

(** C4 fails on the code for the region metrics: the disk holds last week's
    CSV export; the run computes the new table, the write of the export
    breaks, and the destination is left broken, last week's file gone. *)
Theorem failed_export_destroys_previous_file :
  Sample.disk_with_outputs !! "outputs/city_golf_metrics.csv"
  = Some (FTable Csv Sample.last_week) /\
  snd (Metrics.main short_arrays Sample.csv_write_breaks Sample.metrics_args
         (mkWorld Sample.disk_with_outputs []))
  = Err (OSError "outputs/city_golf_metrics.csv") /\
  fs (fst (Metrics.main short_arrays Sample.csv_write_breaks Sample.metrics_args
             (mkWorld Sample.disk_with_outputs [])))
    !! "outputs/city_golf_metrics.csv"
  = Some FBroken.
Proof. repeat split; vm_compute; reflexivity. Qed.

(** ** Reading order *)

Lemma string_leb_iff s t :
  String.leb s t = true <-> s = t \/ String_as_OT.lt s t.
Proof.
  unfold String.leb.
  pose proof (String_as_OT.cmp_eq s t) as He.
  pose proof (String_as_OT.cmp_lt s t) as Hl.
  unfold String_as_OT.cmp in *.
  destruct (String.compare s t); split; intros H; try discriminate; auto.
  - left. now apply He.
  - right. now apply Hl.
  - destruct H as [H|H]; [apply He in H|apply Hl in H]; discriminate.
Qed.

Lemma string_leb_trans s t u :
  String.leb s t = true -> String.leb t u = true -> String.leb s u = true.
Proof.
  rewrite !string_leb_iff. intros [->|H1] [->|H2]; auto.
  right. eapply String_as_OT.lt_trans; eauto.
Qed.







(** ** Written files *)

Lemma when_set_skip po k w :
  po = None \/ po = Some "" -> Consolidate.when_set po k w = (w, Ok tt).
Proof. intros [-> | ->]; reflexivity. Qed.

Lemma when_set_run p k w :
  p <> "" -> Consolidate.when_set (Some p) k w = k p w.
Proof.
  intros Hne. unfold Consolidate.when_set.
  apply String.eqb_neq in Hne. now rewrite Hne.
Qed.

Lemma option_path_cases (po : option string) :
  (po = None \/ po = Some "") \/ exists p, po = Some p /\ p <> "".
Proof.
  destruct po as [p|]; [|now left; left].
  destruct (string_dec p "") as [->|Hne]; [now left; right|right; eauto].
Qed.







Lemma dedup_run (np : numpy) pd key df w1 w2 :
  snd (Consolidate.dedup pd np key df w1)
  = snd (Consolidate.dedup pd np key df w2) /\
  fs (fst (Consolidate.dedup pd np key df w1)) = fs w1.
Proof.
  unfold Consolidate.dedup. destruct (has_col key df); [|now split].
  unfold mbind, io_bind, lift, print, mret, io_ret.
  match goal with
  | |- context [if ?b then ?x else ?y] => destruct (if b then x else y)
  end; simpl; now split.
Qed.





(** ** Min-max scaling of a column that holds values *)

Lemma Qmin_le_l a b : (Qmin a b <= a)%Q.
Proof.
  unfold Qmin. destruct (Qle_bool a b) eqn:E; [apply Qle_refl|].
  destruct (Qlt_le_dec b a) as [H|H]; [now apply Qlt_le_weak|].
  apply Qle_bool_iff in H. congruence.
Qed.

Lemma Qmin_le_r a b : (Qmin a b <= b)%Q.
Proof.
  unfold Qmin. destruct (Qle_bool a b) eqn:E; [|apply Qle_refl].
  now apply Qle_bool_iff.
Qed.

Lemma Qmax_ge_l a b : (a <= Qmax a b)%Q.
Proof.
  unfold Qmax. destruct (Qle_bool a b) eqn:E; [|apply Qle_refl].
  now apply Qle_bool_iff.
Qed.

Lemma Qmax_ge_r a b : (b <= Qmax a b)%Q.
Proof.
  unfold Qmax. destruct (Qle_bool a b) eqn:E; [apply Qle_refl|].
  destruct (Qlt_le_dec b a) as [H|H]; [now apply Qlt_le_weak|].
  apply Qle_bool_iff in H. congruence.
Qed.

Lemma fold_Qmin_le l a :
  (fold_left Qmin l a <= a)%Q /\
  List.Forall (fun x => fold_left Qmin l a <= x)%Q l.
Proof.
  revert a. induction l as [|x l IH]; intros a; simpl.
  - split; [apply Qle_refl|constructor].
  - destruct (IH (Qmin a x)) as [H1 H2]. split.
    + eapply Qle_trans; [exact H1|apply Qmin_le_l].
    + constructor; [|exact H2].
      eapply Qle_trans; [exact H1|apply Qmin_le_r].
Qed.

Lemma fold_Qmax_ge l a :
  (a <= fold_left Qmax l a)%Q /\
  List.Forall (fun x => x <= fold_left Qmax l a)%Q l.
Proof.
  revert a. induction l as [|x l IH]; intros a; simpl.
  - split; [apply Qle_refl|constructor].
  - destruct (IH (Qmax a x)) as [H1 H2]. split.
    + eapply Qle_trans; [apply Qmax_ge_l|exact H1].
    + constructor; [|exact H2].
      eapply Qle_trans; [apply Qmax_ge_r|exact H1].
Qed.

Lemma dropna_Some qs : dropna (map Some qs) = qs.
Proof.
  unfold dropna. induction qs as [|q qs IH]; [reflexivity|].
  cbn. f_equal. exact IH.
Qed.

(** The minimum and maximum of a column without NaN bound its values. *)
Lemma nanmin_nanmax_bounds q qs :
  exists lo hi,
    nanmin (map Some (q :: qs)) = Some lo /\
    nanmax (map Some (q :: qs)) = Some hi /\
    List.Forall (fun x => lo <= x /\ x <= hi)%Q (q :: qs).
Proof.
  unfold nanmin, nanmax. rewrite dropna_Some.
  destruct (fold_Qmin_le qs q) as [L1 L2].
  destruct (fold_Qmax_ge qs q) as [U1 U2].
  eexists. eexists. split; [reflexivity|]. split; [reflexivity|].
  constructor; [now split|].
  rewrite List.Forall_forall in *. intros x Hx. split; auto.
Qed.

Lemma min_max_value_spec lo hi x :
  (lo <= x)%Q -> (x <= hi)%Q ->
  (0 <= min_max_value lo hi x <= 1)%Q /\
  (hi - lo == 0 -> min_max_value lo hi x == 0)%Q /\
  (~ hi - lo == 0 -> min_max_value lo hi x == (x - lo) / (hi - lo))%Q.
Proof.
  intros Hlo Hhi. unfold min_max_value.
  destruct (Qeq_bool (hi - lo) 0) eqn:E.
  - apply Qeq_bool_iff in E.
    assert (Hx : (x == lo)%Q) by lra.
    assert (Hv : (x * (1 / 1) + (0 - lo * (1 / 1)) == 0)%Q)
      by (rewrite Hx; field).
    split; [rewrite Hv; lra|]. split; [auto|]. intros Hne. contradiction.
  - apply Qeq_bool_neq in E.
    assert (Hpos : (0 < hi - lo)%Q) by lra.
    assert (Hv : (x * (1 / (hi - lo)) + (0 - lo * (1 / (hi - lo)))
                  == (x - lo) / (hi - lo))%Q) by (field; exact E).
    split; [|split; [intros H; contradiction|intros _; exact Hv]].
    rewrite Hv. split.
    + apply Qle_shift_div_l; [exact Hpos|lra].
    + apply Qle_shift_div_r; [exact Hpos|lra].
Qed.

Lemma min_max_column_values q qs :
  exists lo hi,
    nanmin (map Some (q :: qs)) = Some lo /\
    nanmax (map Some (q :: qs)) = Some hi /\
    List.Forall (fun x => lo <= x /\ x <= hi)%Q (q :: qs) /\
    Metrics.min_max_column (map Some (q :: qs))
    = map (fun x => Some (min_max_value lo hi x)) (q :: qs).
Proof.
  destruct (nanmin_nanmax_bounds q qs) as (lo & hi & Hmin & Hmax & Hb).
  exists lo, hi. split; [exact Hmin|]. split; [exact Hmax|].
  split; [exact Hb|].
  unfold Metrics.min_max_column. rewrite Hmin, Hmax. simpl fsub.
  unfold Metrics.handle_zeros, min_max_value.
  rewrite map_map. apply map_ext. intros x.
  destruct (Qeq_bool (hi - lo) 0); reflexivity.
Qed.

(** ** The weights in the score *)

Lemma to_matrix_columns cols agg m :
  Metrics.to_matrix cols agg = Ok m ->
  Forall2 (fun c cx =>
             fst cx = c /\
             mapM (fun r => to_float (cell r c)) (rows agg) = Ok (snd cx))
    cols m.
Proof.
  unfold Metrics.to_matrix. intros H. apply mapM_Forall2 in H.
  eapply Forall2_impl; [exact H|]. intros c cx Hc. simpl in Hc.
  apply bind_Ok in Hc as (xs & Hxs & Hc). injection Hc as <-. now split.
Qed.

Lemma add_score_cases weights agg scored :
  Metrics.add_score weights agg = Ok scored ->
  let w := Metrics.keep_available (Metrics.score_cols agg)
             (default Metrics.default_weights weights) in
  (Metrics.score_cols agg = [] /\
   scored = set_column "score"
              (map of_float (map (fun _ : row => Some 0%Q) (rows agg))) agg) \/
  (exists scaled,
      Metrics.scaled_matrix agg = Ok scaled /\
      scored = set_column "score"
                 (map of_float
                    (Metrics.weighted_sum w (Metrics.total_weight w)
                       (length (rows agg)) scaled)) agg).
Proof.
  unfold Metrics.add_score. intros H. cbv zeta.
  destruct (Metrics.score_cols agg) as [|c0 cs] eqn:Hcols.
  - left. split; [reflexivity|]. injection H as <-. now rewrite map_map.
  - right. apply bind_Ok in H as (scaled & Hscaled & H). injection H as <-.
    exists scaled. now split.
Qed.

Lemma scaled_matrix_names agg scaled :
  Metrics.scaled_matrix agg = Ok scaled ->
  map fst scaled = Metrics.score_cols agg.
Proof.
  unfold Metrics.scaled_matrix. intros H.
  apply bind_Ok in H as (m & Hm & H).
  apply to_matrix_columns in Hm. unfold Metrics.fit_transform in H.
  destruct (length (rows agg)); [discriminate|]. injection H as <-.
  unfold Metrics.fill_mean, Metrics.invert. rewrite !map_map.
  induction Hm as [|c cx cols m [Hfst _] _ IH]; simpl; [reflexivity|].
  f_equal; [|exact IH]. now destruct (existsb _ _).
Qed.

Lemma lookup_repeat {A} (x : A) n i : (i < n)%nat -> repeat x n !! i = Some x.
Proof.
  revert i. induction n as [|n IH]; intros [|i] Hi; simpl; try lia; auto.
  apply IH. lia.
Qed.

(** One score is the sum, down the columns, of scaled value times weight. *)
Lemma weighted_sum_lookup w total n (scaled : list (string * list (option Q)))
    i :
  List.Forall (fun cx => length (snd cx) = n) scaled -> (i < n)%nat ->
  Metrics.weighted_sum w total n scaled !! i
  = Some (fold_left
            (fun acc cx =>
               fadd acc
                 (fmul (default None (snd cx !! i))
                    (Some (Metrics.applied_weight w total (fst cx)))))
            scaled (Some 0%Q)).
Proof.
  intros Hl Hi. unfold Metrics.weighted_sum.
  assert (Hgen : forall (acc : list (option Q)) a,
    acc !! i = Some a ->
    fold_left
      (fun score cx =>
         zip_with fadd score
           (map (fun x => fmul x (Some (Metrics.applied_weight w total (fst cx))))
              (snd cx)))
      scaled acc !! i
    = Some (fold_left
              (fun acc cx =>
                 fadd acc
                   (fmul (default None (snd cx !! i))
                      (Some (Metrics.applied_weight w total (fst cx)))))
              scaled a)).
  { induction Hl as [|cx scaled Hcx _ IH]; intros acc a Ha; simpl;
      [exact Ha|].
    apply IH. rewrite lookup_zip_with, Ha. simpl.
    change (map ?f ?l) with (f <$> l). rewrite list_lookup_fmap.
    destruct (snd cx !! i) as [x|] eqn:E; [reflexivity|].
    apply lookup_ge_None in E. lia. }
  apply Hgen. now apply lookup_repeat.
Qed.

Lemma fold_fadd_nan {A} (g : A -> option Q) l :
  fold_left (fun acc c => fadd acc (g c)) l None = None.
Proof. induction l as [|c l IH]; simpl; auto. Qed.

Lemma fold_weighted {A} (xf : A -> option Q) (wf : A -> Q) l a :
  match all_numbers (map xf l) with
  | Some qs =>
      exists s,
        fold_left (fun acc c => fadd acc (fmul (xf c) (Some (wf c)))) l
          (Some a) = Some s /\
        (s == a + Qsum (zip_with Qmult qs (map wf l)))%Q
  | None =>
      fold_left (fun acc c => fadd acc (fmul (xf c) (Some (wf c)))) l
        (Some a) = None
  end.
Proof.
  revert a. induction l as [|c l IH]; intros a; simpl.
  - exists a. split; [reflexivity|ring].
  - destruct (xf c) as [x|]; simpl.
    + specialize (IH (a + x * wf c)%Q).
      destruct (all_numbers (map xf l)) as [qs|]; [|exact IH].
      destruct IH as (s & -> & Hs). exists s. split; [reflexivity|].
      simpl. rewrite Hs. ring.
    + apply (fold_fadd_nan (fun c => fmul (xf c) (Some (wf c)))).
Qed.

Lemma Qsum_zip_ext qs ws ws' :
  Forall2 Qeq ws ws' ->
  (Qsum (zip_with Qmult qs ws) == Qsum (zip_with Qmult qs ws'))%Q.
Proof.
  intros H. revert qs.
  induction H as [|w w' ws ws' Hw _ IH]; intros [|q qs]; simpl;
    try reflexivity.
  now rewrite Hw, IH.
Qed.

Lemma Qsum_filter_if {A} (f : A -> Q) (p : A -> bool) l :
  (Qsum (map f (List.filter p l))
   == Qsum (map (fun x => if p x then f x else 0) l))%Q.
Proof.
  induction l as [|x l IH]; simpl; [reflexivity|].
  destruct (p x); simpl; rewrite IH; [reflexivity|ring].
Qed.

Lemma metric_name_known c :
  In c Metrics.metric_names ->
  existsb (String.eqb c) Metrics.metric_names = true.
Proof.
  intros H. apply existsb_exists. exists c. split; [exact H|].
  apply String.eqb_refl.
Qed.

(** C7.  The metrics that take part in a score are those of the six that
    are columns of the aggregate and have a weight that is not zero.  The
    weight of a metric that is no column is dropped before the total is
    taken: whatever it is, the scores are the same.  With non-negative
    weights and at least one active metric, the shares of the active metrics
    add up to 1, and so do the shares of all six; and the score [add_score]
    gives a region is the sum, over the metric columns, of the scaled value
    times that share (NaN when a scaled value is NaN).  Sums and shares are
    those of exact arithmetic, which the floats of the program follow up to
    rounding. *)
Theorem renormalized_weights_sum_to_one weights agg scored :
  Metrics.add_score weights agg = Ok scored ->
  (forall k v, default Metrics.default_weights weights !! k = Some v ->
               (0 <= v)%Q) ->
  active_metrics weights agg <> [] ->
  let w0 := default Metrics.default_weights weights in
  (forall c, In c (active_metrics weights agg) <->
             In c Metrics.metric_names /\ has_col c agg = true /\
             ~ (default 0 (w0 !! c) == 0)%Q) /\
  (Qsum (map (share w0 agg) (active_metrics weights agg)) == 1)%Q /\
  (Qsum (map (share w0 agg) Metrics.metric_names) == 1)%Q /\
  (forall w1 : gmap string Q,
     (forall c, In c Metrics.metric_names -> has_col c agg = true ->
                w1 !! c = w0 !! c) ->
     Metrics.add_score (Some w1) agg = Ok scored) /\
  exists scaled,
    Metrics.scaled_matrix agg = Ok scaled /\
    map fst scaled
    = List.filter (fun c => has_col c agg) Metrics.metric_names /\
    forall i r,
      rows scored !! i = Some r ->
      is_float (cell r "score")
        (weighted (map (fun cx => default None (snd cx !! i)) scaled)
           (map (fun cx => share w0 agg (fst cx)) scaled)).
Proof.
  intros H Hpos Hact w0.
  set (cols := Metrics.score_cols agg).
  set (w := Metrics.keep_available cols w0).
  set (total := Metrics.total_weight w).
  set (T := Qsum (map (present_weight w0 agg) Metrics.metric_names)).
  assert (Hcols : forall c, In c cols <->
            In c Metrics.metric_names /\ has_col c agg = true).
  { intros c. unfold cols, Metrics.score_cols. apply List.filter_In. }
  assert (Hw : forall c, In c cols -> w !! c = w0 !! c).
  { intros c Hc. unfold w. rewrite keep_available_lookup.
    replace (existsb (String.eqb c) cols) with true; [reflexivity|].
    symmetry. apply existsb_exists. exists c. split; [exact Hc|].
    apply String.eqb_refl. }
  assert (Hdrop : forall k, ~ In k cols -> w !! k = None).
  { intros k Hk. unfold w. rewrite keep_available_lookup.
    destruct (existsb (String.eqb k) cols) eqn:E; [|reflexivity].
    apply existsb_exists in E as (k' & Hin & Heq).
    apply String.eqb_eq in Heq as <-. contradiction. }
  assert (Hsum : (Qsum (map (fun c => default 0%Q (w !! c)) cols)
                  == Metrics.weight_sum w)%Q).
  { apply weight_sum_keys; [apply List.NoDup_filter, NoDup_metric_names|].
    intros k Hk.
    destruct (in_dec string_dec k cols) as [Hin|Hin]; [exact Hin|].
    rewrite (Hdrop k Hin) in Hk. now destruct Hk. }
  assert (HT : (T == Metrics.weight_sum w)%Q).
  { rewrite <- Hsum.
    rewrite (map_ext_in _ (fun c => default 0%Q (w0 !! c)) cols)
      by (intros c Hc; now rewrite Hw).
    unfold cols, Metrics.score_cols. rewrite Qsum_filter_if. reflexivity. }
  assert (Hact_iff : forall c, In c (active_metrics weights agg) <->
            In c Metrics.metric_names /\ has_col c agg = true /\
            ~ (default 0 (w0 !! c) == 0)%Q).
  { intros c. unfold active_metrics. fold w0 cols.
    rewrite List.filter_In, Hcols, negb_true_iff.
    split.
    - intros [[? ?] E]. repeat split; auto. now apply Qeq_bool_neq.
    - intros (? & ? & E). repeat split; auto.
      destruct (Qeq_bool (default 0%Q (w0 !! c)) 0) eqn:E'; [|reflexivity].
      apply Qeq_bool_iff in E'. contradiction. }
  assert (HTpos : (0 < T)%Q).
  { destruct (active_metrics weights agg) as [|c rest] eqn:E; [congruence|].
    assert (Hc : In c (c :: rest)) by now left.
    apply Hact_iff in Hc as (Hn & Hh & Hnz).
    assert (H0 : (0 <= default 0%Q (w0 !! c))%Q)
      by (destruct (w0 !! c) eqn:E'; simpl; [eauto|apply Qle_refl]).
    apply Qlt_le_trans with (default 0%Q (w0 !! c)).
    - apply Qle_lteq in H0 as [H0|H0]; [exact H0|]. symmetry in H0.
      contradiction.
    - unfold T. apply Qsum_ge_elem.
      + apply List.Forall_forall. intros q Hq.
        apply in_map_iff in Hq as (k & <- & _). unfold present_weight.
        destruct (has_col k agg); [|apply Qle_refl].
        destruct (w0 !! k) eqn:E'; simpl; [eauto|apply Qle_refl].
      + apply in_map_iff. exists c. split; [|exact Hn].
        unfold present_weight. now rewrite Hh. }
  assert (Htotal : (total == T)%Q).
  { unfold total, Metrics.total_weight.
    destruct (Qeq_bool (Metrics.weight_sum w) 0) eqn:E.
    - apply Qeq_bool_iff in E. rewrite HT, E in HTpos.
      now apply Qlt_irrefl in HTpos.
    - now rewrite HT. }
  assert (Hzero : forall c, (present_weight w0 agg c == 0)%Q ->
                            (share w0 agg c == 0)%Q).
  { intros c Hc. unfold share. fold T.
    destruct (existsb _ _); [|reflexivity]. rewrite Hc. unfold Qdiv. ring. }
  assert (Hall : (Qsum (map (share w0 agg) Metrics.metric_names) == 1)%Q).
  { rewrite (map_ext_in _ (fun c => (present_weight w0 agg c / T)%Q)).
    - rewrite (Qsum_map_scale (present_weight w0 agg) T). fold T.
      field. intros E. rewrite E in HTpos. now apply Qlt_irrefl in HTpos.
    - intros c Hc. unfold share. now rewrite metric_name_known. }
  assert (Happ : forall c, In c cols ->
            (Metrics.applied_weight w total c == share w0 agg c)%Q).
  { intros c Hc. unfold Metrics.applied_weight, share. fold T.
    rewrite (Hw c Hc). apply Hcols in Hc as [Hn Hh].
    rewrite (metric_name_known c Hn). unfold present_weight. rewrite Hh.
    now rewrite Htotal. }
  split; [exact Hact_iff|]. split; [|split; [exact Hall|split]].
  - rewrite <- Hall. unfold active_metrics. fold w0 cols.
    rewrite Qsum_filter_nonzero.
    + unfold cols, Metrics.score_cols. apply Qsum_filter_nonzero.
      intros c Hc. apply Hzero. unfold present_weight. now rewrite Hc.
    + intros c Hc. apply negb_false_iff, Qeq_bool_iff in Hc.
      apply Hzero. unfold present_weight.
      destruct (has_col c agg); [exact Hc|reflexivity].
  - intros w1 Hw1. rewrite <- H. unfold Metrics.add_score. fold cols.
    replace (Metrics.keep_available cols (default Metrics.default_weights
                                            (Some w1)))
      with (Metrics.keep_available cols
              (default Metrics.default_weights weights)); [reflexivity|].
    apply map_eq. intros c. rewrite !keep_available_lookup.
    destruct (existsb (String.eqb c) cols) eqn:E; [|reflexivity].
    apply existsb_exists in E as (c' & Hc & E).
    apply String.eqb_eq in E as <-. apply Hcols in Hc as [Hn Hh].
    symmetry. now apply Hw1.
  - apply add_score_cases in H. cbv zeta in H. fold cols w0 w total in H.
    destruct H as [[Hnone _]|(scaled & Hscaled & ->)].
    { exfalso. apply Hact. unfold active_metrics. fold cols.
      now rewrite Hnone. }
    pose proof (scaled_matrix_names agg scaled Hscaled) as Hnames.
    pose proof (scaled_matrix_lengths agg scaled Hscaled) as Hlen.
    exists scaled. split; [exact Hscaled|]. split; [exact Hnames|].
    intros i r Hi.
    apply set_column_lookup in Hi as (r0 & v & Hr0 & Hv & ->).
    rewrite cell_insert_eq.
    change (map of_float ?l) with (of_float <$> l) in Hv.
    apply list_lookup_fmap_Some in Hv as (y & -> & Hy).
    rewrite (weighted_sum_lookup w total _ scaled i Hlen) in Hy
      by (eapply lookup_lt_Some; eauto).
    injection Hy as <-.
    pose proof (fold_weighted
                  (fun cx : string * list (option Q) =>
                     default None (snd cx !! i))
                  (fun cx => Metrics.applied_weight w total (fst cx))
                  scaled 0%Q) as Hf.
    unfold weighted.
    destruct (all_numbers
                (map (fun cx : string * list (option Q) =>
                        default None (snd cx !! i)) scaled)) as [qs|].
    + destruct Hf as (s & -> & Hs). exists s. split; [reflexivity|].
      rewrite Hs, Qplus_0_l. apply Qsum_zip_ext.
      assert (Hin : forall cx, In cx scaled -> In (fst cx) cols).
      { intros cx Hcx. fold cols in Hnames. rewrite <- Hnames.
        now apply in_map. }
      clear -Hin Happ. induction scaled as [|cx scaled IH]; simpl;
        constructor.
      * apply Happ, Hin. now left.
      * apply IH. intros cx' Hcx'. apply Hin. now right.
    + rewrite Hf. reflexivity.
Qed.

(** ** compute_city_metrics.py: which duplicate survives *)

Lemma value_leb_total v0 a b :
  is_null v0 = false -> same_kind v0 a = true -> same_kind v0 b = true ->
  value_leb a b = true \/ value_leb b a = true.
Proof.
  destruct v0, a, b; simpl; try discriminate; intros _ _ _.
  - rewrite !Qle_bool_iff. destruct (Qlt_le_dec q0 q1); [left|right]; lra.
  - apply String.leb_total.
  - rewrite !Z.leb_le. lia.
Qed.

Lemma value_leb_trans v0 a b c :
  is_null v0 = false -> same_kind v0 a = true -> same_kind v0 b = true ->
  same_kind v0 c = true ->
  value_leb a b = true -> value_leb b c = true -> value_leb a c = true.
Proof.
  destruct v0, a, b, c; simpl; try discriminate; intros _ _ _ _.
  - rewrite !Qle_bool_iff. apply Qle_trans.
  - apply string_leb_trans.
  - rewrite !Z.leb_le. lia.
Qed.

Lemma filter_map_cells (f : value -> bool) c (l : list row) :
  List.filter f (map (fun r => cell r c) l)
  = map (fun r => cell r c) (List.filter (fun r => f (cell r c)) l).
Proof.
  induction l as [|r l IH]; simpl; [reflexivity|].
  destruct (f (cell r c)); simpl; now rewrite IH.
Qed.

(** ** A numpy that sorts *)

Lemma enumerate_lookup ks :
  Forall (fun p : nat * value => ks !! fst p = Some (snd p)) (enumerate ks).
Proof.
  apply Forall_forall. intros p Hp.
  apply list_elem_of_lookup in Hp as [i Hi]. unfold enumerate in Hi.
  apply lookup_zip_with_Some in Hi as (x & y & -> & Hx & Hy).
  apply lookup_seq in Hx as [-> _]. exact Hy.
Qed.

Lemma enumerate_positions ks : map fst (enumerate ks) = seq 0 (length ks).
Proof. apply fst_zip. now rewrite length_seq. Qed.

Lemma take_positions ks (ps : list (nat * value)) :
  Forall (fun p => ks !! fst p = Some (snd p)) ps ->
  take ks (map fst ps) = map snd ps.
Proof.
  unfold take. induction 1 as [|p ps Hp _ IH]; simpl; [reflexivity|].
  rewrite Hp. simpl. f_equal. exact IH.
Qed.

Lemma filter_positions (f : value -> bool) ks (ps : list (nat * value)) :
  Forall (fun p => ks !! fst p = Some (snd p)) ps ->
  List.filter (holds_at f ks) (map fst ps)
  = map fst (List.filter (fun p => f (snd p)) ps).
Proof.
  unfold holds_at. induction 1 as [|p ps Hp _ IH]; simpl; [reflexivity|].
  rewrite Hp. destruct (f (snd p)); simpl; [f_equal|]; exact IH.
Qed.

Lemma comparable_keys ks :
  forallb (fun k => negb (is_null k)) ks = true -> comparable ks = true ->
  exists k0, is_null k0 = false /\
             Forall (fun k => same_kind k0 k = true) ks.
Proof.
  destruct ks as [|k0 ks]; simpl; intros Hn Hc.
  - exists (VNum 0). split; [reflexivity|constructor].
  - apply andb_true_iff in Hn as [Hn _]. apply negb_true_iff in Hn.
    exists k0. split; [exact Hn|]. constructor.
    + now destruct k0.
    + apply Forall_forall. intros k Hk. rewrite forallb_forall in Hc.
      apply Hc. now apply list_elem_of_In.
Qed.

Lemma sorted_positions (le : nat * value -> nat * value -> bool) ks :
  Forall (fun p => ks !! fst p = Some (snd p)) (stable_sort le (enumerate ks)).
Proof.
  apply Forall_forall. intros p Hp.
  pose proof (enumerate_lookup ks) as H. rewrite Forall_forall in H.
  apply H. apply list_elem_of_In.
  eapply Permutation_in; [symmetry; apply stable_sort_perm|].
  apply list_elem_of_In. exact Hp.
Qed.

Lemma enumerate_same_kind ks k0 :
  Forall (fun k => same_kind k0 k = true) ks ->
  Forall (fun p : nat * value => same_kind k0 (snd p) = true) (enumerate ks).
Proof.
  intros H. apply Forall_forall. intros p Hp.
  pose proof (enumerate_lookup ks) as Hl.
  rewrite Forall_forall in Hl. rewrite Forall_forall in H.
  apply H. eapply list_elem_of_lookup_2. exact (Hl p Hp).
Qed.

Lemma short_arrays_sorts : sorts short_arrays.
Proof.
  intros ks. unfold short_arrays; cbn [argsort]. split.
  - rewrite <- enumerate_positions. apply Permutation_map.
    symmetry. apply stable_sort_perm.
  - intros Hn Hc. rewrite take_positions by apply sorted_positions.
    destruct (comparable_keys ks Hn Hc) as (k0 & H0 & Hk).
    change (map snd ?l) with (snd <$> l).
    apply (StronglySorted_fmap snd
             (fun a b => value_leb (snd a) (snd b) = true)); [auto|].
    apply (stable_sort_sorted _ (fun p => same_kind k0 (snd p) = true)).
    + intros x y. now apply value_leb_total.
    + intros x y z. now apply value_leb_trans.
    + now apply enumerate_same_kind.
Qed.

Lemma short_arrays_stable : stable short_arrays.
Proof.
  intros ks v Hn. unfold short_arrays; cbn [argsort].
  rewrite filter_positions by apply sorted_positions.
  rewrite stable_sort_filter.
  - rewrite <- (filter_positions (fun k => value_eqb k v) ks)
      by apply enumerate_lookup.
    now rewrite enumerate_positions.
  - intros x y Hx Hy Hfx Hfy.
    assert (Hxy : value_eqb (snd x) (snd y) = true).
    { rewrite value_eqb_sym in Hfy. eapply value_eqb_trans; eauto. }
    apply value_eqb_leb; [exact Hxy|].
    pose proof (enumerate_lookup ks) as Hl. rewrite Forall_forall in Hl.
    apply list_elem_of_In in Hx. apply Hl in Hx.
    apply list_elem_of_lookup_2, list_elem_of_In in Hx.
    rewrite forallb_forall in Hn. apply Hn in Hx. now apply negb_true_iff.
Qed.

(** After an ascending sort every row stands before the rows with a larger
    key, and the rows without a key stand last. *)
Lemma nargsort_sorted (np : numpy) c (l : list row) :
  sorts np ->
  comparable (List.filter (fun v => negb (is_null v))
                (map (fun r => cell r c) l)) = true ->
  StronglySorted
    (fun a b : row => is_null (cell b c) = true \/
                      value_leb (cell a c) (cell b c) = true)
    (nargsort np c true l).
Proof.
  intros Hsorts Hcmp. unfold nargsort.
  rewrite (filter_map_cells (fun v => negb (is_null v))) in Hcmp.
  set (nn := List.filter (fun r => negb (is_null (cell r c))) l) in *.
  apply StronglySorted_app_2.
  - intros a b _ Hb. left. apply list_elem_of_In, List.filter_In in Hb.
    tauto.
  - assert (Hs : StronglySorted
                   (fun a b => value_leb (cell a c) (cell b c) = true)
                   (take nn (argsort np (map (fun r => cell r c) nn)))).
    { apply argsort_rows_sorted; [exact Hsorts| |exact Hcmp].
      intros r Hr. now apply filter_keyed in Hr. }
    clear -Hs. induction Hs as [|a k _ IH Ha]; constructor; [exact IH|].
    eapply List.Forall_impl; [|exact Ha]. intros b H. now right.
  - assert (Hnull : List.Forall (fun r => is_null (cell r c) = true)
                      (List.filter (fun r => is_null (cell r c)) l)).
    { apply List.Forall_forall. intros r Hr.
      now apply List.filter_In in Hr. }
    induction Hnull as [|a k Ha Hk IH]; constructor; [exact IH|].
    eapply List.Forall_impl; [|exact Hk]. intros b H. now left.
Qed.

Lemma last_filter_split {A} (f : A -> bool) (l : list A) s :
  last (List.filter f l) = Some s ->
  exists l1 l2, l = l1 ++ s :: l2 /\ f s = true /\
                forall x, In x l2 -> f x = false.
Proof.
  induction l as [|x l IH]; simpl; [discriminate|].
  destruct (f x) eqn:Hx.
  - destruct (List.filter f l) as [|y k] eqn:E.
    + intros [= <-]. exists [], l. split; [reflexivity|]. split; [exact Hx|].
      intros z Hz. destruct (f z) eqn:Hz'; [|reflexivity].
      assert (Hin : In z (List.filter f l)) by (apply List.filter_In; auto).
      rewrite E in Hin. destruct Hin.
    + rewrite last_cons_cons. intros H.
      destruct (IH H) as (l1 & l2 & -> & Hs & Hl2).
      exists (x :: l1), l2. auto.
  - intros H. destruct (IH H) as (l1 & l2 & -> & Hs & Hl2).
    exists (x :: l1), l2. auto.
Qed.

(** compute_city_metrics.py does order duplicates by time: of the records of
    one course that carry a timestamp, none is later than the survivor, when
    the survivor carries one.  (A duplicate without a timestamp sorts last
    and survives, see [dedup_keeps_stale_record].) *)
Lemma metrics_survivor_is_latest (np : numpy) df d (s r : row) ts tr :
  sorts np ->
  Metrics.dedup_courses np df = Ok d -> has_col "course_id" df = true ->
  In s (rows d) -> In r (rows df) ->
  value_eqb (cell r "course_id") (cell s "course_id") = true ->
  cell s "_fetched_at" = VTime ts -> cell r "_fetched_at" = VTime tr ->
  tr <= ts.
Proof.
  unfold Metrics.dedup_courses. intros Hsorts H Hid Hs Hr Hsame Hts Htr.
  rewrite Hid in H. apply bind_Ok in H as (sorted & Hsorted & H).
  unfold sort_values in Hsorted.
  destruct (has_col "_fetched_at" df); [|discriminate].
  destruct (comparable _) eqn:Hcmp; [|discriminate].
  injection Hsorted as <-. unfold drop_duplicates in H.
  change (has_col "course_id" (mkDF (columns df) ?l))
    with (has_col "course_id" df) in H.
  rewrite Hid in H. injection H as <-. simpl in Hs.
  set (L := nargsort np "_fetched_at" true (rows df)) in *.
  set (f := fun x : row =>
              value_eqb (cell x "course_id") (cell s "course_id")).
  assert (Hlast : last (List.filter f L) = Some s).
  { pose proof (keep_last_survivor "course_id" (cell s "course_id") L) as Hk.
    fold f in Hk.
    assert (Hin : In s (List.filter f (keep_last "course_id" L))).
    { apply List.filter_In. split; [exact Hs|apply value_eqb_refl]. }
    rewrite Hk in Hin. destruct (last (List.filter f L)); simpl in Hin.
    - destruct Hin as [->|[]]. reflexivity.
    - destruct Hin. }
  destruct (last_filter_split f L s Hlast) as (l1 & l2 & HL & _ & Hl2).
  assert (HrL : In r L).
  { eapply Permutation_in; [now apply nargsort_perm|exact Hr]. }
  rewrite HL in HrL. apply in_app_or in HrL as [Hr1|[<-|Hr2]].
  - pose proof (nargsort_sorted np "_fetched_at" (rows df) Hsorts Hcmp)
      as Hsort.
    fold L in Hsort. rewrite HL in Hsort.
    assert (Hrel := StronglySorted_app_1_elem_of _ _ _ r s Hsort).
    destruct Hrel as [Hn|Hle].
    + now apply list_elem_of_In.
    + apply list_elem_of_In. now left.
    + rewrite Hts in Hn. discriminate.
    + rewrite Hts, Htr in Hle. simpl in Hle. now apply Z.leb_le.
  - rewrite Hts in Htr. injection Htr as <-. lia.
  - pose proof (Hl2 r Hr2) as Hf. unfold f in Hf. congruence.
Qed.

(** * Further properties *)

(** ** Regions of the aggregate *)

Lemma distinct_In {A} (eqb : A -> A -> bool) l x :
  In x (Metrics.distinct eqb l) -> In x l.
Proof.
  revert x. induction l as [|a l IH]; simpl; [tauto|].
  intros x [->|H]; [now left|]. apply List.filter_In in H as [H _]. auto.
Qed.

Lemma distinct_covers {A} (eqb : A -> A -> bool) (P : A -> Prop) l x :
  (forall a, eqb a a = true) ->
  (forall a b c, P a -> P b -> P c ->
                 eqb a b = true -> eqb b c = true -> eqb a c = true) ->
  List.Forall P l ->
  In x l -> exists y, In y (Metrics.distinct eqb l) /\ eqb x y = true.
Proof.
  intros Hrefl Htrans HP. induction HP as [|a l Ha HP IH]; simpl; [tauto|].
  intros [->|H]; [exists x; auto|].
  destruct (IH H) as (y & Hy & Hxy).
  rewrite List.Forall_forall in HP.
  destruct (eqb y a) eqn:E.
  - exists a. split; [now left|].
    apply (Htrans x y a); auto. apply HP. eapply distinct_In; eauto.
  - exists y. split; [right|exact Hxy].
    apply List.filter_In. now rewrite E.
Qed.

Lemma key_eqb_trans k1 k2 k3 :
  length k1 = length k2 -> length k2 = length k3 ->
  Metrics.key_eqb k1 k2 = true -> Metrics.key_eqb k2 k3 = true ->
  Metrics.key_eqb k1 k3 = true.
Proof.
  unfold Metrics.key_eqb. revert k2 k3.
  induction k1 as [|x a IH]; intros [|y b] [|z c]; simpl; try congruence.
  intros [= L1] [= L2]. rewrite !andb_true_iff. intros [H1 H2] [H3 H4].
  split; [eapply value_eqb_trans; eauto|eapply IH; eauto].
Qed.

Lemma distinct_apart {A} (eqb : A -> A -> bool) l :
  (forall a b, eqb a b = eqb b a) ->
  StronglySorted (fun x y => eqb x y = false) (Metrics.distinct eqb l).
Proof.
  intros Hsym. induction l as [|a l IH]; simpl; constructor.
  - clear -IH. induction IH as [|x k _ IHk Hx]; simpl; [constructor|].
    destruct (negb (eqb x a)); [|exact IHk]. constructor; [exact IHk|].
    apply List.Forall_forall. intros y Hy.
    apply List.filter_In in Hy as [Hy _].
    rewrite List.Forall_forall in Hx. auto.
  - apply List.Forall_forall. intros y Hy.
    apply List.filter_In in Hy as [_ Hy]. apply negb_true_iff in Hy.
    now rewrite Hsym.
Qed.

Lemma apart_perm {A} (R : A -> A -> Prop) l k :
  (forall x y, R x y -> R y x) ->
  Permutation l k -> StronglySorted R l -> StronglySorted R k.
Proof.
  intros Hsym Hp. induction Hp as [|x l k Hp IH|x y l|l k m _ IH1 _ IH2];
    intros Hs; auto.
  - inversion Hs as [|? ? Hl Hx]; subst. constructor; [auto|].
    eapply Permutation_Forall; eauto.
  - inversion Hs as [|? ? Hl Hy]; subst.
    inversion Hl as [|? ? Hl' Hx]; subst.
    inversion Hy as [|? ? Hyx Hyl]; subst.
    constructor; [constructor; auto|]. constructor; auto.
Qed.

Lemma key_eqb_labels (f g : string -> value) cols :
  Metrics.key_eqb (map f cols) (map g cols)
  = forallb (fun c => value_eqb (f c) (g c)) cols.
Proof.
  unfold Metrics.key_eqb. induction cols as [|c cols IH]; simpl; [reflexivity|].
  now rewrite IH.
Qed.

Lemma key_eqb_refl k : Metrics.key_eqb k k = true.
Proof.
  unfold Metrics.key_eqb. induction k as [|v k IH]; simpl; [reflexivity|].
  now rewrite value_eqb_refl, IH.
Qed.

Lemma key_eqb_sym k1 k2 : Metrics.key_eqb k1 k2 = Metrics.key_eqb k2 k1.
Proof.
  unfold Metrics.key_eqb. revert k2.
  induction k1 as [|a k1 IH]; intros [|b k2]; simpl; try reflexivity.
  now rewrite value_eqb_sym, IH.
Qed.

Lemma labels_lookup (f : string -> value) cols (rest : list (string * value))
    c :
  In c cols ->
  (list_to_map (combine cols (map f cols) ++ rest) : row) !! c = Some (f c).
Proof.
  induction cols as [|c0 cols IH]; simpl; [tauto|]. intros Hin.
  destruct (string_dec c0 c) as [->|Hne].
  - apply lookup_insert_eq.
  - rewrite lookup_insert_ne by exact Hne. apply IH.
    destruct Hin; [contradiction|assumption].
Qed.

Lemma groupby_agg_keys cols aggs df agg :
  Metrics.groupby_agg cols aggs df = Ok agg ->
  let live := List.filter
                (fun r => forallb (fun c => negb (is_null (cell r c))) cols)
                (rows df) in
  let key (r : row) := map (cell r) cols in
  exists keys,
    Permutation (Metrics.distinct Metrics.key_eqb (map key live)) keys /\
    Forall2 (fun k (a : row) => forall c, In c cols ->
                                   exists r, In r live /\ key r = k /\
                                             cell a c = cell r c)
      keys (rows agg).
Proof.
  intros H live key. unfold Metrics.groupby_agg in H.
  apply bind_Ok in H as (_ & _ & H). apply bind_Ok in H as (rs & Hrs & H).
  injection H as <-. simpl. fold live in Hrs. fold key in Hrs.
  exists (stable_sort Metrics.key_leb
            (Metrics.distinct Metrics.key_eqb (map key live))).
  split; [apply stable_sort_perm|].
  assert (Hsub : forall k,
    In k (stable_sort Metrics.key_leb
            (Metrics.distinct Metrics.key_eqb (map key live))) ->
    exists r, In r live /\ key r = k).
  { intros k Hk.
    apply (Permutation_in _ (Permutation_sym (stable_sort_perm _ _))) in Hk.
    apply distinct_In, in_map_iff in Hk as (r & <- & Hr). eauto. }
  apply mapM_Forall2 in Hrs.
  revert Hsub. induction Hrs as [|k a ks rs' Hka _ IH]; intros Hsub;
    constructor.
  - intros c Hc. destruct (Hsub k (or_introl eq_refl)) as (r & Hr & <-).
    exists r. split; [exact Hr|]. split; [reflexivity|].
    apply bind_Ok in Hka as (cells & _ & Hka). injection Hka as <-.
    unfold cell at 1. unfold key. now rewrite labels_lookup.
  - apply IH. intros k' Hk'. apply Hsub. now right.
Qed.

(** The regions of the aggregate are the distinct label combinations of the
    courses that carry every label: each region repeats the labels of such
    a course, each such course has its region, and no two regions carry the
    same labels.  A course without a city or a state, where the table has
    that column, is in no region. *)
Theorem regions_are_the_distinct_labels d agg :
  Metrics.aggregate d = Ok agg ->
  let cols := Metrics.group_cols d in
  (forall a, In a (rows agg) ->
     located cols a /\
     exists r, In r (rows d) /\ forall c, In c cols -> cell a c = cell r c) /\
  (forall r, In r (rows d) -> located cols r ->
     exists a, In a (rows agg) /\ same_region cols r a) /\
  (forall i j a b,
     rows agg !! i = Some a -> rows agg !! j = Some b ->
     same_region cols a b -> i = j).
Proof.
  intros H cols. unfold Metrics.aggregate in H. fold cols in H.
  assert (Hne : exists c0, In c0 cols).
  { destruct cols as [|g gs]; [discriminate|]. exists g. now left. }
  assert (H' : Metrics.groupby_agg cols (Metrics.agg_dict d) d = Ok agg).
  { destruct cols; [discriminate|exact H]. }
  clear H. rename H' into H.
  destruct (groupby_agg_keys _ _ _ _ H) as (keys & Hperm & Hrows).
  cbv zeta in Hperm, Hrows.
  set (live := List.filter
                 (fun r => forallb (fun c => negb (is_null (cell r c))) cols)
                 (rows d)) in *.
  set (key := fun r : row => map (cell r) cols) in *.
  assert (Hlive : forall r, In r live <-> In r (rows d) /\ located cols r).
  { intros r. unfold live. rewrite List.filter_In, forallb_forall.
    unfold located. split; intros [Hr Hl]; (split; [exact Hr|]);
      intros c Hc; specialize (Hl c Hc).
    - now apply negb_true_iff.
    - now apply negb_true_iff. }
  assert (Hrow : forall i k a, keys !! i = Some k -> rows agg !! i = Some a ->
    exists r, In r live /\ key r = k /\
              forall c, In c cols -> cell a c = cell r c).
  { intros i k a Hk Ha.
    pose proof (Forall2_lookup_lr _ _ _ _ _ _ Hrows Hk Ha) as Hka.
    destruct Hne as [c0 Hc0].
    destruct (Hka c0 Hc0) as (r & Hr & Hkr & _).
    exists r. split; [exact Hr|]. split; [exact Hkr|].
    intros c Hc. destruct (Hka c Hc) as (r' & _ & Hkr' & Hcell).
    rewrite Hcell. rewrite <- Hkr' in Hkr. unfold key in Hkr.
    clear -Hkr Hc. induction cols as [|c1 cols IH]; [destruct Hc|].
    simpl in Hkr. injection Hkr as H1 H2.
    destruct Hc as [->|Hc]; [now symmetry|auto]. }
  assert (Hsame : forall a b : row, same_region cols a b <->
                               Metrics.key_eqb (key a) (key b) = true).
  { intros a b. unfold key. rewrite key_eqb_labels, forallb_forall.
    reflexivity. }
  split; [|split].
  - intros a Ha. apply list_elem_of_In, list_elem_of_lookup in Ha as [i Ha].
    destruct (Forall2_lookup_r _ _ _ _ _ Hrows Ha) as (k & Hk & _).
    destruct (Hrow i k a Hk Ha) as (r & Hr & _ & Hc).
    apply Hlive in Hr as [Hr Hloc]. split.
    + intros c Hin. rewrite (Hc c Hin). now apply Hloc.
    + eauto.
  - intros r Hr Hloc.
    assert (Hin : In (key r) (map key live)).
    { apply in_map. apply Hlive. now split. }
    destruct (distinct_covers Metrics.key_eqb
                (fun k => length k = length cols) (map key live) (key r)
                key_eqb_refl) as (k & Hk & Hrk).
    { intros a b c La Lb Lc. apply key_eqb_trans; congruence. }
    { apply List.Forall_forall. intros k Hk.
      apply in_map_iff in Hk as (r' & <- & _). apply length_map. }
    { exact Hin. }
    apply (Permutation_in _ Hperm) in Hk.
    apply list_elem_of_In, list_elem_of_lookup in Hk as [i Hk].
    destruct (Forall2_lookup_l _ _ _ _ _ Hrows Hk) as (a & Ha & _).
    destruct (Hrow i k a Hk Ha) as (r' & _ & Hkr' & Hc).
    exists a. split.
    + apply list_elem_of_In. eapply list_elem_of_lookup_2; eauto.
    + intros c Hcin. rewrite (Hc c Hcin).
      rewrite <- Hkr' in Hrk. unfold key in Hrk.
      rewrite key_eqb_labels, forallb_forall in Hrk. auto.
  - intros i j a b Ha Hb Hab.
    destruct (Forall2_lookup_r _ _ _ _ _ Hrows Ha) as (ka & Hka & _).
    destruct (Forall2_lookup_r _ _ _ _ _ Hrows Hb) as (kb & Hkb & _).
    destruct (Hrow i ka a Hka Ha) as (ra & _ & Hra & Hca).
    destruct (Hrow j kb b Hkb Hb) as (rb & _ & Hrb & Hcb).
    assert (Heq : Metrics.key_eqb ka kb = true).
    { rewrite <- Hra, <- Hrb. unfold key.
      rewrite key_eqb_labels, forallb_forall. intros c Hc.
      rewrite <- (Hca c Hc), <- (Hcb c Hc). now apply Hab. }
    assert (Hapart : StronglySorted
                       (fun x y => Metrics.key_eqb x y = false) keys).
    { eapply apart_perm; [|exact Hperm|apply distinct_apart, key_eqb_sym].
      intros x y. now rewrite key_eqb_sym. }
    destruct (lt_eq_lt_dec i j) as [[Hlt|Heqij]|Hgt]; [exfalso|exact Heqij|exfalso].
    + pose proof (StronglySorted_lookup _ _ _ _ _ _ Hapart Hka Hkb Hlt).
      congruence.
    + pose proof (StronglySorted_lookup _ _ _ _ _ _ Hapart Hkb Hka Hgt) as X.
      cbv beta in X. rewrite key_eqb_sym in X. congruence.
Qed.

(** ** Tables that [compute_metrics] refuses *)

(** A courses table that has [course_id] but no [_fetched_at] cannot be
    scored: the sort that precedes the deduplication raises [KeyError], and
    [main] writes nothing. *)
Theorem courses_without_fetch_time_are_refused (np : numpy) o a w df :
  Metrics.read_parquet (fs w) (Metrics.arg_courses a) = Ok df ->
  has_col "course_id" df = true -> has_col "_fetched_at" df = false ->
  (forall weights csv,
      Metrics.compute_metrics np (fs w) df weights csv
      = Err (KeyError "_fetched_at")) /\
  Metrics.main np o a w = (w, Err (KeyError "_fetched_at")).
Proof.
  intros Hread Hid Hts.
  assert (Hcm : forall weights csv,
    Metrics.compute_metrics np (fs w) df weights csv
    = Err (KeyError "_fetched_at")).
  { intros weights csv.
    unfold Metrics.compute_metrics, Metrics.region_table,
      Metrics.dedup_courses, sort_values.
    now rewrite Hid, Hts. }
  split; [exact Hcm|].
  eapply metrics_main_error_writes_nothing; eauto.
Qed.

(** Regions are counted by [course_id] or, without it, by [name]; a table
    with neither is refused with [KeyError] on [name]. *)
Theorem courses_without_id_or_name_are_refused (np : numpy) files df weights
    csv :
  has_col "course_id" df = false -> has_col "name" df = false ->
  Metrics.group_cols df <> [] ->
  Metrics.compute_metrics np files df weights csv = Err (KeyError "name").
Proof.
  intros Hid Hname Hg.
  unfold Metrics.compute_metrics, Metrics.region_table, Metrics.dedup_courses.
  rewrite Hid. simpl. unfold Metrics.aggregate.
  destruct (Metrics.group_cols df) as [|g gs]; [contradiction|].
  unfold Metrics.groupby_agg, Metrics.agg_dict. rewrite Hid. simpl.
  now rewrite Hname.
Qed.

Lemma aggregate_has_state d agg :
  Metrics.aggregate d = Ok agg -> has_col "state" agg = has_col "state" d.
Proof.
  unfold Metrics.aggregate. intros H.
  destruct (Metrics.group_cols d) as [|g gs] eqn:Hg; [discriminate|].
  rewrite <- Hg in H. clear Hg. unfold Metrics.groupby_agg in H.
  apply bind_Ok in H as (_ & _ & H). apply bind_Ok in H as (rs & _ & H).
  injection H as <-.
  unfold Metrics.group_cols, Metrics.agg_dict. cbn [List.filter].
  destruct (has_col "city" d), (has_col "state" d),
    (has_col "course_id" d), (has_col "rating" d),
    (has_col "ratings_count" d), (has_col "tee_fee" d),
    (has_col "length_yards" d); reflexivity.
Qed.

(** The golfability flag is joined on [state].  Where the courses carry a
    city but no state, and a reference with a flag column is supplied,
    nothing is joined and the flag column the next line reads is missing:
    [compute_metrics] raises [KeyError]. *)
Theorem reference_without_state_column_is_fatal (np : numpy) files df weights
    path agg states :
  (Metrics.dedup_courses np df ≫= Metrics.aggregate) = Ok agg ->
  has_col "state" df = false ->
  path <> "" -> is_Some (files !! path) ->
  Metrics.read_states files path = Ok states ->
  has_col "golfable_year_round" states = true ->
  Metrics.compute_metrics np files df weights (Some path)
  = Err (KeyError "golfable_year_round").
Proof.
  intros Hagg Hstate Hne Hex Hread Hflag.
  apply bind_Ok in Hagg as (d & Hd & Hagg).
  unfold Metrics.compute_metrics, Metrics.region_table.
  rewrite Hd. simpl. rewrite Hagg. simpl.
  unfold Metrics.enrich.
  apply String.eqb_neq in Hne. rewrite Hne. simpl.
  rewrite bool_decide_true by exact Hex. rewrite Hread. simpl.
  unfold Metrics.join_states. rewrite Hflag.
  rewrite (aggregate_has_state _ _ Hagg),
    (dedup_courses_columns np _ _ "state" Hd), Hstate. simpl.
  now rewrite (aggregate_columns d agg "golfable_year_round" Hagg)
    by (simpl; auto).
Qed.

(** ** The joined flag *)

(** Whenever the reference is joined, also one that repeats states, every
    row of the result has a [state_golfable] that is a whole number, never
    null, and the helper columns of the join are gone. *)
Theorem state_golfable_is_a_whole_number agg states out :
  Metrics.join_states agg states = Ok out ->
  has_col "golfable_year_round" states = true ->
  has_col "state_golfable" out = true /\
  has_col "golfable_year_round" out = false /\
  has_col "state_name" out = false /\
  forall r, In r (rows out) ->
    exists z, cell r "state_golfable" = VNum (inject_Z z).
Proof.
  unfold Metrics.join_states. intros H Hflag. rewrite Hflag in H.
  set (M := if has_col "state" agg && has_col "state" states
            then Metrics.merge_left agg states "state" "state"
                   ["golfable_year_round"]
            else if has_col "state" agg && has_col "state_name" states
            then Metrics.merge_left agg states "state" "state_name"
                   ["golfable_year_round"]
            else agg) in *.
  destruct (has_col "golfable_year_round" M) eqn:HM; [|discriminate].
  injection H as <-.
  set (T := set_column "state_golfable"
              (map (fun r => Metrics.fill0_int (cell r "golfable_year_round"))
                 (rows M)) M).
  assert (HT1 : has_col "golfable_year_round" T = true).
  { unfold T. now rewrite has_col_set_column_ne by discriminate. }
  assert (Hcols : forall c,
    has_col c (drop_columns
                 (List.filter (fun c => has_col c T)
                    ["golfable_year_round"; "state_name"]) T)
    = has_col c T
      && negb (existsb (String.eqb c)
                 (List.filter (fun c => has_col c T)
                    ["golfable_year_round"; "state_name"]))).
  { intros c. unfold has_col, drop_columns. cbn [columns].
    generalize (List.filter (fun c0 => existsb (String.eqb c0) (columns T))
                  ["golfable_year_round"; "state_name"]) as D.
    intros D. induction (columns T) as [|x l IH]; simpl; [reflexivity|].
    destruct (existsb (String.eqb x) D) eqn:ExD; simpl.
    - rewrite IH. destruct (String.eqb c x) eqn:E; [|reflexivity].
      apply String.eqb_eq in E. subst x. rewrite ExD. simpl.
      now rewrite andb_false_r.
    - rewrite IH. destruct (String.eqb c x) eqn:E; [|reflexivity].
      apply String.eqb_eq in E. subst x. now rewrite ExD. }
  split; [|split; [|split]].
  - rewrite Hcols. unfold T at 1. rewrite has_col_set_column.
    cbn [List.filter]. rewrite HT1.
    now destruct (has_col "state_name" T).
  - rewrite Hcols, HT1. cbn [List.filter]. rewrite HT1. reflexivity.
  - rewrite Hcols. cbn [List.filter]. rewrite HT1.
    destruct (has_col "state_name" T); reflexivity.
  - intros r Hr. unfold drop_columns in Hr. cbn [rows] in Hr.
    apply in_map_iff in Hr as (t & <- & Ht).
    apply list_elem_of_In, list_elem_of_lookup in Ht as [i Ht].
    apply set_column_lookup in Ht as (m & v & _ & Hv & ->).
    apply list_elem_of_lookup_2, list_elem_of_In, in_map_iff in Hv
      as (m' & <- & _).
    unfold cell at 1. rewrite lookup_fold_delete, HT1.
    assert (E : forall l, existsb (String.eqb "state_golfable")
                  ("golfable_year_round"
                   :: (if has_col "state_name" T then ["state_name"] else l))
                = existsb (String.eqb "state_golfable") l
                  && negb (has_col "state_name" T)).
    { intros l. destruct (has_col "state_name" T); simpl;
        [now rewrite andb_false_r|now rewrite andb_true_r]. }
    rewrite (E []). simpl existsb. cbn [andb].
    rewrite lookup_insert_eq. cbn [default].
    generalize (cell m' "golfable_year_round") as v. intros v.
    destruct v; simpl; eexists; reflexivity.
Qed.

(** ** The join keeps every region *)

Lemma merge_left_keeps left right lk rk extra (a : row) :
  In a (rows left) ->
  exists m : row,
    In m (rows (Metrics.merge_left left right lk rk extra)) /\
    forall c, ~ In c ((if String.eqb lk rk then [] else [rk]) ++ extra) ->
              m !! c = a !! c.
Proof.
  unfold Metrics.merge_left. cbn [rows]. intros Ha.
  set (added := (if String.eqb lk rk then [] else [rk]) ++ extra).
  destruct (List.filter (fun r => value_eqb (cell a lk) (cell r rk))
              (rows right)) as [|r ps] eqn:E.
  - exists a. split; [|reflexivity].
    apply in_flat_map. exists a. split; [exact Ha|]. rewrite E. now left.
  - exists (fold_right (fun c acc => <[c := cell r c]> acc) a added). split.
    + apply in_flat_map. exists a. split; [exact Ha|]. rewrite E. now left.
    + intros c Hc. rewrite lookup_fold_insert.
      destruct (existsb (String.eqb c) added) eqn:Ex; [|reflexivity].
      apply existsb_exists in Ex as (x & Hx & Heq).
      apply String.eqb_eq in Heq. now subst x.
Qed.

(** The join is a left join: whatever the reference holds -- states
    missing, states repeated -- every region of the aggregate is still in
    the result, with the cells it had. *)
Theorem join_never_drops_a_region agg states out (a : row) :
  Metrics.join_states agg states = Ok out ->
  In a (rows agg) ->
  exists r : row,
    In r (rows out) /\
    forall c, c <> "state_golfable" -> c <> "golfable_year_round" ->
              c <> "state_name" -> r !! c = a !! c.
Proof.
  unfold Metrics.join_states. intros H Ha.
  destruct (has_col "golfable_year_round" states);
    [|injection H as <-; eauto].
  set (M := if has_col "state" agg && has_col "state" states
            then Metrics.merge_left agg states "state" "state"
                   ["golfable_year_round"]
            else if has_col "state" agg && has_col "state_name" states
            then Metrics.merge_left agg states "state" "state_name"
                   ["golfable_year_round"]
            else agg) in *.
  assert (HM : exists m : row, In m (rows M) /\
    forall c, c <> "golfable_year_round" -> c <> "state_name" ->
              m !! c = a !! c).
  { unfold M.
    destruct (has_col "state" agg && has_col "state" states).
    - destruct (merge_left_keeps agg states "state" "state"
                  ["golfable_year_round"] a Ha) as (m & Hm & Hc).
      exists m. split; [exact Hm|]. intros c C1 C2. apply Hc.
      simpl. intuition congruence.
    - destruct (has_col "state" agg && has_col "state_name" states).
      + destruct (merge_left_keeps agg states "state" "state_name"
                    ["golfable_year_round"] a Ha) as (m & Hm & Hc).
        exists m. split; [exact Hm|]. intros c C1 C2. apply Hc.
        simpl. intuition congruence.
      + exists a. auto. }
  destruct (has_col "golfable_year_round" M); [|discriminate].
  injection H as <-. destruct HM as (m & Hm & Hc).
  apply list_elem_of_In, list_elem_of_lookup in Hm as [i Hi].
  set (vals := map (fun r => Metrics.fill0_int (cell r "golfable_year_round"))
                 (rows M)).
  assert (Hv : exists v, vals !! i = Some v).
  { unfold vals. change (map ?f ?l) with (f <$> l).
    rewrite list_lookup_fmap, Hi. simpl. eauto. }
  destruct Hv as [v Hv].
  exists (fold_right (fun c acc => delete c acc)
            (<["state_golfable" := v]> m)
            (List.filter
               (fun c => has_col c (set_column "state_golfable" vals M))
               ["golfable_year_round"; "state_name"])).
  split.
  - unfold drop_columns. cbn [rows].
    apply (in_map (fun r : row => fold_right (fun c acc => delete c acc) r _)).
    unfold set_column. cbn [rows]. apply list_elem_of_In.
    apply (list_elem_of_lookup_2 _ i). apply lookup_zip_with_Some.
    exists m, v. auto.
  - intros c C1 C2 C3. rewrite lookup_fold_delete.
    replace (existsb (String.eqb c) _) with false.
    + rewrite lookup_insert_ne by congruence. now apply Hc.
    + symmetry. apply not_true_is_false. intros Ex.
      apply existsb_exists in Ex as (x & Hx & Heq).
      apply String.eqb_eq in Heq. subst x.
      apply List.filter_In in Hx as [Hx _]. simpl in Hx.
      intuition congruence.
Qed.

(** ** The API key *)

(** The environment variable wins over the key file, stripped of blanks,
    also when nothing is left of it: then the script reports that it has
    no key and sends no request, whatever the key file holds. *)
Theorem blank_environment_key_blocks_the_run strip o clock c key key_file a
    replies st :
  strip (String c key) = "" ->
  Fetch.load_api_key strip (Some (String c key)) key_file = Some "" /\
  Fetch.main strip o clock (Some (String c key)) key_file a replies st
  = (Fetch.say Fetch.NoApiKey st, Fetch.Stopped).
Proof.
  intros H. unfold Fetch.main, Fetch.load_api_key. now rewrite H.
Qed.

(** ** Rounding for display *)

Lemma round_if_present_lookup c n agg i (r : row) :
  rows agg !! i = Some r ->
  exists r' : row,
    rows (Metrics.round_if_present c n agg) !! i = Some r' /\
    forall c', cell r' c' = cell r c' \/
               (c' = c /\ cell r' c' = Metrics.round_cell n (cell r c')).
Proof.
  intros Hi. unfold Metrics.round_if_present.
  destruct (has_col c agg).
  - unfold map_column. cbn [rows].
    change (map ?f ?l) with (f <$> l). rewrite list_lookup_fmap, Hi.
    eexists. split; [reflexivity|]. intros c'.
    rewrite cell_insert. destruct (decide (c = c')) as [<-|]; auto.
  - exists r. auto.
Qed.

Lemma round_if_present_columns c n agg :
  columns (Metrics.round_if_present c n agg) = columns agg.
Proof. unfold Metrics.round_if_present. now destruct (has_col c agg). Qed.

(** Rounding is the last step and touches nothing but the three columns it
    names: the table keeps its columns, every row stays in its place, every
    cell of another column (the labels, the counts, the score, the rank) is
    as it was, and in the three columns a gap stays a gap and a value a
    value. *)
Theorem rounding_touches_only_display_columns agg i (r : row) :
  rows agg !! i = Some r ->
  columns (Metrics.round_metrics agg) = columns agg /\
  exists r' : row,
    rows (Metrics.round_metrics agg) !! i = Some r' /\
    forall c,
      (c <> "avg_rating" -> c <> "median_tee_fee" ->
       c <> "avg_length_yards" -> cell r' c = cell r c) /\
      is_null (cell r' c) = is_null (cell r c).
Proof.
  intros Hi. unfold Metrics.round_metrics.
  split; [now rewrite !round_if_present_columns|].
  destruct (round_if_present_lookup "avg_rating" 100 agg i r Hi)
    as (r1 & H1 & C1).
  destruct (round_if_present_lookup "median_tee_fee" 100 _ i r1 H1)
    as (r2 & H2 & C2).
  destruct (round_if_present_lookup "avg_length_yards" 10 _ i r2 H2)
    as (r3 & H3 & C3).
  exists r3. split; [exact H3|]. intros c.
  assert (Hnull : forall n v, is_null (Metrics.round_cell n v) = is_null v)
    by (intros n []; reflexivity).
  split.
  - intros N1 N2 N3.
    destruct (C3 c) as [-> | [? _]]; [|contradiction].
    destruct (C2 c) as [-> | [? _]]; [|contradiction].
    destruct (C1 c) as [-> | [? _]]; [reflexivity|contradiction].
  - destruct (C3 c) as [-> | [_ ->]]; rewrite ?Hnull;
      (destruct (C2 c) as [-> | [_ ->]]; rewrite ?Hnull);
      (destruct (C1 c) as [-> | [_ ->]]; now rewrite ?Hnull).
Qed.

(** ** A reference file with a missing flag *)

Lemma cols_lower_lookup cols k c :
  Metrics.cols_lower cols !! k = Some c ->
  In c cols /\ Metrics.lower c = k.
Proof.
  unfold Metrics.cols_lower.
  assert (Hgen : forall (m : gmap string string),
    (forall k c, m !! k = Some c -> In c cols /\ Metrics.lower c = k) ->
    forall l, (forall c, In c l -> In c cols) ->
    fold_left (fun m c => <[Metrics.lower c := c]> m) l m !! k = Some c ->
    In c cols /\ Metrics.lower c = k).
  { intros m Hm l. revert m Hm. induction l as [|x l IH]; intros m Hm Hl;
      simpl; [apply Hm|].
    apply IH; [|intros; apply Hl; now right].
    intros k' c'. rewrite lookup_insert. case_decide as E.
    - intros [= <-]. split; [apply Hl; now left|exact E].
    - apply Hm. }
  apply (Hgen ∅); [intros ? ?; rewrite lookup_empty; discriminate|auto].
Qed.

Lemma cols_lower_has cols c :
  In c cols -> is_Some (Metrics.cols_lower cols !! Metrics.lower c).
Proof.
  unfold Metrics.cols_lower.
  assert (Hgen : forall l (m : gmap string string),
    In c l \/ is_Some (m !! Metrics.lower c) ->
    is_Some (fold_left (fun m c => <[Metrics.lower c := c]> m) l m
             !! Metrics.lower c)).
  { induction l as [|x l IH]; intros m H; simpl.
    - destruct H as [[]|H]. exact H.
    - apply IH. destruct H as [[->|Hin]|Hm]; [right|now left|right].
      + rewrite lookup_insert_eq. eauto.
      + rewrite lookup_insert. case_decide; eauto. }
  intros Hin. apply Hgen. now left.
Qed.

(** With lower-case column names and the flag under its own name, nothing
    is renamed. *)
Lemma rename_map_canonical cols c :
  List.Forall (fun c => Metrics.lower c = c) cols ->
  In "golfable_year_round" cols ->
  default c (Metrics.rename_map cols !! c) = c.
Proof.
  intros Hlow Hflag. rewrite List.Forall_forall in Hlow.
  assert (Hcl : forall k x, Metrics.cols_lower cols !! k = Some x -> x = k).
  { intros k x Hk. apply cols_lower_lookup in Hk as [Hin <-].
    symmetry. now apply Hlow. }
  unfold Metrics.rename_map.
  destruct (cols_lower_has cols _ Hflag) as [g Hg].
  rewrite (Hlow _ Hflag) in Hg. rewrite Hg.
  pose proof (Hcl _ _ Hg) as ->.
  assert (Hid : forall (m : gmap string string) k,
    default c (m !! c) = c -> default c (<[k := k]> m !! c) = c).
  { intros m k Hm. rewrite lookup_insert. now case_decide. }
  apply Hid.
  destruct (Metrics.cols_lower cols !! "state_name") as [x|] eqn:E2;
    [rewrite (Hcl _ _ E2); apply Hid|];
    (destruct (Metrics.cols_lower cols !! "state") as [y|] eqn:E1;
     [rewrite (Hcl _ _ E1); apply Hid|]; now rewrite lookup_empty).
Qed.

Lemma has_dups_map_id (f : string -> string) l :
  (forall c, f c = c) -> Metrics.has_dups (map f l) = Metrics.has_dups l.
Proof. intros H. f_equal. rewrite <- (map_id l) at 2. now apply map_ext. Qed.

Lemma mapM_Err {A B} (f : A -> res B) l x e :
  In x l -> f x = Err e -> exists e', mapM f l = Err e'.
Proof.
  induction l as [|y l IH]; simpl; [tauto|]. intros [->|Hin] Hx.
  - rewrite Hx. simpl. eauto.
  - destruct (f y); simpl; [|eauto].
    destruct (IH Hin Hx) as [e' ->]. simpl. eauto.
Qed.

(** The flag of every state is cast to an integer before the join, and only
    the join fills gaps with 0: a reference file, under the column names the
    script documents, in which some state has no flag stops the enrichment
    with an error. *)
Theorem reference_with_missing_flag_is_fatal files path st (r : row) agg :
  path <> "" ->
  files !! path = Some (FTable Csv st) ->
  List.Forall (fun c => Metrics.lower c = c) (columns st) ->
  Metrics.has_dups (columns st) = false ->
  has_col "golfable_year_round" st = true ->
  In r (rows st) -> cell r "golfable_year_round" = VNull ->
  exists e, Metrics.enrich files (Some path) agg = Err e.
Proof.
  intros Hne Hfile Hlow Hdup Hflag Hr Hnull.
  unfold Metrics.enrich. apply String.eqb_neq in Hne. rewrite Hne. simpl.
  rewrite bool_decide_true by (rewrite Hfile; eauto).
  unfold Metrics.read_states, Metrics.read_csv. rewrite Hfile. simpl.
  assert (Hin : In "golfable_year_round" (columns st)).
  { unfold has_col in Hflag. apply existsb_exists in Hflag as (c & Hc & E).
    apply String.eqb_eq in E. now subst c. }
  assert (Hren : (if bool_decide (Metrics.rename_map (columns st) = ∅)
                  then Ok st
                  else Metrics.rename_columns
                         (Metrics.rename_map (columns st)) st)
                 = Ok st).
  { case_bool_decide; [reflexivity|]. unfold Metrics.rename_columns.
    rewrite has_dups_map_id by (intros c; now apply rename_map_canonical).
    rewrite Hdup. destruct st as [cols rs]. simpl in *. f_equal. f_equal.
    - rewrite <- (map_id cols) at 2. apply map_ext.
      intros c. now apply rename_map_canonical.
    - rewrite <- (map_id rs) at 2. apply map_ext. intros x.
      rewrite <- (list_to_map_to_list x) at 2. f_equal.
      rewrite <- (map_id (map_to_list x)) at 2. apply map_ext.
      intros [k v]. simpl. f_equal. now apply rename_map_canonical. }
  rewrite Hren. simpl. rewrite Hflag. unfold Metrics.astype_int.
  destruct (mapM_Err
              (fun r : row => v ← Metrics.to_int (cell r "golfable_year_round");
                 Ok (<["golfable_year_round" := v]> r))
              (rows st) r (ValueError "cannot convert NaN to integer") Hr)
    as [e' He'].
  { now rewrite Hnull. }
  rewrite He'. simpl. eauto.
Qed.

(** ** The atomic writers *)

(** [to_parquet_atomic] either installs the whole table or leaves the
    destination as it was.  On success the temporary file is gone; when the
    write breaks, the temporary file stays behind. *)
Theorem parquet_export_is_all_or_nothing o df p w :
  let tmp := dir_prefix p +:+ tmp_stem o +:+ ".parquet" in
  tmp <> p ->
  let w' := fst (Consolidate.to_parquet_atomic o df p w) in
  match snd (Consolidate.to_parquet_atomic o df p w) with
  | Ok _ => fs w' !! p = Some (FTable Parquet df) /\ fs w' !! tmp = None
  | Err e =>
      fs w' !! p = fs w !! p /\
      (has_slash p = true -> e = OSError tmp /\ fs w' !! tmp = Some FBroken)
  end.
Proof.
  intros tmp Hne. cbv zeta. fold tmp.
  unfold Consolidate.to_parquet_atomic, makedirs_parent. fold tmp.
  unfold mbind, io_bind, mret, io_ret, raise, put_file, write_file, replace,
    print.
  destruct (has_slash p); simpl; [|split; [reflexivity|discriminate]].
  destruct (breaks o tmp); simpl.
  - split; [now rewrite !lookup_insert_ne|]. intros _.
    split; [reflexivity|apply lookup_insert_eq].
  - rewrite lookup_insert_eq. simpl. split; [apply lookup_insert_eq|].
    rewrite lookup_insert_ne by congruence. apply lookup_delete_eq.
Qed.

(** [to_ndjson_atomic] likewise; its temporary file is the destination with
    [.tmp] appended. *)
Theorem ndjson_export_is_all_or_nothing o recs p w :
  let tmp := p +:+ ".tmp" in
  let w' := fst (Consolidate.to_ndjson_atomic o recs p w) in
  match snd (Consolidate.to_ndjson_atomic o recs p w) with
  | Ok _ => fs w' !! p = Some (FRecords recs) /\ fs w' !! tmp = None
  | Err e =>
      fs w' !! p = fs w !! p /\
      (has_slash p = true -> e = OSError tmp /\ fs w' !! tmp = Some FBroken)
  end.
Proof.
  pose proof (append_tmp_ne p) as Hne. cbv zeta.
  unfold Consolidate.to_ndjson_atomic, makedirs_parent.
  unfold mbind, io_bind, mret, io_ret, raise, write_file, replace, print.
  destruct (has_slash p); simpl; [|split; [reflexivity|discriminate]].
  destruct (breaks o (p +:+ ".tmp")); simpl.
  - split; [now rewrite lookup_insert_ne|]. intros _.
    split; [reflexivity|apply lookup_insert_eq].
  - rewrite lookup_insert_eq. simpl. split; [apply lookup_insert_eq|].
    rewrite lookup_insert_ne by congruence. apply lookup_delete_eq.
Qed.

(** ** Output paths *)

(** Every writer creates the directory of its destination first, and a
    destination without a directory part has none to create:
    [os.makedirs] of the empty name raises.  So with records at hand and
    [--out-parquet] a bare file name, [main] stops with
    [FileNotFoundError] before writing anything, the other outputs
    included. *)
Theorem bare_output_name_stops_consolidation (np : numpy) pn pd o a w w0 w1
    r raw df p :
  Consolidate.read_raw_courses o (Consolidate.raw_dir a) w
  = (w0, Ok (r :: raw)) ->
  Consolidate.dedup pd np (Consolidate.dedupe_key a)
    (Consolidate.normalize pn (Consolidate.from_records (r :: raw))) w0
  = (w1, Ok df) ->
  Consolidate.out_parquet a = Some p -> p <> "" -> has_slash p = false ->
  Consolidate.main pn pd np o a w = (w1, Err (FileNotFoundError "")) /\
  fs w1 = fs w.
Proof.
  intros Hread Hdedup Hp Hne Hbare. split.
  - unfold Consolidate.main. rewrite (io_bind_Ok _ _ _ _ _ Hread).
    rewrite (io_bind_Ok _ _ _ _ _ Hdedup).
    unfold Consolidate.write_outputs. rewrite Hp.
    apply io_bind_Err. rewrite when_set_run by exact Hne.
    unfold Consolidate.to_parquet_atomic, makedirs_parent. rewrite Hbare.
    reflexivity.
  - destruct (dedup_run np pd (Consolidate.dedupe_key a)
                (Consolidate.normalize pn
                   (Consolidate.from_records (r :: raw))) w0 w0) as [_ Hfs].
    rewrite Hdedup in Hfs. simpl in Hfs. rewrite Hfs.
    eapply read_raw_courses_fs; eauto.
Qed.

(** ** What is read from the captures *)

Lemma read_files_rows files l acc out :
  Consolidate.read_files files l acc = Ok out ->
  forall r, In r out ->
    In r acc \/
    exists fname e c,
      In fname l /\ files !! fname = Some (FCapture e) /\
      In c (Consolidate.courses_of e) /\ r = Consolidate.stamp e fname c.
Proof.
  revert acc. induction l as [|f l IH]; simpl; intros acc H r Hr.
  - injection H as <-. now left.
  - apply bind_Ok in H as (e & He & H).
    unfold Consolidate.json_load in He.
    destruct (files !! f) as [[e'| | | |]|] eqn:Hf; try discriminate.
    injection He as ->.
    destruct (IH _ H r Hr) as [Hacc|(fname & e0 & c & Hin & Hfile & Hc & ->)].
    + apply in_app_or in Hacc as [Hacc|Hnew]; [now left|right].
      apply in_map_iff in Hnew as (c & <- & Hc).
      exists f, e, c. auto.
    + right. exists fname, e0, c. auto.
Qed.

(** Every record that [read_raw_courses] returns is a course of one of the
    capture files that match the pattern, with that capture's
    [fetched_at] and [offset] and the file's base name stamped on it --
    over whatever the course itself had under these three names -- and
    its other fields untouched. *)
Theorem raw_courses_carry_their_provenance o dir w w' raw :
  Consolidate.read_raw_courses o dir w = (w', Ok raw) ->
  forall r, In r raw ->
    exists fname e c,
      In fname (Consolidate.glob o dir) /\
      fs w !! fname = Some (FCapture e) /\
      In c (Consolidate.courses_of e) /\
      cell r "_raw_file" = VStr (basename fname) /\
      cell r "_fetched_at" = default VNull (fetched_at e) /\
      cell r "_offset" = default VNull (offset e) /\
      forall k, k <> "_raw_file" -> k <> "_fetched_at" -> k <> "_offset" ->
                r !! k = c !! k.
Proof.
  unfold Consolidate.read_raw_courses. intros H r Hr.
  destruct (stable_sort String.leb (Consolidate.glob o dir)) as [|f l] eqn:E.
  - unfold mbind, io_bind, print, mret, io_ret in H. simpl in H.
    injection H as _ <-. destruct Hr.
  - set (L := f :: l) in *. unfold mbind, io_bind, get_fs, lift in H.
    apply (f_equal snd) in H. cbn [snd] in H. rewrite <- E in H.
    destruct (read_files_rows _ _ _ _ H r Hr)
      as [[]|(fname & e & c & Hin & Hfile & Hc & ->)].
    exists fname, e, c. split.
    { eapply Permutation_in; [symmetry; apply stable_sort_perm|exact Hin]. }
    split; [exact Hfile|]. split; [exact Hc|].
    unfold Consolidate.stamp. split; [apply cell_insert_eq|].
    split; [|split].
    + rewrite cell_insert_ne by discriminate.
      rewrite cell_insert_ne by discriminate. apply cell_insert_eq.
    + rewrite cell_insert_ne by discriminate. apply cell_insert_eq.
    + intros k K1 K2 K3. now rewrite !lookup_insert_ne by congruence.
Qed.

Lemma read_files_unreadable files l acc fname :
  In fname l -> (forall e, files !! fname <> Some (FCapture e)) ->
  exists err, Consolidate.read_files files l acc = Err err.
Proof.
  revert acc. induction l as [|f l IH]; simpl; intros acc Hin Hbad; [tauto|].
  unfold Consolidate.json_load at 1.
  destruct (files !! f) as [[e| | | |]|] eqn:Hf; simpl; eauto.
  destruct Hin as [->|Hin]; [now destruct (Hbad e)|]. now apply IH.
Qed.

(** One capture file that matches the pattern but cannot be read as a
    capture stops the whole consolidation: [main] raises and the file
    system is as it was. *)
Theorem unreadable_capture_stops_consolidation (np : numpy) pn pd o a w fname :
  In fname (Consolidate.glob o (Consolidate.raw_dir a)) ->
  (forall e, fs w !! fname <> Some (FCapture e)) ->
  exists err, Consolidate.main pn pd np o a w = (w, Err err).
Proof.
  intros Hin Hbad. unfold Consolidate.main, Consolidate.read_raw_courses.
  assert (Hs : In fname (stable_sort String.leb
                           (Consolidate.glob o (Consolidate.raw_dir a)))).
  { eapply Permutation_in; [apply stable_sort_perm|exact Hin]. }
  destruct (stable_sort String.leb
              (Consolidate.glob o (Consolidate.raw_dir a))) as [|f l] eqn:E;
    [destruct Hs|].
  destruct (read_files_unreadable (fs w) (f :: l) [] fname Hs Hbad)
    as [err Herr].
  exists err. unfold mbind, io_bind, get_fs, lift. now rewrite Herr.
Qed.

(** ** Normalizing and deduplicating *)

Lemma has_col_map_column c c' f df :
  has_col c (map_column c' f df) = has_col c df.
Proof. reflexivity. Qed.

Lemma normalize_columns pn df :
  columns (Consolidate.normalize pn df) = columns df.
Proof.
  unfold Consolidate.normalize.
  destruct (has_col "rating" df); simpl;
    destruct (has_col "ratings_count" _); reflexivity.
Qed.

(** After normalizing, a [ratings_count] is always a whole number (0 where
    the raw value was missing or unreadable) and a [rating] is a number or
    null; no row and no column is added or lost. *)
Theorem normalized_ratings_are_numbers pn df :
  let out := Consolidate.normalize pn df in
  columns out = columns df /\
  length (rows out) = length (rows df) /\
  forall r, In r (rows out) ->
    (has_col "ratings_count" df = true ->
     exists z, cell r "ratings_count" = VNum (inject_Z z)) /\
    (has_col "rating" df = true -> numeric_or_null "rating" r).
Proof.
  cbv zeta. split; [apply normalize_columns|].
  unfold Consolidate.normalize.
  assert (Hnum : forall v, exists z,
    Metrics.fill0_int (Consolidate.to_numeric pn v) = VNum (inject_Z z)).
  { intros v. destruct (Consolidate.to_numeric pn v); simpl; eauto;
      now exists 0. }
  assert (Hrat : forall v,
    Consolidate.to_numeric pn v = VNull \/
    exists q, Consolidate.to_numeric pn v = VNum q).
  { intros [|q|s|t]; simpl; eauto. destruct (pn s); simpl; eauto. }
  destruct (has_col "rating" df) eqn:H1.
  - rewrite has_col_map_column.
    destruct (has_col "ratings_count" df) eqn:H2; simpl.
    + split; [now rewrite !length_map|]. intros r Hr.
      apply in_map_iff in Hr as (r1 & <- & Hr).
      apply in_map_iff in Hr as (r0 & <- & Hr). split; intros _.
      * rewrite cell_insert_eq. apply Hnum.
      * unfold numeric_or_null.
        rewrite cell_insert_ne, cell_insert_eq by discriminate. apply Hrat.
    + split; [now rewrite length_map|]. intros r Hr.
      apply in_map_iff in Hr as (r0 & <- & Hr).
      split; [discriminate|intros _].
      unfold numeric_or_null. rewrite cell_insert_eq. apply Hrat.
  - destruct (has_col "ratings_count" df) eqn:H2; simpl.
    + split; [now rewrite length_map|]. intros r Hr.
      apply in_map_iff in Hr as (r0 & <- & Hr).
      split; [intros _|discriminate].
      rewrite cell_insert_eq. apply Hnum.
    + split; [reflexivity|]. intros r _. split; discriminate.
Qed.

Lemma has_col_from_records key (rs : list row) :
  has_col key (Consolidate.from_records rs) = true <->
  exists r, In r rs /\ is_Some (r !! key).
Proof.
  unfold has_col, Consolidate.from_records. cbn [columns].
  rewrite existsb_exists. split.
  - intros (c & Hc & E). apply String.eqb_eq in E. subst c.
    rewrite <- list_elem_of_In, elem_of_remove_dups, list_elem_of_In in Hc.
    apply in_concat in Hc as (ks & Hks & Hk).
    apply in_map_iff in Hks as (r & <- & Hr).
    exists r. split; [exact Hr|].
    apply in_map_iff in Hk as ([k v] & Hkv & Hin). simpl in Hkv. subst k.
    apply list_elem_of_In, elem_of_map_to_list in Hin. eauto.
  - intros (r & Hr & [v Hv]). exists key. split; [|apply String.eqb_refl].
    rewrite <- list_elem_of_In, elem_of_remove_dups, list_elem_of_In.
    apply in_concat. exists (map fst (map_to_list r)).
    split; [now apply (in_map (fun r : row => map fst (map_to_list r)))|].
    apply (in_map fst _ (key, v)).
    now apply list_elem_of_In, elem_of_map_to_list.
Qed.

(** Deduplication happens only if some record has the key: with a key that
    no record carries (a misspelt [--dedupe-key]), every record is kept
    and nothing is reported. *)
Theorem unknown_dedupe_key_keeps_every_record (np : numpy) pn pd key raw w :
  (forall r : row, In r raw -> r !! key = None) ->
  let df := Consolidate.normalize pn (Consolidate.from_records raw) in
  Consolidate.dedup pd np key df w = (w, Ok df) /\
  length (rows df) = length raw.
Proof.
  intros Hnone df. split.
  - unfold Consolidate.dedup.
    replace (has_col key df) with false; [reflexivity|].
    symmetry. apply not_true_is_false. unfold df, has_col.
    rewrite normalize_columns. intros H.
    apply (has_col_from_records key raw) in H as (r & Hr & [v Hv]).
    rewrite (Hnone r Hr) in Hv. discriminate.
  - destruct (normalized_ratings_are_numbers pn
                (Consolidate.from_records raw)) as (_ & Hlen & _).
    exact Hlen.
Qed.

Lemma nargsort_nulls (np : numpy) c asc (l : list row) :
  List.filter (fun r => is_null (cell r c)) (nargsort np c asc l)
  = List.filter (fun r => is_null (cell r c)) l.
Proof.
  unfold nargsort. rewrite List.filter_app.
  set (nn := List.filter (fun r => negb (is_null (cell r c))) l).
  assert (Hnil : forall k : list row, (forall r, In r k -> In r nn) ->
    List.filter (fun r => is_null (cell r c)) k = []).
  { intros k Hk. induction k as [|r k IH]; simpl; [reflexivity|].
    assert (Hr : In r nn) by (apply Hk; now left).
    apply filter_keyed in Hr. rewrite Hr. apply IH.
    intros r' Hr'. apply Hk. now right. }
  rewrite Hnil.
  - simpl. clear. induction l as [|r l IH]; simpl; [reflexivity|].
    destruct (is_null (cell r c)) eqn:E; simpl; rewrite ?E; now rewrite IH.
  - destruct asc.
    + intros r. apply take_In.
    + intros r Hr. apply in_rev in Hr. apply take_In in Hr.
      now apply in_rev.
Qed.

Lemma is_null_eqb v : is_null v = value_eqb v VNull.
Proof. now destruct v. Qed.

Lemma dedup_result (np : numpy) pd key df w w' out :
  Consolidate.dedup pd np key df w = (w', Ok out) ->
  has_col key df = true ->
  let before := if has_col "_fetched_at" df
                then map_column "_fetched_at" (Consolidate.to_datetime pd) df
                else df in
  exists sorted,
    rows out = keep_last key sorted /\
    (sorted = rows before \/
     sorted = nargsort np key true (rows before)).
Proof.
  intros H Hkey before. unfold Consolidate.dedup in H. rewrite Hkey in H.
  unfold mbind at 1, io_bind at 1, lift at 1 in H.
  destruct (has_col "_fetched_at" df) eqn:Hts.
  - unfold sort_values, drop_duplicates in H.
    rewrite has_col_map_column, Hkey in H.
    destruct (comparable _); simpl in H; [|discriminate].
    change (has_col key (mkDF (columns df) ?l)) with (has_col key df) in H.
    rewrite Hkey in H. simpl in H.
    unfold mbind, io_bind, print, mret, io_ret in H. simpl in H.
    injection H as _ <-. simpl. eauto.
  - unfold drop_duplicates in H. rewrite Hkey in H. simpl in H.
    unfold mbind, io_bind, print, mret, io_ret in H. simpl in H.
    injection H as _ <-. simpl. eauto.
Qed.

(** Records that lack the dedupe key count as duplicates of one another:
    of all of them exactly one survives, the last one read, whatever
    numpy's sort does. *)
Theorem records_without_key_collapse (np : numpy) pd key df w w' out :
  Consolidate.dedup pd np key df w = (w', Ok out) ->
  has_col key df = true ->
  let before := if has_col "_fetched_at" df
                then map_column "_fetched_at" (Consolidate.to_datetime pd) df
                else df in
  List.filter (fun r => is_null (cell r key)) (rows out)
  = option_list
      (last (List.filter (fun r => is_null (cell r key)) (rows before))).
Proof.
  intros H Hkey before.
  destruct (dedup_result np pd key df w w' out H Hkey)
    as (sorted & -> & Hsorted). fold before in Hsorted.
  assert (Hn : forall l : list row,
    List.filter (fun r => is_null (cell r key)) l
    = List.filter (fun r => value_eqb (cell r key) VNull) l).
  { intros l. apply List.filter_ext. intros r. apply is_null_eqb. }
  rewrite (Hn (keep_last key sorted)), keep_last_survivor, <- Hn.
  destruct Hsorted as [->| ->]; [reflexivity|]. now rewrite nargsort_nulls.
Qed.

Lemma filter_one_index {A} (f : A -> bool) (l : list A) i j x y :
  (length (List.filter f l) <= 1)%nat ->
  l !! i = Some x -> l !! j = Some y -> f x = true -> f y = true -> i = j.
Proof.
  revert i j. induction l as [|a l IH]; intros i j Hlen Hi Hj Hx Hy;
    [discriminate|].
  simpl in Hlen.
  assert (Hnone : f a = true -> forall k z, l !! k = Some z -> f z = false).
  { intros Ha k z Hk. rewrite Ha in Hlen. simpl in Hlen.
    destruct (f z) eqn:Hz; [exfalso|reflexivity].
    assert (Hin : In z (List.filter f l)).
    { apply List.filter_In. split; [|exact Hz].
      apply list_elem_of_In. eapply list_elem_of_lookup_2; eauto. }
    destruct (List.filter f l); [destruct Hin|simpl in Hlen; lia]. }
  destruct i as [|i], j as [|j]; simpl in Hi, Hj.
  - reflexivity.
  - injection Hi as ->. rewrite (Hnone Hx j y Hj) in Hy. discriminate.
  - injection Hj as ->. rewrite (Hnone Hy i x Hi) in Hx. discriminate.
  - f_equal. apply IH; auto.
    destruct (f a); simpl in Hlen; lia.
Qed.

(** After deduplication no two records share a key, every record that is
    left is one that was read (its [_fetched_at] parsed), and, numpy's sort
    being a sort, every key that was read is still there. *)
Theorem dedup_leaves_one_record_per_key (np : numpy) pd key df w w' out :
  sorts np ->
  Consolidate.dedup pd np key df w = (w', Ok out) ->
  has_col key df = true ->
  let before := if has_col "_fetched_at" df
                then map_column "_fetched_at" (Consolidate.to_datetime pd) df
                else df in
  (forall i j a b,
     rows out !! i = Some a -> rows out !! j = Some b ->
     value_eqb (cell a key) (cell b key) = true -> i = j) /\
  (forall a, In a (rows out) -> In a (rows before)) /\
  (forall r, In r (rows before) ->
     exists a, In a (rows out) /\
               value_eqb (cell a key) (cell r key) = true) /\
  fs w' = fs w.
Proof.
  intros Hsorts H Hkey before.
  destruct (dedup_result np pd key df w w' out H Hkey)
    as (sorted & Hout & Hsorted). fold before in Hsorted.
  assert (Hperm : Permutation (rows before) sorted).
  { destruct Hsorted as [->| ->]; [reflexivity|now apply nargsort_perm]. }
  assert (Hone : forall v,
    (length (List.filter (fun r => value_eqb (cell r key) v) (rows out))
     <= 1)%nat).
  { intros v. rewrite Hout, keep_last_survivor.
    destruct (last _); simpl; lia. }
  split; [|split; [|split]].
  - intros i j a b Ha Hb Hab.
    apply (filter_one_index (fun r => value_eqb (cell r key) (cell b key))
             (rows out) i j a b (Hone _) Ha Hb Hab (value_eqb_refl _)).
  - intros a Ha. rewrite Hout in Ha.
    apply (Permutation_in _ (Permutation_sym Hperm)).
    clear -Ha. induction sorted as [|r l IH]; simpl in Ha; [destruct Ha|].
    destruct (existsb _ l); [right; auto|].
    destruct Ha as [->|Ha]; [now left|right; auto].
  - intros r Hr. apply (Permutation_in _ Hperm) in Hr.
    assert (Hex : existsb (fun x => value_eqb (cell x key) (cell r key))
                    sorted = true).
    { apply existsb_exists. exists r. split; [exact Hr|].
      apply value_eqb_refl. }
    pose proof (keep_last_one key (cell r key) sorted Hex) as Hlen.
    rewrite <- Hout in Hlen.
    destruct (List.filter (fun x => value_eqb (cell x key) (cell r key))
                (rows out)) as [|a k] eqn:E; [discriminate|].
    assert (Ha : In a (List.filter
                         (fun x => value_eqb (cell x key) (cell r key))
                         (rows out))) by (rewrite E; now left).
    apply List.filter_In in Ha. exists a. exact Ha.
  - destruct (dedup_run np pd key df w w) as [_ Hfs]. rewrite H in Hfs.
    exact Hfs.
Qed.

(** ** From the consolidated table to the metrics *)

Lemma io_seq_Ok {A} (m : io unit) (k : io A) w w' (a : A) :
  (m ;; k) w = (w', Ok a) ->
  exists w1, m w = (w1, Ok tt) /\ k w1 = (w', Ok a).
Proof.
  unfold mbind, io_bind. destruct (m w) as [w1 [[]|e]]; [eauto|discriminate].
Qed.

Lemma ndjson_frame o recs po w p :
  (forall q, po = Some q -> q <> p /\ q +:+ ".tmp" <> p) ->
  fs (fst (Consolidate.when_set po (Consolidate.to_ndjson_atomic o recs) w))
    !! p = fs w !! p.
Proof.
  intros Hq. destruct (option_path_cases po) as [Hskip|(q & -> & Hne)].
  - now rewrite when_set_skip.
  - rewrite when_set_run by exact Hne. destruct (Hq q eq_refl) as [H1 H2].
    unfold Consolidate.to_ndjson_atomic, makedirs_parent.
    unfold mbind, io_bind, mret, io_ret, raise, write_file, replace, print.
    destruct (has_slash q); simpl; [|reflexivity].
    destruct (breaks o _); simpl; [now rewrite lookup_insert_ne|].
    rewrite lookup_insert_eq. simpl.
    rewrite lookup_insert_ne, lookup_delete_ne, lookup_insert_ne by congruence.
    reflexivity.
Qed.

Lemma sqlite_frame df name po w p :
  (forall q, po = Some q -> q <> p) ->
  fs (fst (Consolidate.when_set po
             (fun db_path => Consolidate.to_sqlite_replace df db_path name)
             w))
    !! p = fs w !! p.
Proof.
  intros Hq. destruct (option_path_cases po) as [Hskip|(q & -> & Hne)].
  - now rewrite when_set_skip.
  - rewrite when_set_run by exact Hne. pose proof (Hq q eq_refl) as H1.
    unfold Consolidate.to_sqlite_replace, Consolidate.connect, makedirs_parent.
    unfold mbind, io_bind, mret, io_ret, raise, get_fs, put_file, print.
    destruct (has_slash q); simpl; [|reflexivity].
    destruct (fs w !! q) as [[e|fmt t|recs|t|]|]; simpl;
      try reflexivity; now rewrite lookup_insert_ne.
Qed.

(** When [consolidate_data.py] has written its outputs, the file at
    [--out-parquet] is the deduplicated table, and [compute_city_metrics.py]
    reads that table back from the same path -- provided the other outputs
    and the temporary file of the NDJSON export were not pointed at it. *)
Theorem consolidated_table_is_read_back o a df w w' p :
  Consolidate.write_outputs o a df w = (w', Ok tt) ->
  Consolidate.out_parquet a = Some p -> p <> "" ->
  (forall q, Consolidate.out_ndjson a = Some q ->
             q <> p /\ q +:+ ".tmp" <> p) ->
  (forall q, Consolidate.sqlite_db a = Some q -> q <> p) ->
  Metrics.read_parquet (fs w') p = Ok df.
Proof.
  unfold Consolidate.write_outputs. intros H Hp Hne Hnd Hsq.
  apply io_seq_Ok in H as (w1 & H1 & H).
  apply io_seq_Ok in H as (w2 & H2 & H).
  apply io_seq_Ok in H as (w3 & H3 & H).
  rewrite Hp, when_set_run in H1 by exact Hne.
  apply to_parquet_atomic_success in H1.
  pose proof (ndjson_frame o (Consolidate.to_records df)
                (Consolidate.out_ndjson a) w1 p Hnd) as F2.
  rewrite H2 in F2. simpl in F2.
  pose proof (sqlite_frame df "teeradar_courses" (Consolidate.sqlite_db a)
                w2 p Hsq) as F3.
  rewrite H3 in F3. simpl in F3.
  unfold print in H. injection H as <-. simpl.
  unfold Metrics.read_parquet. now rewrite F3, F2, H1.
Qed.

(** ** The NDJSON records *)

(** Every record of the NDJSON export has exactly the columns of the table
    as its fields -- a field the course did not have is written as null --
    and none of them is a timestamp: timestamps are written as numbers. *)
Theorem ndjson_records_share_their_fields df (rec : row) :
  In rec (Consolidate.to_records df) ->
  (forall c, is_Some (rec !! c) <-> In c (columns df)) /\
  (forall c t, rec !! c <> Some (VTime t)).
Proof.
  unfold Consolidate.to_records. intros H.
  apply in_map_iff in H as (r & <- & _).
  assert (Hl : forall cols c v,
    (list_to_map (map (fun c => (c, Consolidate.to_json_cell (cell r c)))
                    cols) : row) !! c = Some v ->
    In c cols /\ v = Consolidate.to_json_cell (cell r c)).
  { induction cols as [|x cols IH]; intros c v; simpl.
    - rewrite lookup_empty. discriminate.
    - rewrite lookup_insert. case_decide as E.
      + intros [= <-]. subst x. auto.
      + intros Hc. destruct (IH c v Hc). auto. }
  split.
  - intros c. split.
    + intros [v Hv]. now apply Hl in Hv.
    + intros Hc. induction (columns df) as [|x cols IH]; [destruct Hc|].
      simpl. rewrite lookup_insert. case_decide; [eauto|].
      apply IH. destruct Hc; [congruence|assumption].
  - intros c t Hc. apply Hl in Hc as [_ Hc].
    destruct (cell r c); discriminate.
Qed.

(** ** From the fetcher to the consolidation *)

Lemma substring_full t : String.substring 0 (String.length t) t = t.
Proof. induction t as [|c t IH]; simpl; [reflexivity|now rewrite IH]. Qed.

Lemma substring_append_r s t :
  String.substring (String.length s) (String.length t) (s +:+ t) = t.
Proof. induction s as [|c s IH]; [apply substring_full|exact IH]. Qed.

Lemma ends_with_append suffix s :
  Consolidate.ends_with suffix (s +:+ suffix) = true.
Proof.
  unfold Consolidate.ends_with. rewrite string_length_append.
  replace (String.length s + String.length suffix - String.length suffix)%nat
    with (String.length s) by lia.
  rewrite substring_append_r, String.eqb_refl, andb_true_r.
  apply Nat.leb_le. lia.
Qed.

Lemma append_assoc s t u : (s +:+ t) +:+ u = s +:+ t +:+ u.
Proof.
  induction s as [|c s IH]; [reflexivity|].
  change ((String c s +:+ t) +:+ u) with (String c ((s +:+ t) +:+ u)).
  now rewrite IH.
Qed.

Lemma prefix_append s t : String.prefix s (s +:+ t) = true.
Proof.
  apply String.prefix_correct.
  induction s as [|c s IH]; [now destruct t|].
  change (String c s +:+ t) with (String c (s +:+ t)). simpl.
  now rewrite IH.
Qed.

Lemma page_name_matches offset :
  Consolidate.fnmatch_capture (Fetch.page_name offset) = true.
Proof.
  unfold Consolidate.fnmatch_capture, Fetch.page_name.
  rewrite !andb_true_iff. split; [split|].
  - apply prefix_append.
  - rewrite <- append_assoc. apply ends_with_append.
  - apply Nat.leb_le. rewrite !string_length_append. simpl. lia.
Qed.

Lemma has_slash_append s t :
  has_slash (s +:+ t) = has_slash s || has_slash t.
Proof.
  induction s as [|c s IH]; [reflexivity|].
  change (String c s +:+ t) with (String c (s +:+ t)). simpl.
  now rewrite IH, orb_assoc.
Qed.

Lemma has_slash_uint d :
  has_slash (NilEmpty.string_of_uint d) = false.
Proof. induction d; simpl; auto. Qed.

Lemma page_name_no_slash offset : has_slash (Fetch.page_name offset) = false.
Proof.
  unfold Fetch.page_name. rewrite !has_slash_append.
  replace (has_slash (NilZero.string_of_int (Z.to_int offset))) with false;
    [reflexivity|].
  symmetry. unfold NilZero.string_of_int, NilZero.string_of_uint.
  destruct (Z.to_int offset) as [d|d]; destruct d; simpl;
    auto using has_slash_uint.
Qed.

Lemma basename_no_slash s : has_slash s = false -> basename s = s.
Proof.
  destruct s as [|c s]; simpl; [reflexivity|].
  intros H. apply orb_false_iff in H as [H1 H2]. now rewrite H2, H1.
Qed.

Lemma ends_with_slash_has_slash d :
  ends_with_slash d = true -> has_slash d = true.
Proof.
  induction d as [|c d IH]; [discriminate|].
  destruct d as [|c' d'].
  - simpl. intros ->. reflexivity.
  - intros H. simpl. apply orb_true_iff. right. apply IH. exact H.
Qed.

Lemma basename_append d s :
  has_slash s = false -> d = "" \/ ends_with_slash d = true ->
  basename (d +:+ s) = s.
Proof.
  intros Hs [->|Hd]; [now apply basename_no_slash|].
  induction d as [|c d IH]; [discriminate|].
  change (String c d +:+ s) with (String c (d +:+ s)).
  cbn [basename]. rewrite has_slash_append, Hs, orb_false_r.
  destruct d as [|c' d'].
  - change ("" +:+ s) with s. cbn [has_slash]. simpl in Hd. now rewrite Hd.
  - assert (Hd' : ends_with_slash (String c' d') = true) by exact Hd.
    rewrite (ends_with_slash_has_slash _ Hd'). now apply IH.
Qed.

Lemma basename_page dir offset :
  basename (path_join dir (Fetch.page_name offset)) = Fetch.page_name offset.
Proof.
  pose proof (page_name_no_slash offset) as Hs. unfold path_join.
  replace (String.prefix "/" (Fetch.page_name offset)) with false
    by reflexivity.
  destruct (String.eqb dir "" || ends_with_slash dir) eqn:E.
  - apply basename_append; [exact Hs|].
    apply orb_true_iff in E as [E|E]; [left; now apply String.eqb_eq|auto].
  - rewrite <- append_assoc. apply basename_append.
    + exact Hs.
    + right. clear. induction dir as [|c d IH]; [reflexivity|].
      change (String c d +:+ "/") with (String c (d +:+ "/")).
      cbn [ends_with_slash]. destruct (d +:+ "/") eqn:Ed; [|exact IH].
      destruct d; discriminate.
Qed.

(** What [save_raw_response] writes, [read_raw_courses] finds: the page's
    name matches the pattern the consolidation globs for, whatever the
    offset, and from a directory that lists the page, and whose own name
    holds no wildcard, the courses come back in order, each with the page's
    name, offset and fetch time on it and its other fields as they were
    saved. *)
Theorem saved_page_is_read_back o now courses dir off st st' o' out :
  Fetch.save_raw_response o now courses dir off st = (st', Ok tt) ->
  has_magic dir = false ->
  scandir o' = [Fetch.page_name off] ->
  exists raw,
    Consolidate.read_raw_courses o' dir (mkWorld (Fetch.files st') out)
    = (mkWorld (Fetch.files st') out, Ok raw) /\
    Forall2
      (fun (c r : row) =>
         cell r "_raw_file" = VStr (Fetch.page_name off) /\
         cell r "_offset" = VNum (inject_Z off) /\
         cell r "_fetched_at" = VStr (now +:+ "Z") /\
         forall k, k <> "_raw_file" -> k <> "_fetched_at" -> k <> "_offset" ->
                   r !! k = c !! k)
      courses raw.
Proof.
  unfold Fetch.save_raw_response. intros Hsave _ Hdir.
  destruct (String.eqb dir ""); [discriminate|].
  set (filename := path_join dir (Fetch.page_name off)) in *.
  destruct (breaks o filename); [discriminate|].
  injection Hsave as <-. cbn [Fetch.files Fetch.say].
  exists (map (Consolidate.stamp (Fetch.wrap now off courses) filename)
            courses).
  split.
  - unfold Consolidate.read_raw_courses, Consolidate.glob.
    rewrite Hdir. cbn [List.filter]. rewrite page_name_matches.
    cbn [map stable_sort insert_sorted]. fold filename.
    unfold mbind, io_bind, get_fs, lift. cbn [fs].
    cbn [Consolidate.read_files]. unfold Consolidate.json_load.
    rewrite lookup_insert_eq. reflexivity.
  - apply Forall2_fmap_r, Forall_Forall2_diag, Forall_forall.
    intros c _. unfold Consolidate.stamp. cbn [fetched_at offset default
      Fetch.wrap].
    split; [rewrite cell_insert_eq; unfold filename;
            now rewrite basename_page|].
    split; [rewrite cell_insert_ne by discriminate; apply cell_insert_eq|].
    split.
    + rewrite cell_insert_ne by discriminate.
      rewrite cell_insert_ne by discriminate. apply cell_insert_eq.
    + intros k K1 K2 K3. now rewrite !lookup_insert_ne by congruence.
Qed.

(** ** What a fetch run saves *)

Lemma saved_say e st :
  saved (Fetch.log (Fetch.say e st))
  = saved (Fetch.log st)
    ++ match e with Fetch.Saved f => [f] | _ => [] end.
Proof.
  unfold saved, Fetch.say. cbn [Fetch.log]. rewrite omap_app.
  now destruct e.
Qed.

Lemma save_raw_response_saved o now courses dir off st :
  let r := Fetch.save_raw_response o now courses dir off st in
  match snd r with
  | Ok _ => saved (Fetch.log (fst r))
            = saved (Fetch.log st) ++ [path_join dir (Fetch.page_name off)]
  | Err _ => saved (Fetch.log (fst r)) = saved (Fetch.log st)
  end.
Proof.
  cbv zeta. unfold Fetch.save_raw_response.
  destruct (String.eqb dir ""); [reflexivity|].
  destruct (breaks o _); [reflexivity|].
  cbn [fst snd]. now rewrite saved_say.
Qed.

Lemma append_inv_head s x y : s +:+ x = s +:+ y -> x = y.
Proof.
  induction s as [|c s IH]; [now intros|].
  change (String c s +:+ ?t) with (String c (s +:+ t)).
  intros [= H]. now apply IH.
Qed.

Lemma append_inv_tail t x y : x +:+ t = y +:+ t -> x = y.
Proof.
  revert y. induction x as [|c x IH]; intros [|c' y] H.
  - reflexivity.
  - apply (f_equal String.length) in H.
    change (String c' y +:+ t) with (String c' (y +:+ t)) in H.
    change ("" +:+ t) with t in H.
    simpl in H. rewrite string_length_append in H. lia.
  - apply (f_equal String.length) in H.
    change (String c x +:+ t) with (String c (x +:+ t)) in H.
    change ("" +:+ t) with t in H.
    simpl in H. rewrite string_length_append in H. lia.
  - change (String c x +:+ t) with (String c (x +:+ t)) in H.
    change (String c' y +:+ t) with (String c' (y +:+ t)) in H.
    injection H as -> H. f_equal. now apply IH.
Qed.

Lemma to_int_proper z :
  Z.to_int z <> Decimal.Pos Decimal.Nil /\
  Z.to_int z <> Decimal.Neg Decimal.Nil.
Proof.
  destruct z as [|p|p]; simpl; split; try discriminate;
    intros [= H]; now apply Unsigned.to_uint_nonnil in H.
Qed.

(** Different offsets give different page names. *)
Lemma page_name_inj a b : Fetch.page_name a = Fetch.page_name b -> a = b.
Proof.
  unfold Fetch.page_name. intros H.
  apply append_inv_head, append_inv_tail in H.
  apply (f_equal NilZero.int_of_string) in H.
  destruct (to_int_proper a), (to_int_proper b).
  rewrite !NilZero.isi in H by assumption.
  injection H as H. now apply to_int_inj.
Qed.

Lemma page_path_inj dir a b :
  path_join dir (Fetch.page_name a) = path_join dir (Fetch.page_name b) ->
  a = b.
Proof.
  intros H. apply (f_equal basename) in H. rewrite !basename_page in H.
  now apply page_name_inj.
Qed.

Section FetchRun.
Variable o : os.
Variable api_key : string.
Variable min_rating : option Q.
Variable limit : Z.
Variable max_pages : option Z.
Variable out_dir : string.

Local Abbreviation run clock :=
  (Fetch.fetch_pages o clock api_key min_rating limit max_pages out_dir).

Let name (off : Z) (k : nat) : string :=
  path_join out_dir (Fetch.page_name (off + Z.of_nat k * limit)).

Let pages (budget : nat) (off page : Z) (before after : list string)
  : Prop :=
  exists m : nat,
    after = before ++ map (name off) (seq 0 m) /\
    (m <= budget)%nat /\
    forall M, max_pages = Some M -> 0 < M -> page < M ->
              Z.of_nat m <= M - page.

Lemma pages_none budget off page l : pages budget off page l l.
Proof.
  exists 0%nat. simpl. rewrite app_nil_r. repeat split; lia.
Qed.

Lemma pages_retry budget off page before after :
  pages budget off page before after ->
  pages (S budget) off page before after.
Proof. intros (m & ? & ? & ?). exists m. repeat split; auto. Qed.

Lemma pages_one budget off page l :
  pages (S budget) off page l (l ++ [name off 0]).
Proof.
  exists 1%nat. simpl. repeat split; [lia|]. intros M _ _ ?. lia.
Qed.

Lemma pages_more budget off page before after :
  Fetch.reached max_pages (page + 1) = false ->
  pages budget (off + limit) (page + 1) (before ++ [name off 0]) after ->
  pages (S budget) off page before after.
Proof.
  intros Hr (m & -> & Hlen & Hmax). exists (S m). split; [|split].
  - rewrite <- app_assoc. f_equal. simpl. f_equal.
    rewrite <- seq_shift, map_map. apply map_ext. intros k.
    unfold name. do 2 f_equal. lia.
  - lia.
  - intros M HM Hpos Hlt. rewrite Nat2Z.inj_succ.
    unfold Fetch.reached in Hr. rewrite HM in Hr.
    apply andb_false_iff in Hr as [Hr|Hr].
    + apply negb_false_iff, Z.eqb_eq in Hr. lia.
    + apply Z.leb_gt in Hr. specialize (Hmax M HM Hpos). lia.
Qed.

Lemma fetch_pages_saved clock replies n off page st :
  exists m : nat,
    saved (Fetch.log (fst (run clock replies n off page st)))
    = saved (Fetch.log st)
      ++ map (fun k => path_join out_dir
                         (Fetch.page_name (off + Z.of_nat k * limit)))
           (seq 0 m) /\
    (m <= length replies)%nat /\
    forall M, max_pages = Some M -> 0 < M -> page < M ->
              Z.of_nat m <= M - page.
Proof.
  change (pages (length replies) off page (saved (Fetch.log st))
            (saved (Fetch.log (fst (run clock replies n off page st))))).
  revert n off page st.
  induction replies as [|resp replies IH]; intros n off page st;
    [apply pages_none|].
  cbn [Fetch.fetch_pages length].
  set (st1 := Fetch.say (Fetch.Get api_key min_rating limit off)
                (Fetch.say (Fetch.Fetching off (page + 1)) st)).
  assert (H1 : saved (Fetch.log st1) = saved (Fetch.log st))
    by (unfold st1; now rewrite !saved_say, !app_nil_r).
  assert (Hretry : forall e1 e2,
    saved (Fetch.log (Fetch.say e2 (Fetch.say e1 st1)))
    = saved (Fetch.log st) ->
    pages (S (length replies)) off page (saved (Fetch.log st))
      (saved (Fetch.log
                (fst (run clock replies (S n) off page
                        (Fetch.say e2 (Fetch.say e1 st1))))))).
  { intros e1 e2 E. apply pages_retry. rewrite <- E. apply IH. }
  destruct resp as [|code json].
  { apply Hretry. now rewrite !saved_say, !app_nil_r. }
  destruct (code =? 429).
  { apply Hretry. now rewrite !saved_say, !app_nil_r. }
  destruct (500 <=? code).
  { apply Hretry. now rewrite !saved_say, !app_nil_r. }
  destruct (400 <=? code); [cbn [fst]; rewrite H1; apply pages_none|].
  destruct json as [b|]; [|cbn [fst]; rewrite H1; apply pages_none].
  set (cs := List.filter Fetch.is_us (default [] (Fetch.body_courses b))).
  pose proof (save_raw_response_saved o (clock n) cs out_dir off st1) as Hs.
  cbv zeta in Hs.
  destruct (Fetch.save_raw_response o (clock n) cs out_dir off st1)
    as [st2 [[]|e]]; cbn [fst snd] in Hs.
  2:{ cbn [fst]. rewrite Hs, H1. apply pages_none. }
  rewrite H1 in Hs.
  assert (Hn : path_join out_dir (Fetch.page_name off) = name off 0).
  { unfold name. do 2 f_equal. simpl. lia. }
  rewrite Hn in Hs.
  destruct (Fetch.count_of b cs) as [count|];
    [|cbn [fst]; rewrite Hs; apply pages_one].
  destruct (Qle_bool (inject_Z limit) count).
  - destruct (Fetch.reached max_pages (page + 1)) eqn:Hr.
    + cbn [fst]. rewrite saved_say, app_nil_r, Hs. apply pages_one.
    + apply pages_more; [exact Hr|]. rewrite <- Hs.
      replace (saved (Fetch.log st2))
        with (saved (Fetch.log (Fetch.say (Fetch.Sleep (2 # 10)) st2)))
        by (now rewrite saved_say, app_nil_r).
      apply IH.
  - cbn [fst]. rewrite saved_say, app_nil_r, Hs. apply pages_one.
Qed.

(** Whatever the server answers, the pages a run saves are those at
    [offset], [offset + limit], [offset + 2 limit], ... in this order and
    without a gap, one per response at most, and no more than [max_pages] of
    them when that is a positive number.  With a [limit] other than 0 these
    are different files: no page is saved twice.  (With [--limit 0] every
    page is written to the file of the first one.) *)
Theorem fetch_saves_consecutive_pages clock replies n off page st :
  exists m : nat,
    let files := map (fun k => path_join out_dir
                                 (Fetch.page_name (off + Z.of_nat k * limit)))
                   (seq 0 m) in
    saved (Fetch.log (fst (run clock replies n off page st)))
    = saved (Fetch.log st) ++ files /\
    (m <= length replies)%nat /\
    (forall M, max_pages = Some M -> 0 < M -> page < M ->
               Z.of_nat m <= M - page) /\
    (limit <> 0 -> List.NoDup files) /\
    (limit = 0 ->
     files = repeat (path_join out_dir (Fetch.page_name off)) m).
Proof.
  destruct (fetch_pages_saved clock replies n off page st)
    as (m & Hsaved & Hlen & Hmax).
  exists m. cbv zeta. split; [exact Hsaved|]. split; [exact Hlen|].
  split; [exact Hmax|]. split.
  - intros Hne. apply NoDup_ListNoDup.
    change (map ?f ?l) with (f <$> l).
    apply NoDup_fmap_2_strong; [|apply NoDup_seq].
    intros i j _ _ E. apply page_path_inj in E. nia.
  - intros ->. clear. generalize 0%nat.
    induction m as [|m IH]; intros k; simpl; [reflexivity|].
    f_equal; [do 2 f_equal; lia|apply IH].
Qed.

(** A run writes a capture only after the country filter: every capture
    that is on disk after the run and was not there before holds courses
    of the United States only, under one of the three spellings the
    filter knows. *)
Theorem fetch_saves_only_us_courses clock replies n off page st p e :
  Fetch.files (fst (run clock replies n off page st)) !! p = Some (FCapture e) ->
  Fetch.files st !! p = Some (FCapture e) \/
  List.Forall (fun c => Fetch.is_us c = true) (Consolidate.courses_of e).
Proof.
  revert n off page st.
  induction replies as [|resp replies IH]; intros n off page st;
    [now left|].
  cbn [Fetch.fetch_pages].
  set (st1 := Fetch.say (Fetch.Get api_key min_rating limit off)
                (Fetch.say (Fetch.Fetching off (page + 1)) st)).
  assert (Hretry : forall e1 e2,
    Fetch.files (fst (run clock replies (S n) off page
                        (Fetch.say e2 (Fetch.say e1 st1)))) !! p
    = Some (FCapture e) ->
    Fetch.files st !! p = Some (FCapture e) \/
    List.Forall (fun c => Fetch.is_us c = true) (Consolidate.courses_of e)).
  { intros e1 e2 H. apply IH in H. exact H. }
  destruct resp as [|code json]; [apply Hretry|].
  destruct (code =? 429); [apply Hretry|].
  destruct (500 <=? code); [apply Hretry|].
  destruct (400 <=? code); [now left|].
  destruct json as [b|]; [|now left].
  set (cs := List.filter Fetch.is_us (default [] (Fetch.body_courses b))).
  assert (Hcs : List.Forall (fun c => Fetch.is_us c = true) cs).
  { apply List.Forall_forall. intros c Hc.
    now apply List.filter_In in Hc. }
  assert (Hsave : forall st2 r,
    Fetch.save_raw_response o (clock n) cs out_dir off st1 = (st2, r) ->
    Fetch.files st2 !! p = Some (FCapture e) ->
    Fetch.files st !! p = Some (FCapture e) \/
    List.Forall (fun c => Fetch.is_us c = true) (Consolidate.courses_of e)).
  { unfold Fetch.save_raw_response. intros st2 r Hsv.
    destruct (String.eqb out_dir ""); [injection Hsv as <- _; now left|].
    destruct (breaks o _); injection Hsv as <- _; cbn [Fetch.files Fetch.say];
      rewrite lookup_insert; case_decide.
    - discriminate.
    - intros Hp. left. exact Hp.
    - intros [= <-]. right. exact Hcs.
    - intros Hp. left. exact Hp. }
  destruct (Fetch.save_raw_response o (clock n) cs out_dir off st1)
    as [st2 r] eqn:Hsv.
  pose proof (Hsave st2 r eq_refl) as Hst2. clear Hsave Hsv.
  destruct r as [[]|err]; [|exact Hst2].
  destruct (Fetch.count_of b cs) as [count|]; [|exact Hst2].
  destruct (Qle_bool (inject_Z limit) count); [|exact Hst2].
  destruct (Fetch.reached max_pages (page + 1)); [exact Hst2|].
  intros H. apply IH in H as [H|H]; [|now right].
  apply Hst2. exact H.
Qed.

(** The script never gives up on a server that fails: after a request that
    raised, a 429 or a status of 500 and above it waits and sends the same
    request again.  So a run of such responses before the others changes
    nothing but the time: the same files are written and the run ends the
    same way as if the server had answered at once, the clock that much
    later. *)
Lemma fetch_clock clockA clockB replies nA nB off page st :
  (forall k, clockA (nA + k)%nat = clockB (nB + k)%nat) ->
  run clockA replies nA off page st = run clockB replies nB off page st.
Proof.
  revert nA nB off page st.
  induction replies as [|resp replies IH]; intros nA nB off page st Hc;
    [reflexivity|].
  cbn [Fetch.fetch_pages].
  assert (H0 : clockA nA = clockB nB).
  { specialize (Hc 0%nat). now rewrite !Nat.add_0_r in Hc. }
  assert (HS : forall k, clockA (S nA + k)%nat = clockB (S nB + k)%nat).
  { intros k. specialize (Hc (S k)).
    now rewrite <- !Nat.add_succ_comm in Hc. }
  rewrite H0.
  destruct resp as [|code json]; [now apply IH|].
  destruct (code =? 429); [now apply IH|].
  destruct (500 <=? code); [now apply IH|].
  destruct (400 <=? code); [reflexivity|].
  destruct json as [b|]; [|reflexivity].
  destruct (Fetch.save_raw_response _ _ _ _ _ _) as [st2 [[]|e]];
    [|reflexivity].
  destruct (Fetch.count_of _ _); [|reflexivity].
  destruct (Qle_bool _ _); [|reflexivity].
  destruct (Fetch.reached _ _); [reflexivity|]. now apply IH.
Qed.

(** What was printed before does not steer the run. *)
Lemma fetch_log clock replies n off page st1 st2 :
  Fetch.files st1 = Fetch.files st2 ->
  saved (Fetch.log st1) = saved (Fetch.log st2) ->
  let r1 := run clock replies n off page st1 in
  let r2 := run clock replies n off page st2 in
  Fetch.files (fst r1) = Fetch.files (fst r2) /\
  snd r1 = snd r2 /\
  saved (Fetch.log (fst r1)) = saved (Fetch.log (fst r2)).
Proof.
  revert n off page st1 st2.
  induction replies as [|resp replies IH]; intros n off page st1 st2 Hf Hl;
    cbv zeta; [auto|].
  cbn [Fetch.fetch_pages].
  assert (Hsay : forall e s1 s2,
    Fetch.files s1 = Fetch.files s2 ->
    saved (Fetch.log s1) = saved (Fetch.log s2) ->
    Fetch.files (Fetch.say e s1) = Fetch.files (Fetch.say e s2) /\
    saved (Fetch.log (Fetch.say e s1)) = saved (Fetch.log (Fetch.say e s2))).
  { intros e s1 s2 H1 H2. split; [exact H1|]. rewrite !saved_say.
    now rewrite H2. }
  set (a1 := Fetch.say (Fetch.Get api_key min_rating limit off)
               (Fetch.say (Fetch.Fetching off (page + 1)) st1)).
  set (a2 := Fetch.say (Fetch.Get api_key min_rating limit off)
               (Fetch.say (Fetch.Fetching off (page + 1)) st2)).
  assert (Ha : Fetch.files a1 = Fetch.files a2 /\
               saved (Fetch.log a1) = saved (Fetch.log a2)).
  { apply Hsay; apply Hsay; assumption. }
  destruct Ha as [Haf Hal].
  assert (Hretry : forall e1 e2,
    let r1 := run clock replies (S n) off page
                (Fetch.say e2 (Fetch.say e1 a1)) in
    let r2 := run clock replies (S n) off page
                (Fetch.say e2 (Fetch.say e1 a2)) in
    Fetch.files (fst r1) = Fetch.files (fst r2) /\
    snd r1 = snd r2 /\
    saved (Fetch.log (fst r1)) = saved (Fetch.log (fst r2))).
  { intros e1 e2. apply IH; apply Hsay; try apply Hsay; assumption. }
  destruct resp as [|code json]; [apply Hretry|].
  destruct (code =? 429); [apply Hretry|].
  destruct (500 <=? code); [apply Hretry|].
  destruct (400 <=? code); [cbn [fst snd]; auto|].
  destruct json as [b|]; [|cbn [fst snd]; auto].
  set (cs := List.filter Fetch.is_us (default [] (Fetch.body_courses b))).
  unfold Fetch.save_raw_response.
  destruct (String.eqb out_dir ""); [cbn [fst snd]; auto|].
  destruct (breaks o _).
  { cbn [fst snd Fetch.files Fetch.log]. rewrite Haf. auto. }
  set (b1 := Fetch.say _ (Fetch.mkState _ (Fetch.log a1))).
  set (b2 := Fetch.say _ (Fetch.mkState _ (Fetch.log a2))).
  assert (Hb : Fetch.files b1 = Fetch.files b2 /\
               saved (Fetch.log b1) = saved (Fetch.log b2)).
  { unfold b1, b2. apply Hsay; cbn [Fetch.files Fetch.log];
      [now rewrite Haf|exact Hal]. }
  destruct Hb as [Hbf Hbl].
  destruct (Fetch.count_of b cs); [|cbn [fst snd]; auto].
  destruct (Qle_bool _ _).
  - destruct (Fetch.reached _ _).
    + cbn [fst snd]. split; [exact Hbf|]. split; [reflexivity|].
      now apply Hsay.
    + apply IH; now apply Hsay.
  - cbn [fst snd]. split; [exact Hbf|]. split; [reflexivity|].
    now apply Hsay.
Qed.

(** The script never gives up on a server that fails: after a request that
    raised, a 429 or a status of 500 and above it waits and sends the same
    request again.  So a run of such responses before the others changes
    nothing but the time: the same files are written, the same pages are
    reported and the run ends the same way as if the server had answered
    at once, the clock that much later. *)
Theorem transient_failures_are_retried clock retries replies n off page st :
  forallb transient retries = true ->
  let r1 := run clock (retries ++ replies) n off page st in
  let r2 := run (fun k => clock (length retries + k)%nat) replies n off page
              st in
  Fetch.files (fst r1) = Fetch.files (fst r2) /\
  snd r1 = snd r2 /\
  saved (Fetch.log (fst r1)) = saved (Fetch.log (fst r2)).
Proof.
  revert n st. induction retries as [|r retries IH]; intros n st Ht; cbv zeta.
  - cbn [app length]. rewrite (fetch_clock clock (fun k => clock (0 + k)%nat)
                                 replies n n off page st); auto.
  - cbn [forallb] in Ht. apply andb_true_iff in Ht as [Hr Ht].
    cbn [app length].
    set (st1 := Fetch.say (Fetch.Get api_key min_rating limit off)
                  (Fetch.say (Fetch.Fetching off (page + 1)) st)).
    assert (Hstep : exists e1 e2,
      run clock (r :: retries ++ replies) n off page st
      = run clock (retries ++ replies) (S n) off page
          (Fetch.say e2 (Fetch.say e1 st1)) /\
      (forall f, e1 <> Fetch.Saved f) /\ (forall f, e2 <> Fetch.Saved f)).
    { cbn [Fetch.fetch_pages]. fold st1.
      destruct r as [|code json]; [do 2 eexists; repeat split; discriminate|].
      simpl in Hr. destruct (code =? 429);
        [do 2 eexists; repeat split; discriminate|].
      simpl in Hr. rewrite Hr.
      do 2 eexists; repeat split; discriminate. }
    destruct Hstep as (e1 & e2 & -> & H1 & H2).
    set (st2 := Fetch.say e2 (Fetch.say e1 st1)).
    destruct (IH (S n) st2 Ht) as (F1 & F2 & F3). cbv zeta in F1, F2, F3.
    rewrite (fetch_clock (fun k => clock (length retries + k)%nat)
               (fun k => clock (S (length retries) + k)%nat)
               replies (S n) n off page st2) in F1, F2, F3
      by (intros k; f_equal; lia).
    destruct (fetch_log (fun k => clock (S (length retries) + k)%nat)
                replies n off page st2 st) as (G1 & G2 & G3).
    + reflexivity.
    + unfold st2, st1. rewrite !saved_say, !app_nil_r.
      destruct e1; try (now destruct (H1 filename));
        destruct e2; try (now destruct (H2 filename));
        now rewrite !app_nil_r.
    + cbv zeta in G1, G2, G3. repeat split; congruence.
Qed.

End FetchRun.

(** ** The theorems at work on the sample data *)


Lemma default_weights_nonneg k v :
  Metrics.default_weights !! k = Some v -> (0 <= v)%Q.
Proof.
  intros H. apply elem_of_map_to_list in H.
  assert (Hall : Forall (fun kv : string * Q => (0 <= snd kv)%Q)
                   (map_to_list Metrics.default_weights)).
  { vm_compute. repeat constructor; discriminate. }
  rewrite Forall_forall in Hall. exact (Hall (k, v) H).
Qed.

Lemma renormalized_weights_sum_to_one_witness :
  let scored := Cases.scored_regions in
  Metrics.add_score None Sample.regions = Ok scored /\
  (forall k v, default Metrics.default_weights None !! k = Some v ->
               (0 <= v)%Q) /\
  active_metrics None Sample.regions <> [] /\
  let w0 := default Metrics.default_weights None in
  (forall c, In c (active_metrics None Sample.regions) <->
             In c Metrics.metric_names /\ has_col c Sample.regions = true /\
             ~ (default 0 (w0 !! c) == 0)%Q) /\
  (Qsum (map (share w0 Sample.regions) (active_metrics None Sample.regions))
   == 1)%Q /\
  (Qsum (map (share w0 Sample.regions) Metrics.metric_names) == 1)%Q /\
  (forall w1 : gmap string Q,
     (forall c, In c Metrics.metric_names ->
                has_col c Sample.regions = true -> w1 !! c = w0 !! c) ->
     Metrics.add_score (Some w1) Sample.regions = Ok scored) /\
  exists scaled,
    Metrics.scaled_matrix Sample.regions = Ok scaled /\
    map fst scaled
    = List.filter (fun c => has_col c Sample.regions) Metrics.metric_names /\
    forall i r,
      rows scored !! i = Some r ->
      is_float (cell r "score")
        (weighted (map (fun cx => default None (snd cx !! i)) scaled)
           (map (fun cx => share w0 Sample.regions (fst cx)) scaled)).
Proof.
  cbv zeta.
  split; [reflexivity|].
  split; [exact default_weights_nonneg|].
  split; [vm_compute; discriminate|].
  apply (renormalized_weights_sum_to_one None Sample.regions).
  - reflexivity.
  - exact default_weights_nonneg.
  - vm_compute; discriminate.
Defined.

Lemma enrichment_keeps_region_rows_witness :
  Metrics.region_table short_arrays Sample.disk_states_once Sample.courses
    (Some "data/states.csv") = Ok Sample.enriched_regions /\
  exists agg,
    (Metrics.dedup_courses short_arrays Sample.courses ≫= Metrics.aggregate)
    = Ok agg /\
    has_col "state_golfable" agg = false /\
    ("data/states.csv" = "" \/
     Sample.disk_states_once !! "data/states.csv" = None ->
     Sample.enriched_regions = agg) /\
    forall states,
      "data/states.csv" <> "" ->
      is_Some (Sample.disk_states_once !! "data/states.csv") ->
      Metrics.read_states Sample.disk_states_once "data/states.csv"
      = Ok states ->
      (has_col "golfable_year_round" states = false ->
       Sample.enriched_regions = agg) /\
      (has_col "golfable_year_round" states = true ->
       let key := if has_col "state" states then "state" else "state_name" in
       (exists groups,
          rows Sample.enriched_regions = concat groups /\
          Forall2 (joined key states) (rows agg) groups) /\
       (unique_keys key states ->
        Forall2 (enriched key states) (rows agg)
          (rows Sample.enriched_regions))).
Proof.
  split; [vm_compute; reflexivity|].
  apply (enrichment_keeps_region_rows short_arrays Sample.disk_states_once
           Sample.courses
           (Some "data/states.csv") Sample.enriched_regions).
  vm_compute; reflexivity.
Defined.

Lemma no_region_columns_aborts_before_write_witness :
  Metrics.read_parquet Sample.disk_nowhere
    "data/processed/teeradar_courses.parquet" = Ok Sample.courses_nowhere /\
  Metrics.dedup_courses short_arrays Sample.courses_nowhere
  = Ok Sample.courses_nowhere /\
  has_col "city" Sample.courses_nowhere = false /\
  has_col "state" Sample.courses_nowhere = false /\
  Metrics.compute_metrics short_arrays Sample.disk_nowhere
    Sample.courses_nowhere None None
  = Err Metrics.no_region_columns /\
  Metrics.main short_arrays Sample.quiet_os Sample.metrics_args
    (mkWorld Sample.disk_nowhere [])
  = (mkWorld Sample.disk_nowhere [], Err Metrics.no_region_columns).
Proof.
  split; [vm_compute; reflexivity|].
  split; [vm_compute; reflexivity|].
  split; [reflexivity|]. split; [reflexivity|].
  apply (no_region_columns_aborts_before_write short_arrays Sample.quiet_os
           Sample.metrics_args (mkWorld Sample.disk_nowhere [])
           Sample.courses_nowhere Sample.courses_nowhere);
    vm_compute; reflexivity.
Defined.

Lemma no_records_no_outputs_witness :
  Consolidate.read_raw_courses Sample.os_one_page "data/raw"
    (mkWorld Sample.disk_empty_page [])
  = (mkWorld Sample.disk_empty_page [], Ok []) /\
  Consolidate.main Sample.no_number Sample.no_datetime short_arrays
    Sample.os_one_page Sample.consolidate_args (mkWorld Sample.disk_empty_page [])
  = (mkWorld Sample.disk_empty_page [NoData], Ok tt).
Proof.
  split; [vm_compute; reflexivity|].
  apply (no_records_no_outputs short_arrays Sample.no_number
           Sample.no_datetime
           Sample.os_one_page Sample.consolidate_args
           (mkWorld Sample.disk_empty_page [])
           (mkWorld Sample.disk_empty_page [])).
  vm_compute; reflexivity.
Defined.


(** ** The further properties at work on the sample data *)

Lemma regions_are_the_distinct_labels_witness :
  Metrics.aggregate Sample.courses = Ok Cases.course_regions /\
  let cols := Metrics.group_cols Sample.courses in
  (forall a, In a (rows Cases.course_regions) ->
     located cols a /\
     exists r, In r (rows Sample.courses) /\
               forall c, In c cols -> cell a c = cell r c) /\
  (forall r, In r (rows Sample.courses) -> located cols r ->
     exists a, In a (rows Cases.course_regions) /\ same_region cols r a) /\
  (forall i j a b,
     rows Cases.course_regions !! i = Some a ->
     rows Cases.course_regions !! j = Some b ->
     same_region cols a b -> i = j).
Proof.
  split; [reflexivity|].
  apply (regions_are_the_distinct_labels Sample.courses Cases.course_regions).
  reflexivity.
Defined.

Lemma courses_without_fetch_time_are_refused_witness :
  Metrics.read_parquet Cases.disk_unstamped
    (Metrics.arg_courses Sample.metrics_args) = Ok Cases.courses_unstamped /\
  has_col "course_id" Cases.courses_unstamped = true /\
  has_col "_fetched_at" Cases.courses_unstamped = false /\
  (forall weights csv,
      Metrics.compute_metrics short_arrays Cases.disk_unstamped
        Cases.courses_unstamped weights csv = Err (KeyError "_fetched_at")) /\
  Metrics.main short_arrays Sample.quiet_os Sample.metrics_args
    (mkWorld Cases.disk_unstamped [])
  = (mkWorld Cases.disk_unstamped [], Err (KeyError "_fetched_at")).
Proof.
  split; [reflexivity|]. split; [reflexivity|]. split; [reflexivity|].
  apply (courses_without_fetch_time_are_refused short_arrays Sample.quiet_os
           Sample.metrics_args (mkWorld Cases.disk_unstamped [])
           Cases.courses_unstamped); reflexivity.
Defined.

Lemma courses_without_id_or_name_are_refused_witness :
  has_col "course_id" Cases.courses_anonymous = false /\
  has_col "name" Cases.courses_anonymous = false /\
  Metrics.group_cols Cases.courses_anonymous <> [] /\
  Metrics.compute_metrics short_arrays ∅ Cases.courses_anonymous None None
  = Err (KeyError "name").
Proof.
  split; [reflexivity|]. split; [reflexivity|].
  split; [vm_compute; discriminate|].
  apply (courses_without_id_or_name_are_refused short_arrays ∅
           Cases.courses_anonymous None None).
  - reflexivity.
  - reflexivity.
  - vm_compute; discriminate.
Defined.

Lemma reference_without_state_column_is_fatal_witness :
  (Metrics.dedup_courses short_arrays Cases.courses_city_only
     ≫= Metrics.aggregate) = Ok Cases.city_regions /\
  has_col "state" Cases.courses_city_only = false /\
  is_Some (Sample.disk_states_once !! "data/states.csv") /\
  Metrics.read_states Sample.disk_states_once "data/states.csv"
  = Ok Cases.reference_once /\
  has_col "golfable_year_round" Cases.reference_once = true /\
  Metrics.compute_metrics short_arrays Sample.disk_states_once
    Cases.courses_city_only None (Some "data/states.csv")
  = Err (KeyError "golfable_year_round").
Proof.
  assert (Hfile : is_Some (Sample.disk_states_once !! "data/states.csv"))
    by (eexists; reflexivity).
  split; [reflexivity|]. split; [reflexivity|]. split; [exact Hfile|].
  split; [reflexivity|]. split; [reflexivity|].
  apply (reference_without_state_column_is_fatal short_arrays
           Sample.disk_states_once Cases.courses_city_only None
           "data/states.csv" Cases.city_regions Cases.reference_once).
  - reflexivity.
  - reflexivity.
  - discriminate.
  - exact Hfile.
  - reflexivity.
  - reflexivity.
Defined.

Lemma state_golfable_is_a_whole_number_witness :
  Metrics.join_states Sample.regions Cases.reference_twice
  = Ok Cases.joined_twice /\
  has_col "golfable_year_round" Cases.reference_twice = true /\
  has_col "state_golfable" Cases.joined_twice = true /\
  has_col "golfable_year_round" Cases.joined_twice = false /\
  has_col "state_name" Cases.joined_twice = false /\
  forall r, In r (rows Cases.joined_twice) ->
    exists z, cell r "state_golfable" = VNum (inject_Z z).
Proof.
  split; [reflexivity|]. split; [reflexivity|].
  apply (state_golfable_is_a_whole_number Sample.regions
           Cases.reference_twice Cases.joined_twice); reflexivity.
Defined.

Lemma join_never_drops_a_region_witness :
  Metrics.join_states Sample.regions Cases.reference_twice
  = Ok Cases.joined_twice /\
  In Cases.first_region (rows Sample.regions) /\
  exists r : row,
    In r (rows Cases.joined_twice) /\
    forall c, c <> "state_golfable" -> c <> "golfable_year_round" ->
              c <> "state_name" -> r !! c = Cases.first_region !! c.
Proof.
  split; [reflexivity|]. split; [left; reflexivity|].
  apply (join_never_drops_a_region Sample.regions Cases.reference_twice
           Cases.joined_twice Cases.first_region).
  - reflexivity.
  - left; reflexivity.
Defined.

Lemma rounding_touches_only_display_columns_witness :
  rows Sample.regions !! 0%nat = Some Cases.first_region /\
  columns (Metrics.round_metrics Sample.regions) = columns Sample.regions /\
  exists r' : row,
    rows (Metrics.round_metrics Sample.regions) !! 0%nat = Some r' /\
    forall c,
      (c <> "avg_rating" -> c <> "median_tee_fee" ->
       c <> "avg_length_yards" -> cell r' c = cell Cases.first_region c) /\
      is_null (cell r' c) = is_null (cell Cases.first_region c).
Proof.
  split; [reflexivity|].
  apply (rounding_touches_only_display_columns Sample.regions 0
           Cases.first_region).
  reflexivity.
Defined.

Lemma reference_with_missing_flag_is_fatal_witness :
  let r := nth 1 (rows Cases.states_blank) ∅ in
  Cases.disk_states_blank !! "data/states.csv"
  = Some (FTable Csv Cases.states_blank) /\
  List.Forall (fun c => Metrics.lower c = c) (columns Cases.states_blank) /\
  Metrics.has_dups (columns Cases.states_blank) = false /\
  has_col "golfable_year_round" Cases.states_blank = true /\
  In r (rows Cases.states_blank) /\
  cell r "golfable_year_round" = VNull /\
  exists e, Metrics.enrich Cases.disk_states_blank (Some "data/states.csv")
              Sample.regions = Err e.
Proof.
  cbv zeta.
  assert (Hlow : List.Forall (fun c => Metrics.lower c = c)
                   (columns Cases.states_blank))
    by (repeat constructor).
  split; [reflexivity|]. split; [exact Hlow|]. split; [reflexivity|].
  split; [reflexivity|]. split; [right; left; reflexivity|].
  split; [reflexivity|].
  apply (reference_with_missing_flag_is_fatal Cases.disk_states_blank
           "data/states.csv" Cases.states_blank
           (nth 1 (rows Cases.states_blank) ∅) Sample.regions).
  - discriminate.
  - reflexivity.
  - exact Hlow.
  - reflexivity.
  - reflexivity.
  - right; left; reflexivity.
  - reflexivity.
Defined.

Lemma metrics_survivor_is_latest_witness :
  sorts short_arrays /\
  Metrics.dedup_courses short_arrays Sample.courses = Ok Cases.courses_once /\
  has_col "course_id" Sample.courses = true /\
  In Cases.lions_now (rows Cases.courses_once) /\
  In Cases.lions_then (rows Sample.courses) /\
  value_eqb (cell Cases.lions_then "course_id")
    (cell Cases.lions_now "course_id") = true /\
  cell Cases.lions_now "_fetched_at" = VTime 2 /\
  cell Cases.lions_then "_fetched_at" = VTime 1 /\
  1 <= 2.
Proof.
  assert (Hin : In Cases.lions_now (rows Cases.courses_once))
    by (right; right; right; left; reflexivity).
  split; [exact short_arrays_sorts|]. split; [reflexivity|].
  split; [reflexivity|]. split; [exact Hin|].
  split; [left; reflexivity|]. split; [reflexivity|].
  split; [reflexivity|]. split; [reflexivity|].
  apply (metrics_survivor_is_latest short_arrays Sample.courses
           Cases.courses_once Cases.lions_now Cases.lions_then 2 1).
  - exact short_arrays_sorts.
  - reflexivity.
  - reflexivity.
  - exact Hin.
  - left; reflexivity.
  - reflexivity.
  - reflexivity.
  - reflexivity.
Defined.

Lemma parquet_export_is_all_or_nothing_witness :
  let o := Sample.quiet_os in
  let p := "data/processed/teeradar_courses.parquet" in
  let w := mkWorld Sample.disk_with_outputs [] in
  let tmp := dir_prefix p +:+ tmp_stem o +:+ ".parquet" in
  tmp <> p /\
  let w' := fst (Consolidate.to_parquet_atomic o Sample.regions p w) in
  match snd (Consolidate.to_parquet_atomic o Sample.regions p w) with
  | Ok _ => fs w' !! p = Some (FTable Parquet Sample.regions) /\
            fs w' !! tmp = None
  | Err e =>
      fs w' !! p = fs w !! p /\
      (has_slash p = true -> e = OSError tmp /\ fs w' !! tmp = Some FBroken)
  end.
Proof.
  cbv zeta. split; [vm_compute; discriminate|].
  apply (parquet_export_is_all_or_nothing Sample.quiet_os Sample.regions
           "data/processed/teeradar_courses.parquet"
           (mkWorld Sample.disk_with_outputs [])).
  vm_compute; discriminate.
Defined.

Lemma bare_output_name_stops_consolidation_witness :
  let w := mkWorld Sample.raw_disk [] in
  let df := Consolidate.normalize Sample.no_number
              (Consolidate.from_records Cases.raw_courses) in
  let w1 := fst (Consolidate.dedup Sample.no_datetime short_arrays
                   "course_id" df w) in
  Consolidate.read_raw_courses Sample.quiet_os "data/raw" w
  = (w, Ok Cases.raw_courses) /\
  snd (Consolidate.dedup Sample.no_datetime short_arrays "course_id" df w)
  = Ok (Cases.or_else (mkDF [] [])
          (snd (Consolidate.dedup Sample.no_datetime short_arrays
                  "course_id" df w))) /\
  Consolidate.out_parquet Cases.bare_args = Some "courses.parquet" /\
  has_slash "courses.parquet" = false /\
  Consolidate.main Sample.no_number Sample.no_datetime short_arrays
    Sample.quiet_os Cases.bare_args w
  = (w1, Err (FileNotFoundError "")) /\
  fs w1 = fs w.
Proof.
  cbv zeta. split; [reflexivity|]. split; [reflexivity|].
  split; [reflexivity|]. split; [reflexivity|].
  apply (bare_output_name_stops_consolidation short_arrays Sample.no_number
           Sample.no_datetime Sample.quiet_os Cases.bare_args
           (mkWorld Sample.raw_disk []) (mkWorld Sample.raw_disk [])
           (fst (Consolidate.dedup Sample.no_datetime short_arrays
                   "course_id"
                   (Consolidate.normalize Sample.no_number
                      (Consolidate.from_records Cases.raw_courses))
                   (mkWorld Sample.raw_disk [])))
           (nth 0 Cases.raw_courses ∅) (tl Cases.raw_courses)
           (Cases.or_else (mkDF [] [])
              (snd (Consolidate.dedup Sample.no_datetime short_arrays
                      "course_id"
                      (Consolidate.normalize Sample.no_number
                         (Consolidate.from_records Cases.raw_courses))
                      (mkWorld Sample.raw_disk []))))
           "courses.parquet").
  - reflexivity.
  - reflexivity.
  - reflexivity.
  - discriminate.
  - reflexivity.
Defined.

Lemma raw_courses_carry_their_provenance_witness :
  Consolidate.read_raw_courses Sample.quiet_os "data/raw"
    (mkWorld Sample.raw_disk [])
  = (mkWorld Sample.raw_disk [], Ok Cases.raw_courses) /\
  forall r, In r Cases.raw_courses ->
    exists fname e c,
      In fname (Consolidate.glob Sample.quiet_os "data/raw") /\
      Sample.raw_disk !! fname = Some (FCapture e) /\
      In c (Consolidate.courses_of e) /\
      cell r "_raw_file" = VStr (basename fname) /\
      cell r "_fetched_at" = default VNull (fetched_at e) /\
      cell r "_offset" = default VNull (offset e) /\
      forall k, k <> "_raw_file" -> k <> "_fetched_at" -> k <> "_offset" ->
                r !! k = c !! k.
Proof.
  split; [reflexivity|].
  apply (raw_courses_carry_their_provenance Sample.quiet_os "data/raw"
           (mkWorld Sample.raw_disk []) (mkWorld Sample.raw_disk [])
           Cases.raw_courses).
  reflexivity.
Defined.

Lemma unreadable_capture_stops_consolidation_witness :
  In "data/raw/teeradar_page_0.json"
    (Consolidate.glob Sample.quiet_os
       (Consolidate.raw_dir Sample.consolidate_args)) /\
  (forall e, (∅ : filesystem) !! "data/raw/teeradar_page_0.json"
             <> Some (FCapture e)) /\
  exists err,
    Consolidate.main Sample.no_number Sample.no_datetime short_arrays
      Sample.quiet_os Sample.consolidate_args (mkWorld ∅ [])
    = (mkWorld ∅ [], Err err).
Proof.
  split; [right; left; reflexivity|]. split; [intros e; discriminate|].
  apply (unreadable_capture_stops_consolidation short_arrays Sample.no_number
           Sample.no_datetime Sample.quiet_os Sample.consolidate_args
           (mkWorld ∅ []) "data/raw/teeradar_page_0.json").
  - right; left; reflexivity.
  - intros e; discriminate.
Defined.

Lemma unknown_dedupe_key_keeps_every_record_witness :
  let raw := rows Sample.courses_tied in
  (forall r : row, In r raw -> r !! "courseid" = None) /\
  let df := Consolidate.normalize Sample.no_number
              (Consolidate.from_records raw) in
  Consolidate.dedup Sample.no_datetime short_arrays "courseid" df
    (mkWorld ∅ []) = (mkWorld ∅ [], Ok df) /\
  length (rows df) = length raw.
Proof.
  assert (H : forall r : row, In r (rows Sample.courses_tied) ->
                              r !! "courseid" = None).
  { intros r Hr. simpl in Hr.
    destruct Hr as [<-|[<-|[<-|[]]]]; reflexivity. }
  cbv zeta. split; [exact H|].
  apply (unknown_dedupe_key_keeps_every_record short_arrays Sample.no_number
           Sample.no_datetime "courseid" (rows Sample.courses_tied)
           (mkWorld ∅ []) H).
Defined.

Lemma records_without_key_collapse_witness :
  Consolidate.dedup Sample.no_datetime short_arrays "course_id"
    Cases.courses_keyless (mkWorld ∅ [])
  = (mkWorld ∅ [Deduplicated "course_id" 2], Ok Cases.keyless_once) /\
  has_col "course_id" Cases.courses_keyless = true /\
  let before := if has_col "_fetched_at" Cases.courses_keyless
                then map_column "_fetched_at"
                       (Consolidate.to_datetime Sample.no_datetime)
                       Cases.courses_keyless
                else Cases.courses_keyless in
  List.filter (fun r => is_null (cell r "course_id"))
    (rows Cases.keyless_once)
  = option_list
      (last (List.filter (fun r => is_null (cell r "course_id"))
               (rows before))).
Proof.
  split; [reflexivity|]. split; [reflexivity|].
  apply (records_without_key_collapse short_arrays Sample.no_datetime
           "course_id" Cases.courses_keyless (mkWorld ∅ [])
           (mkWorld ∅ [Deduplicated "course_id" 2]) Cases.keyless_once).
  - reflexivity.
  - reflexivity.
Defined.

Lemma dedup_leaves_one_record_per_key_witness :
  let w' := mkWorld ∅ [Deduplicated "course_id" 2] in
  let out := Cases.keyless_once in
  sorts short_arrays /\
  Consolidate.dedup Sample.no_datetime short_arrays "course_id"
    Cases.courses_keyless (mkWorld ∅ []) = (w', Ok out) /\
  has_col "course_id" Cases.courses_keyless = true /\
  let before := if has_col "_fetched_at" Cases.courses_keyless
                then map_column "_fetched_at"
                       (Consolidate.to_datetime Sample.no_datetime)
                       Cases.courses_keyless
                else Cases.courses_keyless in
  (forall i j a b,
     rows out !! i = Some a -> rows out !! j = Some b ->
     value_eqb (cell a "course_id") (cell b "course_id") = true -> i = j) /\
  (forall a, In a (rows out) -> In a (rows before)) /\
  (forall r, In r (rows before) ->
     exists a, In a (rows out) /\
               value_eqb (cell a "course_id") (cell r "course_id") = true) /\
  fs w' = ∅.
Proof.
  cbv zeta. split; [exact short_arrays_sorts|].
  split; [reflexivity|]. split; [reflexivity|].
  apply (dedup_leaves_one_record_per_key short_arrays Sample.no_datetime
           "course_id" Cases.courses_keyless (mkWorld ∅ [])
           (mkWorld ∅ [Deduplicated "course_id" 2]) Cases.keyless_once).
  - exact short_arrays_sorts.
  - reflexivity.
  - reflexivity.
Defined.

Lemma consolidated_table_is_read_back_witness :
  let w' := fst (Consolidate.write_outputs Sample.quiet_os Cases.all_outputs
                   Sample.courses (mkWorld ∅ [])) in
  Consolidate.write_outputs Sample.quiet_os Cases.all_outputs
    Sample.courses (mkWorld ∅ []) = (w', Ok tt) /\
  Metrics.read_parquet (fs w') "data/processed/teeradar_courses.parquet"
  = Ok Sample.courses.
Proof.
  cbv zeta. split; [reflexivity|].
  apply (consolidated_table_is_read_back Sample.quiet_os Cases.all_outputs
           Sample.courses (mkWorld ∅ [])
           (fst (Consolidate.write_outputs Sample.quiet_os Cases.all_outputs
                   Sample.courses (mkWorld ∅ [])))
           "data/processed/teeradar_courses.parquet").
  - reflexivity.
  - reflexivity.
  - discriminate.
  - intros q [= <-]. split; discriminate.
  - intros q [= <-]. discriminate.
Defined.

Lemma ndjson_records_share_their_fields_witness :
  let rec := nth 0 (Consolidate.to_records Sample.courses_null_stamp) ∅ in
  In rec (Consolidate.to_records Sample.courses_null_stamp) /\
  (forall c, is_Some (rec !! c) <->
             In c (columns Sample.courses_null_stamp)) /\
  (forall c t, rec !! c <> Some (VTime t)).
Proof.
  cbv zeta. split; [left; reflexivity|].
  apply (ndjson_records_share_their_fields Sample.courses_null_stamp).
  left; reflexivity.
Defined.

Lemma consolidate_dedup_blind_witness :
  let g := fun r : row => <["_fetched_at" := VNull]> r in
  (forall r, cell (g r) "course_id" = cell r "course_id") /\
  keep_last "course_id"
    (nargsort short_arrays "course_id" true (map g (rows Sample.courses)))
  = map g (keep_last "course_id"
             (nargsort short_arrays "course_id" true (rows Sample.courses))).
Proof.
  cbv zeta.
  assert (H : forall r : row,
    cell (<["_fetched_at" := VNull]> r) "course_id" = cell r "course_id").
  { intros r. apply cell_insert_ne. discriminate. }
  split; [exact H|].
  apply (consolidate_dedup_blind short_arrays "course_id"
           (fun r : row => <["_fetched_at" := VNull]> r)
           (rows Sample.courses) H).
Defined.

Lemma consolidate_survivor_is_last_read_witness :
  stable short_arrays /\
  List.filter (fun r => value_eqb (cell r "course_id") (VStr "a"))
    (keep_last "course_id"
       (nargsort short_arrays "course_id" true (rows Sample.courses)))
  = option_list
      (last (List.filter
               (fun r => value_eqb (cell r "course_id") (VStr "a"))
               (rows Sample.courses))).
Proof.
  split; [exact short_arrays_stable|].
  apply (consolidate_survivor_is_last_read short_arrays "course_id"
           (rows Sample.courses) (VStr "a") short_arrays_stable).
Defined.

Lemma saved_page_is_read_back_witness :
  let st' := fst (Fetch.save_raw_response Sample.quiet_os (Cases.noon 0)
                    (rows Sample.courses_tied) "data/raw" 0
                    Cases.nothing_yet) in
  Fetch.save_raw_response Sample.quiet_os (Cases.noon 0)
    (rows Sample.courses_tied) "data/raw" 0 Cases.nothing_yet
  = (st', Ok tt) /\
  has_magic "data/raw" = false /\
  scandir Sample.os_one_page = [Fetch.page_name 0] /\
  exists raw,
    Consolidate.read_raw_courses Sample.os_one_page "data/raw"
      (mkWorld (Fetch.files st') [])
    = (mkWorld (Fetch.files st') [], Ok raw) /\
    Forall2
      (fun (c r : row) =>
         cell r "_raw_file" = VStr (Fetch.page_name 0) /\
         cell r "_offset" = VNum (inject_Z 0) /\
         cell r "_fetched_at" = VStr (Cases.noon 0 +:+ "Z") /\
         forall k, k <> "_raw_file" -> k <> "_fetched_at" -> k <> "_offset" ->
                   r !! k = c !! k)
      (rows Sample.courses_tied) raw.
Proof.
  cbv zeta. split; [reflexivity|]. split; [reflexivity|].
  split; [reflexivity|].
  apply (saved_page_is_read_back Sample.quiet_os (Cases.noon 0)
           (rows Sample.courses_tied) "data/raw" 0 Cases.nothing_yet
           (fst (Fetch.save_raw_response Sample.quiet_os (Cases.noon 0)
                   (rows Sample.courses_tied) "data/raw" 0
                   Cases.nothing_yet))
           Sample.os_one_page []).
  - reflexivity.
  - reflexivity.
  - reflexivity.
Defined.

Lemma fetch_saves_only_us_courses_witness :
  let p := "data/raw/teeradar_page_0.json" in
  let st' := fst (Fetch.fetch_pages Sample.quiet_os Cases.noon "key" None
                    100 None "data/raw"
                    [Fetch.Status 200 (Some Cases.page_body)] 0 0 0
                    Cases.nothing_yet) in
  Fetch.files st' !! p = Some (FCapture Cases.page_capture) /\
  length (Consolidate.courses_of Cases.page_capture) = 2%nat /\
  (Fetch.files Cases.nothing_yet !! p = Some (FCapture Cases.page_capture) \/
   List.Forall (fun c => Fetch.is_us c = true)
     (Consolidate.courses_of Cases.page_capture)).
Proof.
  cbv zeta. split; [reflexivity|]. split; [reflexivity|].
  apply (fetch_saves_only_us_courses Sample.quiet_os "key" None 100 None
           "data/raw" Cases.noon
           [Fetch.Status 200 (Some Cases.page_body)] 0 0 0
           Cases.nothing_yet "data/raw/teeradar_page_0.json"
           Cases.page_capture).
  reflexivity.
Defined.

Lemma transient_failures_are_retried_witness :
  let retries := [Fetch.NoResponse; Fetch.Status 429 None;
                  Fetch.Status 503 None] in
  let replies := [Fetch.Status 200 (Some Cases.page_body)] in
  forallb transient retries = true /\
  let r1 := Fetch.fetch_pages Sample.quiet_os Cases.noon "key" None 100 None
              "data/raw" (retries ++ replies) 0 0 0 Cases.nothing_yet in
  let r2 := Fetch.fetch_pages Sample.quiet_os
              (fun k => Cases.noon (length retries + k)%nat) "key" None 100
              None "data/raw" replies 0 0 0 Cases.nothing_yet in
  Fetch.files (fst r1) = Fetch.files (fst r2) /\
  snd r1 = snd r2 /\
  saved (Fetch.log (fst r1)) = saved (Fetch.log (fst r2)).
Proof.
  cbv zeta. split; [reflexivity|].
  apply (transient_failures_are_retried Sample.quiet_os "key" None 100 None
           "data/raw" Cases.noon
           [Fetch.NoResponse; Fetch.Status 429 None; Fetch.Status 503 None]
           [Fetch.Status 200 (Some Cases.page_body)] 0 0 0
           Cases.nothing_yet).
  reflexivity.
Defined.

Lemma blank_environment_key_blocks_the_run_witness :
  Cases.strip "   " = "" /\
  Fetch.load_api_key Cases.strip (Some "   ") (Some "s3cr3t") = Some "" /\
  Fetch.main Cases.strip Sample.quiet_os Cases.noon (Some "   ")
    (Some "s3cr3t") Cases.fetch_args
    [Fetch.Status 200 (Some Cases.page_body)] Cases.nothing_yet
  = (Fetch.say Fetch.NoApiKey Cases.nothing_yet, Fetch.Stopped).
Proof.
  split; [reflexivity|].
  apply (blank_environment_key_blocks_the_run Cases.strip Sample.quiet_os
           Cases.noon " " "  " (Some "s3cr3t") Cases.fetch_args
           [Fetch.Status 200 (Some Cases.page_body)] Cases.nothing_yet).
  reflexivity.
Defined.
